(** * grafi: a static-site build pipeline (grafe.go)

    A shallow embedding of [grafe.go] and the properties of its path
    utilities, tree walker, content renderer, asset mirror, transpiler pass
    and build orchestrator.

    Go strings are byte sequences: they are modelled as [list ascii].  The
    functions of Go's [strings] package used by the program are modelled
    after their implementation in the Go standard library. *)

From Stdlib Require Import Ascii String NArith Lia.
From stdpp Require Import base list gmap strings sorting.

Abbreviation gostring := (list ascii).

(** A string literal as a Go string. *)
Definition str (s : string) : gostring := list_ascii_of_string s.

(** ** Go's [strings] package *)

Module Strings.

(** [strings.HasPrefix]:
    [len(s) >= len(prefix) && s[:len(prefix)] == prefix]. *)
Definition HasPrefix (s pre : gostring) : bool :=
  bool_decide (take (length pre) s = pre).

(** [strings.HasSuffix]:
    [len(s) >= len(suffix) && s[len(s)-len(suffix):] == suffix]. *)
Definition HasSuffix (s suf : gostring) : bool :=
  bool_decide (length suf ≤ length s
               ∧ drop (length s - length suf) s = suf).

(** [strings.TrimPrefix]. *)
Definition TrimPrefix (s pre : gostring) : gostring :=
  if HasPrefix s pre then drop (length pre) s else s.

(** [strings.TrimSuffix]. *)
Definition TrimSuffix (s suf : gostring) : gostring :=
  if HasSuffix s suf then take (length s - length suf) s else s.

(** [strings.Split(s, sep)] for a one-byte separator: the substrings
    between the separators; never empty ([Split("", sep)] is [[""]]). *)
Fixpoint Split (s : gostring) (sep : ascii) : list gostring :=
  match s with
  | [] => [[]]
  | c :: s' =>
      if decide (c = sep) then [] :: Split s' sep
      else match Split s' sep with
           | [] => [[c]]
           | w :: ws => (c :: w) :: ws
           end
  end.

(** White space as defined by Unicode ([unicode.IsSpace]), on the UTF-8
    encoding: U+0009..U+000D and U+0020 take one byte; U+0085 and U+00A0
    two bytes; U+1680, U+2000..U+200A, U+2028, U+2029, U+202F, U+205F and
    U+3000 three bytes. *)
Definition isSpace1 (a : N) : bool :=
  ((9 <=? a) && (a <=? 13) || (a =? 32))%N.

Definition isSpace2 (a b : N) : bool :=
  ((a =? 194) && ((b =? 133) || (b =? 160)))%N.

Definition isSpace3 (a b c : N) : bool :=
  ((a =? 225) && (b =? 154) && (c =? 128)
   || (a =? 226) && (b =? 128)
      && ((128 <=? c) && (c <=? 138) || (c =? 168) || (c =? 169) || (c =? 175))
   || (a =? 226) && (b =? 129) && (c =? 159)
   || (a =? 227) && (b =? 128) && (c =? 128))%N.

(** Width in bytes of the white-space rune that [s] starts with; [0] when
    [s] does not start with white space ([utf8.DecodeRuneInString] and
    [unicode.IsSpace]). *)
Definition spaceWidth (s : gostring) : nat :=
  match s with
  | [] => 0
  | a :: s1 =>
      if isSpace1 (N_of_ascii a) then 1
      else match s1 with
           | [] => 0
           | b :: s2 =>
               if isSpace2 (N_of_ascii a) (N_of_ascii b) then 2
               else match s2 with
                    | [] => 0
                    | c :: _ =>
                        if isSpace3 (N_of_ascii a) (N_of_ascii b) (N_of_ascii c)
                        then 3 else 0
                    end
           end
  end.

(** The same for the white-space rune that a string ends with, read on the
    reversed string ([utf8.DecodeLastRuneInString]). *)
Definition spaceWidthRev (r : gostring) : nat :=
  match r with
  | [] => 0
  | c :: r1 =>
      if isSpace1 (N_of_ascii c) then 1
      else match r1 with
           | [] => 0
           | b :: r2 =>
               if isSpace2 (N_of_ascii b) (N_of_ascii c) then 2
               else match r2 with
                    | [] => 0
                    | a :: _ =>
                        if isSpace3 (N_of_ascii a) (N_of_ascii b) (N_of_ascii c)
                        then 3 else 0
                    end
           end
  end.

(** The loop of [strings.TrimLeftFunc]: drop white-space runes while there
    is one in front; [n] bounds the number of iterations. *)
Fixpoint trimLoop (width : gostring → nat) (n : nat) (s : gostring)
  : gostring :=
  match n with
  | 0 => s
  | S n' =>
      match width s with
      | 0 => s
      | S k => trimLoop width n' (drop (S k) s)
      end
  end.

Definition TrimLeftSpace (s : gostring) : gostring :=
  trimLoop spaceWidth (length s) s.

Definition TrimRightSpace (s : gostring) : gostring :=
  reverse (trimLoop spaceWidthRev (length s) (reverse s)).

(** [strings.TrimSpace]: leading and trailing white space removed. *)
Definition TrimSpace (s : gostring) : gostring :=
  TrimRightSpace (TrimLeftSpace s).

End Strings.

Import Strings.

(** ** Path utilities of grafe.go *)

Definition getExtension (filePath : gostring) : gostring :=
  let filePathParts := Split (TrimSpace filePath) "/" in
  let fileName := default [] (last filePathParts) in
  let fileNameElems := Split (TrimSpace fileName) "." in
  let extension := TrimPrefix fileName (default [] (head fileNameElems)) in
  extension.

Definition removeExtension (filePath : gostring) : gostring :=
  TrimSuffix (TrimSpace filePath) (getExtension filePath).

Definition addExtension (filePath newExtension : gostring) : gostring :=
  filePath ++ newExtension.

Definition changeExtension (filePath newExtension : gostring) : gostring :=
  addExtension (removeExtension filePath) newExtension.

(** ** Reading the claims on strings *)

(** The part of [s] from its first [c] on; empty when [s] has no [c]. *)
Fixpoint fromFirst (c : ascii) (s : gostring) : gostring :=
  match s with
  | [] => []
  | a :: s' => if decide (a = c) then s else fromFirst c s'
  end.

(** The part of [s] from its last [c] on; empty when [s] has no [c]. *)
Fixpoint fromLast (c : ascii) (s : gostring) : gostring :=
  match s with
  | [] => []
  | a :: s' =>
      match fromLast c s' with
      | [] => if decide (a = c) then s else []
      | r => r
      end
  end.

(** The part of [s] before its first [c]; all of [s] when it has no [c]. *)
Fixpoint beforeFirst (c : ascii) (s : gostring) : gostring :=
  match s with
  | [] => []
  | a :: s' => if decide (a = c) then [] else a :: beforeFirst c s'
  end.

(** What follows the last [c] of [s]; all of [s] when it has no [c]. *)
Fixpoint afterLast (c : ascii) (s : gostring) : gostring :=
  match s with
  | [] => []
  | a :: s' =>
      if bool_decide (c ∈ s') then afterLast c s'
      else if decide (a = c) then s' else s
  end.

(** The final path segment: what follows the last [/]. *)
Definition finalSegment (s : gostring) : gostring := afterLast "/" s.

(** The extension as the specification words it: from the last [.] of the
    final path segment. *)
Definition extensionOf_spec (path : gostring) : gostring :=
  fromLast "." (finalSegment path).

(** ** The file system *)

(** A file system maps resolved paths (lists of names, relative to the
    working directory) to nodes.  The working directory itself is the empty
    path and always a readable directory.  Only what the program can observe
    is modelled: regular files with their bytes, directories and whether they
    can be listed. *)
Inductive node :=
| File (data : gostring)
| Dir (readable : bool).

#[global] Instance node_eq_dec : EqDecision node.
Proof. solve_decision. Defined.

Abbreviation FS := (gmap (list gostring) node).

Definition isDirNode (nd : node) : bool :=
  match nd with Dir _ => true | File _ => false end.

(** The bytes of the regular file at [k], if there is one. *)
Definition fileAt (d : FS) (k : list gostring) : option gostring :=
  match d !! k with Some (File c) => Some c | _ => None end.

(** Path resolution: the elements between [/]; empty elements and [.] are
    skipped.  ([..] is not interpreted: no directory has an entry of that
    name, and the program builds its paths from directory entries.) *)
Definition components (path : gostring) : list gostring :=
  filter (λ c : gostring, c ≠ [] ∧ c ≠ str ".") (Split path "/").

Definition stat (d : FS) (k : list gostring) : option node :=
  match k with [] => Some (Dir true) | _ => d !! k end.

Definition parent (k : list gostring) : list gostring :=
  take (length k - 1) k.

Inductive errno := ENOENT | ENOTDIR | EISDIR | EACCES | ENOTEMPTY | EINVAL.

(** [os.MkdirAll]: every missing directory on the way is created (readable);
    a regular file on the way is an error. *)
Fixpoint mkdirAll (pre rest : list gostring) (d : FS) : option errno * FS :=
  match rest with
  | [] => (None, d)
  | n :: rest' =>
      let k := pre ++ [n] in
      match d !! k with
      | Some (Dir _) => mkdirAll k rest' d
      | Some (File _) => (Some ENOTDIR, d)
      | None => mkdirAll k rest' (<[k := Dir true]> d)
      end
  end.

(** [os.Create]: the file is created or truncated; its directory must
    exist. *)
Definition create (k : list gostring) (d : FS) : option errno * FS :=
  match k with
  | [] => (Some EISDIR, d)
  | _ =>
      match stat d (parent k) with
      | Some (Dir _) =>
          match d !! k with
          | Some (Dir _) => (Some EISDIR, d)
          | _ => (None, <[k := File []]> d)
          end
      | Some (File _) => (Some ENOTDIR, d)
      | None => (Some ENOENT, d)
      end
  end.

(** Writing through a file handle appends at the handle's offset. *)
Definition append (k : list gostring) (data : gostring) (d : FS)
  : option errno * FS :=
  match d !! k with
  | Some (File c) => (None, <[k := File (c ++ data)]> d)
  | Some (Dir _) => (Some EISDIR, d)
  | None => (Some ENOENT, d)
  end.

Definition readFile (k : list gostring) (d : FS) : gostring * option errno :=
  match stat d k with
  | Some (File c) => (c, None)
  | Some (Dir _) => ([], Some EISDIR)
  | None => ([], Some ENOENT)
  end.

(** The name [n] with [q = k ++ [n]], if [q] is an entry of [k]. *)
Fixpoint childName (k q : list gostring) : option gostring :=
  match k, q with
  | [], [n] => Some n
  | a :: k', b :: q' => if decide (a = b) then childName k' q' else None
  | _, _ => None
  end.

Record DirEntry := { Name : gostring; IsDir : bool }.

Definition children (d : FS) (k : list gostring) : list DirEntry :=
  omap (λ kv : list gostring * node,
          match childName k kv.1 with
          | Some n => Some {| Name := n; IsDir := isDirNode kv.2 |}
          | None => None
          end)
       (map_to_list d).

(** Byte-wise order of file names. *)
Fixpoint bytes_leb (a b : gostring) : bool :=
  match a, b with
  | [], _ => true
  | _ :: _, [] => false
  | x :: a', y :: b' =>
      if (N_of_ascii x <? N_of_ascii y)%N then true
      else if (N_of_ascii x =? N_of_ascii y)%N then bytes_leb a' b'
      else false
  end.

Definition byName (e1 e2 : DirEntry) : Prop :=
  bytes_leb (Name e1) (Name e2) = true.

#[global] Instance byName_dec e1 e2 : Decision (byName e1 e2).
Proof. unfold byName. apply _. Defined.

(** [os.ReadDir]: the entries of a directory, sorted by file name. *)
Definition readDir (k : list gostring) (d : FS) : list DirEntry * option errno :=
  match stat d k with
  | Some (Dir true) => (merge_sort byName (children d k), None)
  | Some (Dir false) => ([], Some EACCES)
  | Some (File _) => ([], Some ENOTDIR)
  | None => ([], Some ENOENT)
  end.

(** [os.Remove]: a regular file or an empty directory. *)
Definition remove (k : list gostring) (d : FS) : option errno * FS :=
  match k with
  | [] => (Some EINVAL, d)
  | _ =>
      match d !! k with
      | Some (File _) => (None, delete k d)
      | Some (Dir _) =>
          match children d k with
          | [] => (None, delete k d)
          | _ => (Some ENOTEMPTY, d)
          end
      | None => (Some ENOENT, d)
      end
  end.

(** [os.RemoveAll]: the path and everything below it; no error when the
    path does not exist. *)
Definition removeAll (k : list gostring) (d : FS) : option errno * FS :=
  match k with
  | [] => (Some EINVAL, d)
  | _ => (None, filter (λ kv : list gostring * node, ¬ k `prefix_of` kv.1) d)
  end.

(** ** [path/filepath] *)

(** The stack of [filepath.Clean]: [.] and empty elements are dropped, an
    inner [..] removes the element before it. *)
Fixpoint cleanElems (rooted : bool) (stack elems : list gostring)
  : list gostring :=
  match elems with
  | [] => reverse stack
  | e :: elems' =>
      if decide (e = [] ∨ e = str ".") then cleanElems rooted stack elems'
      else if decide (e = str "..") then
        match stack with
        | top :: stack' =>
            if decide (top = str "..")
            then cleanElems rooted (e :: stack) elems'
            else cleanElems rooted stack' elems'
        | [] =>
            if rooted then cleanElems rooted stack elems'
            else cleanElems rooted [e] elems'
        end
      else cleanElems rooted (e :: stack) elems'
  end.

Fixpoint joinPath (elems : list gostring) : gostring :=
  match elems with
  | [] => []
  | [e] => e
  | e :: elems' => e ++ "/"%char :: joinPath elems'
  end.

Definition filepath_Clean (path : gostring) : gostring :=
  let rooted := bool_decide (head path = Some "/"%char) in
  let body := joinPath (cleanElems rooted [] (Split path "/")) in
  if rooted then "/"%char :: body
  else match body with [] => str "." | _ => body end.

(** [filepath.Dir]: the path up to its last separator, cleaned. *)
Definition filepath_Dir (path : gostring) : gostring :=
  filepath_Clean (take (length path - length (afterLast "/" path)) path).

(** [filepath.Base]: the last element of the path; trailing separators are
    removed first. *)
Fixpoint dropTrailingSlashes (r : gostring) : gostring :=
  match r with
  | c :: r' => if decide (c = "/"%char) then dropTrailingSlashes r' else r
  | [] => []
  end.

Definition filepath_Base (path : gostring) : gostring :=
  match path with
  | [] => str "."
  | _ =>
      match reverse (dropTrailingSlashes (reverse path)) with
      | [] => str "/"
      | p => afterLast "/" p
      end
  end.


(** ** The process: file system, call trace and outcomes *)

(** A call of the operating system or of a library, with its string
    arguments. *)
Inductive Event := Call (fn : string) (args : list gostring).

Record World := { disk : FS; calls : list Event }.

(** A Go [error] value. *)
Inductive error :=
| PathError (op : string) (path : gostring) (no : errno)
| EngineError (pkg : string).

(** Front-matter values as the YAML decoder produces them. *)
#[warnings="-register-all"]
Inductive value :=
| VNil
| VBool (b : bool)
| VString (s : gostring)
| VInt (z : Z)
| VList (l : list value)
| VMap (m : list (value * value)).

Inductive gotype := TString | TMap.

(** How a process ends early: [log.Fatal] and [log.Fatalf] exit, a failed
    type assertion and [template.Must] panic. *)
Inductive fatal :=
| FatalError (e : error)
| FatalNoTemplate (file : gostring).

Inductive panicValue :=
| InterfaceConversion (v : value) (want : gotype)
| MustError (e : error).

Inductive outcome (A : Type) :=
| Ok (a : A)
| Fatal (f : fatal)
| Panic (p : panicValue)
| OutOfFuel.

Arguments Ok {A} a.
Arguments Fatal {A} f.
Arguments Panic {A} p.
Arguments OutOfFuel {A}.

Definition M (A : Type) : Type := World → outcome A * World.

Definition ret {A} (a : A) : M A := λ w, (Ok a, w).

Definition bind {A B} (m : M A) (k : A → M B) : M B :=
  λ w, match m w with
       | (Ok a, w') => k a w'
       | (Fatal f, w') => (Fatal f, w')
       | (Panic p, w') => (Panic p, w')
       | (OutOfFuel, w') => (OutOfFuel, w')
       end.

Notation "'let*' x ':=' c 'in' k" := (bind c (λ x, k))
  (at level 10, x pattern, c at level 100, k at level 200).

Definition exit {A} (f : fatal) : M A := λ w, (Fatal f, w).
Definition panic {A} (p : panicValue) : M A := λ w, (Panic p, w).
Definition outOfFuel {A} : M A := λ w, (OutOfFuel, w).

(** A call that acts on the file system. *)
Definition sys {A} (fn : string) (args : list gostring) (op : FS → A * FS)
  : M A :=
  λ w, let r := op (disk w) in
       (Ok r.1, {| disk := r.2; calls := calls w ++ [Call fn args] |}).

Definition pathError (op : string) (path : gostring) (e : option errno)
  : option error :=
  match e with Some no => Some (PathError op path no) | None => None end.

(** An open file is known by the path it was opened with. *)
Abbreviation file := gostring.

Definition os_ReadDir (name : gostring) : M (list DirEntry * option error) :=
  sys "os.ReadDir" [name]
      (λ d, let r := readDir (components name) d in
            ((r.1, pathError "open" name r.2), d)).

Definition os_MkdirAll (path : gostring) : M (option error) :=
  sys "os.MkdirAll" [path]
      (λ d, let r := mkdirAll [] (components path) d in
            (pathError "mkdir" path r.1, r.2)).

Definition os_Open (name : gostring) : M (file * option error) :=
  sys "os.Open" [name]
      (λ d, match stat d (components name) with
            | Some _ => ((name, None), d)
            | None => ((name, Some (PathError "open" name ENOENT)), d)
            end).

Definition os_Create (name : gostring) : M (file * option error) :=
  sys "os.Create" [name]
      (λ d, let r := create (components name) d in
            ((name, pathError "open" name r.1), r.2)).

Definition os_ReadFile (name : gostring) : M (gostring * option error) :=
  sys "os.ReadFile" [name]
      (λ d, let r := readFile (components name) d in
            ((r.1, pathError "read" name r.2), d)).

Definition os_Remove (name : gostring) : M (option error) :=
  sys "os.Remove" [name]
      (λ d, let r := remove (components name) d in
            (pathError "remove" name r.1, r.2)).

Definition os_RemoveAll (path : gostring) : M (option error) :=
  sys "os.RemoveAll" [path]
      (λ d, let r := removeAll (components path) d in
            (pathError "RemoveAll" path r.1, r.2)).

Definition File_WriteString (f : file) (s : gostring) : M (option error) :=
  sys "File.WriteString" [f; s]
      (λ d, let r := append (components f) s d in
            (pathError "write" f r.1, r.2)).

(** [io.Copy]: the bytes of the source as they are when the copy runs. *)
Definition io_Copy (dst src : file) : M (option error) :=
  sys "io.Copy" [dst; src]
      (λ d, match readFile (components src) d with
            | (c, None) =>
                let r := append (components dst) c d in
                (pathError "write" dst r.1, r.2)
            | (_, Some no) => (Some (PathError "read" src no), d)
            end).

(** ** The engines the program drives *)

Abbreviation MetaData := (gmap gostring value).

(** The record a page template is executed on. *)
Record PageData := {
  Title : gostring;
  Summary : gostring;
  Body : gostring;
  PageParams : list (value * value)
}.

(** A compiled template unit: executing the template of a given name on
    page data yields the bytes written and whether execution succeeded. *)
Record Template := {
  Execute : gostring → PageData → gostring * option error
}.

(** A markdown converter: the rendered body and the front matter, or an
    error. *)
Definition Markdown : Type := gostring → (gostring * MetaData) + error.

Record Engines := {
  (** [filepath.Glob] *)
  Glob : gostring → FS → list gostring * option error;
  (** [template.ParseFiles] *)
  ParseFiles : list gostring → FS → Template + error;
  (** [goldmark.New] with the options of [main] *)
  NewMarkdown : Markdown;
  (** [typescript.TranspileString] *)
  TranspileString : gostring → gostring + error
}.

Definition filepath_Glob (E : Engines) (pattern : gostring)
  : M (list gostring * option error) :=
  sys "filepath.Glob" [pattern] (λ d, (Glob E pattern d, d)).

Definition template_ParseFiles (E : Engines) (files : list gostring)
  : M (Template + error) :=
  sys "template.ParseFiles" files (λ d, (ParseFiles E files d, d)).

Definition template_Must (r : Template + error) : M Template :=
  match r with
  | inl t => ret t
  | inr e => panic (MustError e)
  end.

Definition goldmark_New (E : Engines) : M Markdown :=
  sys "goldmark.New" [] (λ d, (NewMarkdown E, d)).

Definition Markdown_Convert (markdownWriter : Markdown) (source : gostring)
  : M ((gostring * MetaData) * option error) :=
  sys "Markdown.Convert" [source]
      (λ d, match markdownWriter source with
            | inl r => ((r, None), d)
            | inr e => ((([], ∅), Some e), d)
            end).

Definition typescript_TranspileString (E : Engines) (code : gostring)
  : M (gostring * option error) :=
  sys "typescript.TranspileString" [code]
      (λ d, match TranspileString E code with
            | inl js => ((js, None), d)
            | inr e => (([], Some e), d)
            end).

(** [Template.ExecuteTemplate] writes what the template produces to the
    file, also when it fails on the way. *)
Definition Template_ExecuteTemplate (t : Template) (wr : file)
    (name : gostring) (data : PageData) : M (option error) :=
  sys "Template.ExecuteTemplate" [wr; name]
      (λ d, let out := Execute t name data in
            match append (components wr) out.1 d with
            | (None, d') => (out.2, d')
            | (Some no, d') => (Some (PathError "write" wr no), d')
            end).

(** [http.ListenAndServe] serves until it fails; the error it returns is
    never nil. *)
Definition http_ListenAndServe (addr : gostring) (directory : gostring)
  : M error :=
  sys "http.ListenAndServe" [addr; directory]
      (λ d, (EngineError "net/http", d)).

(** Indexing a map of interface values: a missing key reads as nil. *)
Definition index (metaData : MetaData) (key : string) : value :=
  default VNil (metaData !! str key).

(** The type assertions [v.(string)] and [v.(map[any]any)]. *)
Definition assertString (v : value) : M gostring :=
  match v with
  | VString s => ret s
  | _ => panic (InterfaceConversion v TString)
  end.

Definition assertMap (v : value) : M (list (value * value)) :=
  match v with
  | VMap m => ret m
  | _ => panic (InterfaceConversion v TMap)
  end.

(** [v == true] on an interface value. *)
Definition isTrue (v : value) : bool :=
  match v with VBool true => true | _ => false end.

Definition isNil (v : value) : bool :=
  match v with VNil => true | _ => false end.


(** ** grafe.go *)

Definition check (err : option error) : M unit :=
  match err with
  | Some e => exit (FatalError e)
  | None => ret tt
  end.

(** A [for _, x := range l] loop. *)
Fixpoint forEach {A} (l : list A) (body : A → M unit) : M unit :=
  match l with
  | [] => ret tt
  | x :: l' => let* _ := body x in forEach l' body
  end.

(** [walk] recurses on the directories it finds when it reads them; [fuel]
    bounds the depth of the recursion. *)
Fixpoint walk (fuel : nat) (dir : gostring) (fileFunction : gostring → M unit)
  : M unit :=
  match fuel with
  | 0 => outOfFuel
  | S fuel' =>
      let* r := os_ReadDir dir in
      let items := r.1 in
      forEach items (λ item,
        if negb (IsDir item) then
          fileFunction (dir ++ str "/" ++ Name item)
        else
          walk fuel' (dir ++ str "/" ++ Name item) fileFunction)
  end.

Definition createDirectoryPath (path : gostring) : M unit :=
  let* err := os_MkdirAll (filepath_Dir path) in
  check err.

Definition copyFile (sourcePath destinationPath : gostring) : M unit :=
  let* (source, err) := os_Open sourcePath in
  let* _ := check err in
  let* (destination, err) := os_Create destinationPath in
  let* _ := check err in
  let* err := io_Copy destination source in
  check err.

Definition generateHtmlFile (templates : gmap gostring Template)
    (markdownWriter : Markdown) (sourceMd outputFile : gostring) : M unit :=
  let* ((buf, metaData), err) := Markdown_Convert markdownWriter sourceMd in
  let* _ := check err in
  if isTrue (index metaData "Draft") then ret tt
  else
    let* _ := createDirectoryPath outputFile in
    let* (file, err) := os_Create outputFile in
    let* _ := check err in
    let params := index metaData "Params" in
    let params := if isNil params then VMap [] else params in
    let* title := assertString (index metaData "Title") in
    let* summary := assertString (index metaData "Summary") in
    let* pageParams := assertMap params in
    let data := {| Title := title; Summary := summary; Body := buf;
                   PageParams := pageParams |} in
    let* template := assertString (index metaData "Template") in
    let pageTemplateFile := addExtension template (str ".html") in
    match templates !! pageTemplateFile with
    | None => exit (FatalNoTemplate pageTemplateFile)
    | Some pageTemplate =>
        let* err :=
          Template_ExecuteTemplate pageTemplate file pageTemplateFile data in
        check err
    end.

Definition transpileTypescriptFile (E : Engines)
    (tsFilePath jsOutputPath : gostring) : M unit :=
  let* (tsCode, err) := os_ReadFile tsFilePath in
  let* _ := check err in
  let* (transpiled, err) := typescript_TranspileString E tsCode in
  let* _ := check err in
  let* (outputFile, err) := os_Create jsOutputPath in
  let* _ := check err in
  let* err := File_WriteString outputFile transpiled in
  check err.

(** The loop of [generateTemplates] over the layouts. *)
Fixpoint parseLayouts (E : Engines) (includes layouts : list gostring)
    (templates : gmap gostring Template) : M (gmap gostring Template) :=
  match layouts with
  | [] => ret templates
  | layout :: layouts' =>
      let files := includes ++ [layout] in
      let* parsed := template_ParseFiles E files in
      let* t := template_Must parsed in
      parseLayouts E includes layouts' (<[filepath_Base layout := t]> templates)
  end.

Definition generateTemplates (E : Engines) (directory : gostring)
  : M (gmap gostring Template) :=
  let templates := ∅ in
  let templatesDir := directory in
  let* (layouts, err) := filepath_Glob E (templatesDir ++ str "layouts/*") in
  let* _ := check err in
  let* (includes, err) := filepath_Glob E (templatesDir ++ str "includes/*") in
  let* _ := check err in
  parseLayouts E includes layouts templates.

Definition convertContentDirectory (fuel : nat)
    (templates : gmap gostring Template) (markdownWriter : Markdown) : M unit :=
  walk fuel (str "content") (λ fileName,
    if decide (getExtension fileName = str ".md") then
      let* (fileData, err) := os_ReadFile fileName in
      let* _ := check err in
      generateHtmlFile templates markdownWriter fileData
        (str "public/"
         ++ TrimPrefix (changeExtension fileName (str ".html")) (str "content/"))
    else
      let newFileName := TrimPrefix fileName (str "content/") in
      let* _ := createDirectoryPath (str "public/" ++ newFileName) in
      copyFile fileName (str "public/" ++ newFileName)).

Definition copyStaticDirectory (fuel : nat) (directoryToCopy : gostring)
  : M unit :=
  walk fuel directoryToCopy (λ fileName,
    let newFileName := TrimPrefix fileName directoryToCopy in
    let* _ := createDirectoryPath (str "public/" ++ newFileName) in
    copyFile fileName (str "public/" ++ newFileName)).

(** The callback of [transpileTypescript]. *)
Definition transpileVisit (E : Engines) (fileName : gostring) : M unit :=
  if decide (getExtension fileName ≠ str ".ts") then ret tt
  else
    let newFileName := changeExtension fileName (str ".js") in
    let* _ := createDirectoryPath (str "public/" ++ newFileName) in
    let* _ := transpileTypescriptFile E fileName newFileName in
    let* err := os_Remove fileName in
    check err.

Definition transpileTypescript (E : Engines) (fuel : nat) : M unit :=
  walk fuel (str "public") (transpileVisit E).

Definition startHTTPServer (directory : gostring) : M unit :=
  let* err := http_ListenAndServe (str ":8081") directory in
  exit (FatalError err).

Definition main (E : Engines) (fuel : nat) : M unit :=
  let* templates := generateTemplates E (str "theme/templates/") in
  let* markdownWriter := goldmark_New E in
  let* err := os_RemoveAll (str "public") in
  let* _ := check err in
  let* _ := convertContentDirectory fuel templates markdownWriter in
  let* _ := copyStaticDirectory fuel (str "theme/static") in
  let* _ := copyStaticDirectory fuel (str "static") in
  let* _ := transpileTypescript E fuel in
  let* (_, err) := os_Create (str "public/.nojekyll") in
  let* _ := check err in
  startHTTPServer (str "public").


(** ** Small worlds to run the program on *)

(** A file system given by its paths. *)
Definition mkFS (l : list (string * node)) : FS :=
  list_to_map (map (λ pn : string * node, (components (str pn.1), pn.2)) l).

Definition mkWorld (l : list (string * node)) : World :=
  {| disk := mkFS l; calls := [] |}.

(** A converter that reads the front matter off the first byte of the
    source: [D] is a draft without any other field, [X] a page without
    fields, [T] a page without [Template]; everything else is a page with
    title, summary and the template [default]. *)
Definition toyMarkdown : Markdown :=
  λ source,
    match source with
    | "D"%char :: _ => inl (source, {[ str "Draft" := VBool true ]})
    | "X"%char :: _ => inl (source, ∅)
    | "T"%char :: _ =>
        inl (source, {[ str "Title" := VString (str "t");
                        str "Summary" := VString (str "s") ]})
    | _ =>
        inl (source, {[ str "Title" := VString (str "t");
                        str "Summary" := VString (str "s");
                        str "Template" := VString (str "default") ]})
    end.

(** A template that writes title and body. *)
Definition toyTemplate : Template :=
  {| Execute := λ _ data, (Title data ++ str ":" ++ Body data, None) |}.

(** Engines for the small worlds: [Glob] lists the directory of the
    pattern, parsing fails on an include named [bad], the transpiler
    prefixes its input. *)
Definition toyEngines : Engines :=
  {| Glob := λ pattern d,
       let dir := take (length pattern - 1) pattern in
       (map (λ e, dir ++ Name e) (readDir (components dir) d).1, None);
     ParseFiles := λ files d,
       if bool_decide (str "theme/templates/includes/bad" ∈ files)
       then inr (EngineError "html/template") else inl toyTemplate;
     NewMarkdown := toyMarkdown;
     TranspileString := λ code, inl (str "js:" ++ code) |}.

Definition siteWorld : World :=
  mkWorld [ ("content", Dir true);
            ("content/a.md", File (str "hello"));
            ("content/d.md", File (str "Draft"));
            ("content/img", Dir true);
            ("content/img/p.png", File (str "png"));
            ("theme", Dir true);
            ("theme/templates", Dir true);
            ("theme/templates/layouts", Dir true);
            ("theme/templates/layouts/default.html", File (str "layout"));
            ("theme/templates/includes", Dir true);
            ("theme/static", Dir true);
            ("theme/static/app.ts", File (str "theme-ts"));
            ("theme/static/css", Dir true);
            ("theme/static/css/x.css", File (str "theme-css"));
            ("static", Dir true);
            ("static/app.ts", File (str "project-ts"));
            ("static/css", Dir true);
            ("static/css/x.css", File (str "project-css"));
            ("public", Dir true);
            ("public/old.html", File (str "stale")) ].


(** ** Reading the claims on the renderer *)

(** The front matter has [Title], [Summary] and [Template] as strings. *)
Definition validFields (metaData : MetaData) : Prop :=
  ∃ t s n, index metaData "Title" = VString t
           ∧ index metaData "Summary" = VString s
           ∧ index metaData "Template" = VString n.

(** The world after one more call that left the file system alone. *)
Definition called (w : World) (fn : string) (args : list gostring) : World :=
  {| disk := disk w; calls := calls w ++ [Call fn args] |}.


(** The world after a call that left the file system as [d]. *)
Definition logged (w : World) (d : FS) (fn : string) (args : list gostring)
  : World :=
  {| disk := d; calls := calls w ++ [Call fn args] |}.


(** ** Reading the claims on the tree walker *)

(** Names of directory entries: not empty, not [.] or [..], without [/]. *)
Definition validName (n : gostring) : Prop :=
  n ≠ [] ∧ n ≠ str "." ∧ n ≠ str ".." ∧ "/"%char ∉ n.

(** Every path of the file system is made of such names. *)
Definition namesOk (d : FS) : Prop :=
  ∀ k nd, d !! k = Some nd → Forall validName k.

(** The length of the longest path of the file system. *)
Definition height (d : FS) : nat :=
  foldr max 0 ((λ kv : list gostring * node, length kv.1) <$> map_to_list d).

(** [rel] leads from the directory [k] to a regular file, through
    directories that can be listed. *)
Fixpoint reachableFile (d : FS) (k rel : list gostring) : Prop :=
  match rel with
  | [] => False
  | [n] => stat d k = Some (Dir true) ∧ ∃ c, d !! (k ++ [n]) = Some (File c)
  | n :: rel' =>
      stat d k = Some (Dir true)
      ∧ (∃ b, d !! (k ++ [n]) = Some (Dir b))
      ∧ reachableFile d (k ++ [n]) rel'
  end.

(** The path [walk] builds for the file at [rel] below [root]. *)
Definition pathBelow (root : gostring) (rel : list gostring) : gostring :=
  foldl (λ dir n, dir ++ str "/" ++ n) root rel.

(** A callback that only records the path it is called on. *)
Definition visit (filePath : gostring) : M unit :=
  sys "visit" [filePath] (λ d, (tt, d)).

(** The paths recorded by [visit], in order. *)
Definition visited (calls : list Event) : list gostring :=
  omap (λ e, match e with
             | Call fn [p] => if decide (fn = "visit"%string) then Some p else None
             | _ => None
             end) calls.

(** The files [walk] visits below [k], as relative paths, in order. *)
Fixpoint listFiles (fuel : nat) (d : FS) (k : list gostring)
  : list (list gostring) :=
  match fuel with
  | 0 => []
  | S fuel' =>
      mjoin ((λ item,
               if negb (IsDir item) then [[Name item]]
               else (Name item ::.) <$> listFiles fuel' d (k ++ [Name item]))
             <$> (readDir k d).1)
  end.

#[global] Instance validName_dec n : Decision (validName n).
Proof. unfold validName. apply _. Defined.


(** ** Reading the claims on the build orchestrator *)

(** The calls a run adds to the trace all satisfy [A]. *)
Definition emits {X : Type} (A : Event → Prop) (m : M X) : Prop :=
  ∀ w, ∃ T, calls (m w).2 = calls w ++ T ∧ Forall A T.

(** A run that ended early. *)
Definition stopped {X : Type} (o : outcome X) : Prop :=
  match o with Ok _ => False | _ => True end.

(** A call of one of the functions [fns]. *)
Definition fnIn (fns : list string) (e : Event) : Prop :=
  match e with Call fn _ => fn ∈ fns end.

(** A call of [fn] whose first argument starts with [root]. *)
Definition fnOn (fn : string) (root : string) (e : Event) : Prop :=
  match e with
  | Call f (p :: _) => f = fn ∧ str root `prefix_of` p
  | _ => False
  end.

(** The calls of each step of the build. *)
Definition loadCall : Event → Prop :=
  fnIn ["filepath.Glob"; "template.ParseFiles"]%string.

Definition renderCall (e : Event) : Prop :=
  fnOn "os.ReadDir" "content" e
  ∨ fnOn "os.ReadFile" "content/" e
  ∨ fnOn "os.Open" "content/" e
  ∨ fnIn ["Markdown.Convert"; "os.MkdirAll"; "os.Create";
          "Template.ExecuteTemplate"; "io.Copy"]%string e.

Definition mirrorCall (root : string) (e : Event) : Prop :=
  fnOn "os.ReadDir" root e
  ∨ fnOn "os.Open" root e
  ∨ fnIn ["os.MkdirAll"; "os.Create"; "io.Copy"]%string e.

Definition transpileCall (e : Event) : Prop :=
  fnOn "os.ReadDir" "public" e
  ∨ fnIn ["os.MkdirAll"; "os.ReadFile"; "typescript.TranspileString";
          "os.Create"; "File.WriteString"; "os.Remove"]%string e.

Definition newConverter : Event := Call "goldmark.New" [].
Definition removeOutput : Event := Call "os.RemoveAll" [str "public"].
Definition createMarker : Event := Call "os.Create" [str "public/.nojekyll"].
Definition serve : Event :=
  Call "http.ListenAndServe" [str ":8081"; str "public"].

(** The order of the calls of a build: templates are loaded, the converter
    is made, the output root is removed, the content is rendered, the theme
    assets and then the project assets are mirrored, the scripts are
    transpiled, the marker is created, the server is started.  A build that
    ends early has made a prefix of these calls. *)
Definition buildTrace (T : list Event) : Prop :=
  ∃ T1 R, T = T1 ++ R ∧ Forall loadCall T1
  ∧ (R = []
     ∨ ∃ T4 T5 T6 T7 R8,
         R = newConverter :: removeOutput :: T4 ++ T5 ++ T6 ++ T7 ++ R8
         ∧ Forall renderCall T4
         ∧ Forall (mirrorCall "theme/static") T5
         ∧ Forall (mirrorCall "static") T6
         ∧ Forall transpileCall T7
         ∧ (R8 = [] ∨ R8 = [createMarker] ∨ R8 = [createMarker; serve])).

(** The steps of a build, as the specification names them. *)








(** ** Reading the claims on the asset mirror and the transpiler pass *)

(** From [d] to [d'] every directory is kept, and the bytes of regular
    files change (or files appear or disappear) only at paths in [K]. *)
Definition keeps (K : list gostring → Prop) (d d' : FS) : Prop :=
  (∀ q b, d !! q = Some (Dir b) → d' !! q = Some (Dir b))
  ∧ (∀ q, fileAt d' q = fileAt d q ∨ K q).

(** From [d] to [d'] nothing changes outside the paths in [J]. *)
Definition unchanged (J : list gostring → Prop) (d d' : FS) : Prop :=
  ∀ q, ¬ J q → d' !! q = d !! q.

(** The paths below the output root. *)
Definition inPublic (q : list gostring) : Prop :=
  [str "public"] `prefix_of` q.

(** The callback of [copyStaticDirectory]. *)
Definition mirrorVisit (directoryToCopy fileName : gostring) : M unit :=
  let newFileName := TrimPrefix fileName directoryToCopy in
  let* _ := createDirectoryPath (str "public/" ++ newFileName) in
  copyFile fileName (str "public/" ++ newFileName).


(** The run [r] from the world [w] has copied the files of [d0] at the
    relative paths [R] below [ks] to the same relative paths below [kd],
    and has changed no other regular file and nothing outside the output
    root. *)
Definition copied (d0 : FS) (ks kd : list gostring)
    (R : list gostring → Prop) (w : World) (r : outcome unit * World) : Prop :=
  r.1 ≠ OutOfFuel
  ∧ unchanged inPublic (disk w) (disk r.2)
  ∧ keeps (λ q, ∃ rel, R rel ∧ q = kd ++ rel) (disk w) (disk r.2)
  ∧ (r.1 = Ok tt →
     ∀ rel, R rel →
       ∃ c, fileAt d0 (ks ++ rel) = Some c
            ∧ fileAt (disk r.2) (kd ++ rel) = Some c).

(** The relative paths that start with the entry [e] of the directory [k]
    and lead to a regular file. *)
Definition belowEntry (d0 : FS) (k : list gostring) (e : DirEntry)
    (rel : list gostring) : Prop :=
  ∃ rel', rel = Name e :: rel'
          ∧ if IsDir e then reachableFile d0 (k ++ [Name e]) rel'
            else rel' = [].


(** What [removeExtension] keeps of the file name [n]. *)
Definition stemOf (n : gostring) : gostring :=
  drop 1 (removeExtension ("/"%char :: n)).

Definition nameOf (q : list gostring) : gostring := default [] (last q).

(** The file at [q] is TypeScript source for [transpileTypescript]. *)
Definition isTsKey (q : list gostring) : Prop :=
  getExtension ("/"%char :: nameOf q) = str ".ts".

(** Where the transpiled output of the file at [q] goes. *)
Definition jsKey (q : list gostring) : list gostring :=
  parent q ++ [stemOf (nameOf q) ++ str ".js"].

(** Every entry of the file system lies in a directory. *)
Definition closed (d : FS) : Prop :=
  ∀ q nd, d !! q = Some nd → ∃ b, stat d (parent q) = Some (Dir b).

(** No path is longer than [H]. *)
Definition bounded (H : nat) (d : FS) : Prop :=
  ∀ q nd, d !! q = Some nd → length q ≤ H.

Definition wellFormed (H : nat) (d : FS) : Prop :=
  namesOk d ∧ closed d ∧ bounded H d.

(** The TypeScript sources that [walk] finds below the directory [k]. *)
Definition tsUnder (d : FS) (k s : list gostring) : Prop :=
  ∃ rel, s = k ++ rel ∧ reachableFile d k rel ∧ isTsKey s.

(** The run [r] from the world [w] has transpiled the TypeScript sources
    [R] (their bytes taken from [d0]): each source is gone, its output is at
    the path with the extension changed, the doubly prefixed directory was
    made; no other regular file has changed. *)
Definition touched (R : list gostring → Prop) (q : list gostring) : Prop :=
  ∃ s, R s ∧ (q = s ∨ q = jsKey s).

Definition transpiled (E : Engines) (d0 : FS) (R : list gostring → Prop)
    (w : World) (r : outcome unit * World) : Prop :=
  r.1 ≠ OutOfFuel
  ∧ calls w `prefix_of` calls r.2
  ∧ keeps (touched R) (disk w) (disk r.2)
  ∧ (r.1 = Ok tt →
     ∀ s, R s →
       fileAt (disk r.2) s = None
       ∧ Call "os.MkdirAll" [joinPath (str "public" :: parent s)] ∈ calls r.2
       ∧ (∃ b, disk r.2 !! (str "public" :: parent s) = Some (Dir b))
       ∧ ∃ s2 c js,
           R s2 ∧ jsKey s2 = jsKey s
           ∧ fileAt d0 s2 = Some c ∧ TranspileString E c = inl js
           ∧ fileAt (disk r.2) (jsKey s) = Some js).

(** The regular files at and below [k] are those of [d0]. *)
Definition agrees (d0 d : FS) (k : list gostring) : Prop :=
  ∀ q, k `prefix_of` q → fileAt d q = fileAt d0 q.

(** The TypeScript sources at or below the entry [e] of the directory [k]. *)
Definition entryTs (d0 : FS) (k : list gostring) (e : DirEntry)
    (s : list gostring) : Prop :=
  ∃ rel, s = k ++ rel ∧ belowEntry d0 k e rel ∧ isTsKey s.

(** The keys of a set of TypeScript sources end with a file name. *)
Definition sources (R : list gostring → Prop) : Prop :=
  ∀ s, R s → isTsKey s ∧ "/"%char ∉ nameOf s.

(** [wellFormed], as a test that can be run. *)
Definition wellFormedb (H : nat) (d : FS) : bool :=
  bool_decide (map_Forall (λ q _, Forall validName q
                                  ∧ isDirNode <$> stat d (parent q) = Some true
                                  ∧ length q ≤ H) d).

(** An output tree with scripts: a source next to an older output of the
    same name, and a source in a directory. *)
Definition scriptWorld : World :=
  mkWorld [ ("public", Dir true);
            ("public/y.ts", File (str "let y"));
            ("public/y.js", File (str "old"));
            ("public/x", Dir true);
            ("public/x/app.ts", File (str "let a"));
            ("public/x/style.css", File (str "css")) ].

(** An output tree with a source whose name has two dots, and two sources
    whose names differ in a trailing space. *)
Definition dottedScriptWorld : World :=
  mkWorld [ ("public", Dir true);
            ("public/a.b.ts", File (str "let ab"));
            ("public/y.ts", File (str "let y"));
            ("public/y.ts ", File (str "let z")) ].

(** ** Reading the claim on the whole build *)

(** Every run of [m] from a file system in [I] ends in a file system in
    [I], and not for want of fuel. *)
Definition safe {A : Type} (I : FS → Prop) (m : M A) : Prop :=
  ∀ w, I (disk w) → I (disk (m w).2) ∧ (m w).1 ≠ OutOfFuel.

(** The file system is well formed, and outside the output root it is
    [d0]. *)
Definition sound (H : nat) (d0 d : FS) : Prop :=
  wellFormed H d ∧ unchanged inPublic d0 d.

(** A path of the output root. *)
Definition outPath (H : nat) (path : gostring) : Prop :=
  Forall validName (components path) ∧ length (components path) ≤ H
  ∧ inPublic (components path).

(** The run did not end for want of fuel, and if it has started the preview
    server, its file system satisfies [P]. *)
Definition served (P : FS → Prop) (r : outcome unit * World) : Prop :=
  r.1 ≠ OutOfFuel ∧ (serve ∈ calls r.2 → P (disk r.2)).

(** ** Reading the content step *)

(** The callback of [convertContentDirectory]. *)
Definition contentVisit (templates : gmap gostring Template)
    (markdownWriter : Markdown) (fileName : gostring) : M unit :=
  if decide (getExtension fileName = str ".md") then
    let* (fileData, err) := os_ReadFile fileName in
    let* _ := check err in
    generateHtmlFile templates markdownWriter fileData
      (str "public/"
       ++ TrimPrefix (changeExtension fileName (str ".html")) (str "content/"))
  else
    let newFileName := TrimPrefix fileName (str "content/") in
    let* _ := createDirectoryPath (str "public/" ++ newFileName) in
    copyFile fileName (str "public/" ++ newFileName).

(** A markdown source, by the name of the file. *)
Definition isMdKey (q : list gostring) : Prop :=
  getExtension ("/"%char :: nameOf q) = str ".md".

(** The path [q] with the extension of its last element changed to [.html]. *)
Definition htmlKey (q : list gostring) : list gostring :=
  parent q ++ [stemOf (nameOf q) ++ str ".html"].

(** Where the content step writes for the file at [rel] below [content]. *)
Definition outKey (rel : list gostring) : list gostring :=
  if decide (isMdKey rel) then str "public" :: htmlKey rel
  else str "public" :: rel.

(** Outside the output root the file system is [dA]; below it the regular
    files that differ from those of [dA] are at keys in [K], and the
    directories of [dA] are still there. *)
Definition frame (dA : FS) (K : list gostring → Prop) (d : FS) : Prop :=
  unchanged inPublic dA d ∧ keeps K dA d.

(** The run [r] from [w] has written for the content files at the relative
    paths [R] only, and has copied those that are neither markdown sources
    nor [.html] files. *)
Definition published (d0 : FS) (R : list gostring → Prop)
    (w : World) (r : outcome unit * World) : Prop :=
  r.1 ≠ OutOfFuel
  ∧ frame (disk w) (λ q, ∃ rel, R rel ∧ q = outKey rel) (disk r.2)
  ∧ (r.1 = Ok tt →
     ∀ rel, R rel → ¬ isMdKey rel →
       getExtension ("/"%char :: nameOf rel) ≠ str ".html" →
       ∃ c, fileAt d0 (str "content" :: rel) = Some c
            ∧ fileAt (disk r.2) (str "public" :: rel) = Some c).

(* ================================================================== *)
(** * Properties *)
(* ================================================================== *)

(** ** Lists of bytes *)

Lemma sep_last_decomp (c : ascii) (s : gostring) :
  c ∉ s ∨ ∃ d seg, s = d ++ c :: seg ∧ c ∉ seg.
Proof.
  induction s as [|a s IH]; [left; apply not_elem_of_nil|].
  destruct IH as [Hn|(d & seg & -> & Hn)].
  - destruct (decide (a = c)) as [->|Hac].
    + right. exists [], s. done.
    + left. rewrite not_elem_of_cons. done.
  - right. exists (a :: d), seg. done.
Qed.

Lemma sep_first_decomp (c : ascii) (s : gostring) :
  c ∉ s ∨ ∃ u v, s = u ++ c :: v ∧ c ∉ u.
Proof.
  induction s as [|a s IH]; [left; apply not_elem_of_nil|].
  destruct (decide (a = c)) as [->|Hac].
  - right. exists [], s. split; [done|apply not_elem_of_nil].
  - destruct IH as [Hn|(u & v & -> & Hn)].
    + left. rewrite not_elem_of_cons. done.
    + right. exists (a :: u), v. split; [done|].
      rewrite not_elem_of_cons. done.
Qed.

Lemma beforeFirst_notin c s : c ∉ s → beforeFirst c s = s.
Proof.
  induction s as [|a s IH]; [done|]. rewrite not_elem_of_cons.
  intros [Hac Hs]. simpl. rewrite decide_False by done. by rewrite IH.
Qed.

Lemma beforeFirst_app c u v : c ∉ u → beforeFirst c (u ++ c :: v) = u.
Proof.
  induction u as [|a u IH]; simpl.
  - by rewrite decide_True.
  - rewrite not_elem_of_cons. intros [Hac Hu].
    rewrite decide_False by done. by rewrite IH.
Qed.

Lemma fromFirst_notin c s : c ∉ s → fromFirst c s = [].
Proof.
  induction s as [|a s IH]; [done|]. rewrite not_elem_of_cons.
  intros [Hac Hs]. simpl. rewrite decide_False by done. by rewrite IH.
Qed.

Lemma fromFirst_app c u v : c ∉ u → fromFirst c (u ++ c :: v) = c :: v.
Proof.
  induction u as [|a u IH]; simpl.
  - by rewrite decide_True.
  - rewrite not_elem_of_cons. intros [Hac Hu].
    rewrite decide_False by done. by rewrite IH.
Qed.

Lemma before_from_first c s : beforeFirst c s ++ fromFirst c s = s.
Proof.
  induction s as [|a s IH]; [done|]. simpl.
  destruct (decide (a = c)); [done|]. simpl. by rewrite IH.
Qed.

Lemma beforeFirst_no_sep c s : c ∉ beforeFirst c s.
Proof.
  induction s as [|a s IH]; simpl; [apply not_elem_of_nil|].
  destruct (decide (a = c)); [apply not_elem_of_nil|].
  rewrite not_elem_of_cons. done.
Qed.

Lemma afterLast_notin c s : c ∉ s → afterLast c s = s.
Proof.
  destruct s as [|a s]; [done|]. rewrite not_elem_of_cons.
  intros [Hac Hs]. simpl. rewrite bool_decide_eq_false_2 by done.
  by rewrite decide_False by done.
Qed.

Lemma afterLast_app c d seg : c ∉ seg → afterLast c (d ++ c :: seg) = seg.
Proof.
  intros Hn. induction d as [|a d IH]; simpl.
  - rewrite bool_decide_eq_false_2 by done. by rewrite decide_True.
  - rewrite bool_decide_eq_true_2; [done|].
    rewrite elem_of_app, elem_of_cons. auto.
Qed.

Lemma afterLast_no_sep c s : c ∉ afterLast c s.
Proof.
  destruct (sep_last_decomp c s) as [Hn|(d & seg & -> & Hn)].
  - by rewrite afterLast_notin.
  - by rewrite afterLast_app.
Qed.

Lemma afterLast_suffix c s : ∃ d, s = d ++ afterLast c s.
Proof.
  destruct (sep_last_decomp c s) as [Hn|(d & seg & -> & Hn)].
  - exists []. by rewrite afterLast_notin.
  - exists (d ++ [c]). rewrite afterLast_app by done.
    by rewrite <- app_assoc.
Qed.

(** ** [strings.Split] *)

Lemma Split_nonempty s c : Split s c ≠ [].
Proof.
  destruct s as [|a s]; simpl; [done|].
  destruct (decide (a = c)); [done|]. by destruct (Split s c).
Qed.

Lemma Split_notin s c : c ∉ s → Split s c = [s].
Proof.
  induction s as [|a s IH]; [done|]. rewrite not_elem_of_cons.
  intros [Hac Hs]. simpl. rewrite decide_False by done. by rewrite IH.
Qed.

Lemma Split_app u v c : Split (u ++ c :: v) c = Split u c ++ Split v c.
Proof.
  induction u as [|a u IH]; simpl.
  - by rewrite decide_True.
  - destruct (decide (a = c)); [by rewrite IH|].
    rewrite IH. pose proof (Split_nonempty u c).
    by destruct (Split u c).
Qed.

Lemma head_Split s c : default [] (head (Split s c)) = beforeFirst c s.
Proof.
  induction s as [|a s IH]; [done|]. simpl.
  destruct (decide (a = c)); [done|].
  pose proof (Split_nonempty s c).
  destruct (Split s c); [done|]. simpl in *. by rewrite IH.
Qed.

Lemma last_Split s c : default [] (last (Split s c)) = afterLast c s.
Proof.
  destruct (sep_last_decomp c s) as [Hn|(d & seg & -> & Hn)].
  - by rewrite Split_notin, afterLast_notin.
  - rewrite Split_app, (Split_notin seg) by done.
    rewrite last_snoc. by rewrite afterLast_app.
Qed.

(** ** [strings.TrimPrefix] and [strings.TrimSuffix] *)

Lemma TrimPrefix_app u v : TrimPrefix (u ++ v) u = v.
Proof.
  unfold TrimPrefix, HasPrefix.
  rewrite bool_decide_eq_true_2 by (by rewrite take_app_length).
  by rewrite drop_app_length.
Qed.

Lemma TrimPrefix_suffix s u : ∃ a, s = a ++ TrimPrefix s u.
Proof.
  unfold TrimPrefix. destruct (HasPrefix s u).
  - exists (take (length u) s). by rewrite take_drop.
  - by exists [].
Qed.

Lemma TrimSuffix_app u v : TrimSuffix (u ++ v) v = u.
Proof.
  unfold TrimSuffix, HasSuffix. rewrite length_app.
  replace (length u + length v - length v) with (length u) by lia.
  rewrite bool_decide_eq_true_2.
  - by rewrite take_app_length.
  - split; [lia|]. by rewrite drop_app_length.
Qed.

(** ** [strings.TrimSpace] *)

Lemma trimLoop_suffix width n s : ∃ a, s = a ++ trimLoop width n s.
Proof.
  revert s. induction n as [|n IH]; intros s; simpl; [by exists []|].
  destruct (width s) as [|k]; [by exists []|].
  destruct (IH (drop (S k) s)) as [a Ha].
  exists (take (S k) s ++ a). rewrite <- app_assoc, <- Ha.
  by rewrite take_drop.
Qed.

Lemma trimLoop_id width n s : width s = 0 → trimLoop width n s = s.
Proof. intros H. destruct n; simpl; [done|]. by rewrite H. Qed.

Lemma trimLoop_done width n s :
  width [] = 0 → length s ≤ n → width (trimLoop width n s) = 0.
Proof.
  intros H0. revert s. induction n as [|n IH]; intros s Hn; simpl.
  - destruct s; [done|simpl in Hn; lia].
  - destruct (width s) as [|k] eqn:Hw; [done|].
    apply IH. destruct s as [|a s]; [congruence|].
    simpl. rewrite length_drop. simpl in Hn. lia.
Qed.

Ltac space_bits :=
  unfold isSpace1, isSpace2, isSpace3;
  repeat first [rewrite andb_true_iff | rewrite orb_true_iff
               | rewrite N.eqb_eq | rewrite N.leb_le];
  lia.

Lemma isSpace2_high a b : isSpace2 a b = true → (128 ≤ b)%N.
Proof. space_bits. Qed.

Lemma isSpace3_high a b c : isSpace3 a b c = true → (128 ≤ b ∧ 128 ≤ c)%N.
Proof. space_bits. Qed.

Lemma isSpace2_high_l a b : isSpace2 a b = true → (128 ≤ a)%N.
Proof. space_bits. Qed.

Lemma isSpace3_high_l a b c : isSpace3 a b c = true → (128 ≤ a)%N.
Proof. space_bits. Qed.

Lemma isSpace1_low a : isSpace1 a = true → (a < 128)%N.
Proof. space_bits. Qed.

(** White space found at the head of a string stays there when the string
    is extended. *)
Lemma spaceWidth_app a b : spaceWidth a ≠ 0 → spaceWidth (a ++ b) = spaceWidth a.
Proof.
  destruct a as [|x [|y [|z a]]]; simpl; intros H; try done;
    repeat (case_match; try done).
Qed.

Lemma spaceWidth_prefix a b : spaceWidth (a ++ b) = 0 → spaceWidth a = 0.
Proof.
  intros H. destruct (decide (spaceWidth a = 0)) as [|Hn]; [done|].
  rewrite spaceWidth_app in H; done.
Qed.

Lemma spaceWidthRev_app a b :
  spaceWidthRev a ≠ 0 → spaceWidthRev (a ++ b) = spaceWidthRev a.
Proof.
  destruct a as [|x [|y [|z a]]]; simpl; intros H; try done;
    repeat (case_match; try done).
Qed.

Lemma spaceWidthRev_prefix a b : spaceWidthRev (a ++ b) = 0 → spaceWidthRev a = 0.
Proof.
  intros H. destruct (decide (spaceWidthRev a = 0)) as [|Hn]; [done|].
  rewrite spaceWidthRev_app in H; done.
Qed.

(** A string that ends with an ASCII byte other than white space does not
    end with white space. *)
Lemma spaceWidthRev_ascii c r :
  isSpace1 (N_of_ascii c) = false → (N_of_ascii c < 128)%N →
  spaceWidthRev (c :: r) = 0.
Proof.
  intros H1 Hc. simpl. rewrite H1. destruct r as [|b [|a r]]; [done| |].
  - destruct (isSpace2 _ _) eqn:E; [|done].
    apply isSpace2_high in E. lia.
  - destruct (isSpace2 _ _) eqn:E; [apply isSpace2_high in E; lia|].
    destruct (isSpace3 _ _ _) eqn:E3; [|done].
    apply isSpace3_high in E3. lia.
Qed.

(** Cutting a string that does not start with white space and appending an
    ASCII byte other than white space gives a string that does not start
    with white space either. *)
Lemma spaceWidth_cut r v c w :
  spaceWidth (r ++ v) = 0 →
  isSpace1 (N_of_ascii c) = false → (N_of_ascii c < 128)%N →
  spaceWidth (r ++ c :: w) = 0.
Proof.
  intros H H1 Hc.
  destruct r as [|x [|y [|z r]]]; simpl in *.
  - rewrite H1. destruct w as [|b [|a w]]; [done| |].
    + destruct (isSpace2 _ _) eqn:E; [|done].
      apply isSpace2_high_l in E. lia.
    + destruct (isSpace2 _ _) eqn:E; [apply isSpace2_high_l in E; lia|].
      destruct (isSpace3 _ _ _) eqn:E3; [|done].
      apply isSpace3_high_l in E3. lia.
  - destruct (isSpace1 (N_of_ascii x)); [done|].
    destruct (isSpace2 _ (N_of_ascii c)) eqn:E; [apply isSpace2_high in E; lia|].
    destruct w as [|b w]; [done|].
    destruct (isSpace3 _ _ _) eqn:E3; [|done].
    apply isSpace3_high in E3. lia.
  - destruct (isSpace1 (N_of_ascii x)); [done|].
    destruct (isSpace2 _ _); [done|].
    destruct (isSpace3 _ _ _) eqn:E3; [|done].
    apply isSpace3_high in E3. lia.
  - done.
Qed.

Lemma TrimLeftSpace_suffix s : ∃ a, s = a ++ TrimLeftSpace s.
Proof. apply trimLoop_suffix. Qed.

Lemma TrimLeftSpace_done s : spaceWidth (TrimLeftSpace s) = 0.
Proof. by apply trimLoop_done. Qed.

Lemma TrimLeftSpace_id s : spaceWidth s = 0 → TrimLeftSpace s = s.
Proof. apply trimLoop_id. Qed.

Lemma TrimRightSpace_prefix s : ∃ b, s = TrimRightSpace s ++ b.
Proof.
  unfold TrimRightSpace.
  destruct (trimLoop_suffix spaceWidthRev (length s) (reverse s)) as [a Ha].
  exists (reverse a).
  rewrite <- reverse_app, <- Ha. by rewrite reverse_involutive.
Qed.

Lemma TrimRightSpace_done s : spaceWidthRev (reverse (TrimRightSpace s)) = 0.
Proof.
  unfold TrimRightSpace. rewrite reverse_involutive.
  apply trimLoop_done; [done|]. by rewrite length_reverse.
Qed.

Lemma TrimRightSpace_id s :
  spaceWidthRev (reverse s) = 0 → TrimRightSpace s = s.
Proof.
  intros H. unfold TrimRightSpace. rewrite trimLoop_id by done.
  apply reverse_involutive.
Qed.

Lemma TrimSpace_id s :
  spaceWidth s = 0 → spaceWidthRev (reverse s) = 0 → TrimSpace s = s.
Proof.
  intros Hl Hr. unfold TrimSpace.
  rewrite TrimLeftSpace_id by done. by apply TrimRightSpace_id.
Qed.

Lemma TrimSpace_no_lead s : spaceWidth (TrimSpace s) = 0.
Proof.
  unfold TrimSpace.
  destruct (TrimRightSpace_prefix (TrimLeftSpace s)) as [b Hb].
  apply (spaceWidth_prefix _ b). rewrite <- Hb. apply TrimLeftSpace_done.
Qed.

Lemma TrimSpace_no_trail s : spaceWidthRev (reverse (TrimSpace s)) = 0.
Proof. apply TrimRightSpace_done. Qed.

Lemma TrimSpace_sub s : ∃ a b, s = a ++ TrimSpace s ++ b.
Proof.
  unfold TrimSpace.
  destruct (TrimLeftSpace_suffix s) as [a Ha].
  destruct (TrimRightSpace_prefix (TrimLeftSpace s)) as [b Hb].
  exists a, b. by rewrite <- Hb.
Qed.

Lemma spaceWidthRev_cut r v c w :
  spaceWidthRev (r ++ v) = 0 →
  isSpace1 (N_of_ascii c) = false → (N_of_ascii c < 128)%N →
  spaceWidthRev (r ++ c :: w) = 0.
Proof.
  intros H H1 Hc.
  destruct r as [|x [|y [|z r]]]; simpl in *.
  - by apply spaceWidthRev_ascii.
  - destruct (isSpace1 (N_of_ascii x)); [done|].
    destruct (isSpace2 (N_of_ascii c) _) eqn:E;
      [apply isSpace2_high_l in E; lia|].
    destruct w as [|b w]; [done|].
    destruct (isSpace3 _ _ _) eqn:E3; [|done].
    apply isSpace3_high in E3. lia.
  - destruct (isSpace1 (N_of_ascii x)); [done|].
    destruct (isSpace2 _ _); [done|].
    destruct (isSpace3 _ _ _) eqn:E3; [|done].
    apply isSpace3_high_l in E3. lia.
  - done.
Qed.

(** ** The path utilities *)

Lemma getExtension_eq p :
  getExtension p =
  let seg := finalSegment (TrimSpace p) in
  TrimPrefix seg (beforeFirst "." (TrimSpace seg)).
Proof.
  unfold getExtension, finalSegment. cbv zeta.
  by rewrite last_Split, head_Split.
Qed.

(** What [removeExtension] keeps: a directory part [d] and a stem [u] of
    the final segment, without [.] and not starting with white space. *)
Lemma removeExtension_shape p :
  ∃ d u v v',
    TrimSpace p = d ++ u ++ getExtension p
    ∧ removeExtension p = d ++ u
    ∧ finalSegment (TrimSpace p) = u ++ getExtension p
    ∧ (∀ w, "/"%char ∉ w → finalSegment (d ++ u ++ w) = u ++ w)
    ∧ ("."%char ∉ u)
    ∧ spaceWidth (u ++ v) = 0
    ∧ spaceWidth ((d ++ u) ++ v') = 0.
Proof.
  pose proof (getExtension_eq p) as He. cbv zeta in He.
  unfold removeExtension.
  pose proof (TrimSpace_no_lead p) as Hlead.
  remember (TrimSpace p) as t eqn:Et. clear Et.
  pose proof (afterLast_no_sep "/" t) as Hseg.
  assert (Hd : ∃ d, t = d ++ finalSegment t
               ∧ (∀ s, "/"%char ∉ s → finalSegment (d ++ s) = s)).
  { unfold finalSegment.
    destruct (sep_last_decomp "/" t) as [Hn|(d & sg & Ht & Hn)].
    - exists []. rewrite afterLast_notin by done. split; [done|].
      intros s Hs. by apply afterLast_notin.
    - exists (d ++ ["/"%char]). rewrite Ht, afterLast_app by done.
      split; [by rewrite <- app_assoc|].
      intros s Hs. rewrite <- app_assoc. by apply afterLast_app. }
  destruct Hd as (d & Ht & Hfin).
  fold (finalSegment t) in Hseg.
  remember (finalSegment t) as seg eqn:Es. clear Es.
  assert (Hu : ∃ u v, seg = u ++ getExtension p ∧ ("."%char ∉ u)
               ∧ spaceWidth (u ++ v) = 0).
  { rewrite He. unfold TrimPrefix.
    destruct (HasPrefix seg _) eqn:Hp.
    - exists (beforeFirst "." (TrimSpace seg)), (fromFirst "." (TrimSpace seg)).
      split; [|split].
      + unfold HasPrefix in Hp. apply bool_decide_eq_true_1 in Hp.
        rewrite <- Hp at 1. by rewrite take_drop.
      + apply beforeFirst_no_sep.
      + rewrite before_from_first. apply TrimSpace_no_lead.
    - exists [], []. split; [done|]. split; [apply not_elem_of_nil|done]. }
  destruct Hu as (u & v & Hsg & Hdot & Hsp).
  assert (Hus : "/"%char ∉ u).
  { intros Hin. apply Hseg. rewrite Hsg, elem_of_app. by left. }
  exists d, u, v, (getExtension p).
  assert (Htt : t = d ++ u ++ getExtension p) by congruence.
  split; [done|]. split.
  { rewrite Htt at 1. rewrite app_assoc. apply TrimSuffix_app. }
  split; [done|]. split.
  { intros w Hw. apply Hfin. rewrite not_elem_of_app. done. }
  split; [done|]. split; [done|].
  by rewrite <- app_assoc, <- Htt.
Qed.

Lemma getExtension_suffix p :
  ∃ u, finalSegment (TrimSpace p) = u ++ getExtension p.
Proof.
  destruct (removeExtension_shape p) as (d & u & v & v' & _ & _ & H & _).
  by exists u.
Qed.

(** Changing the extension to one that starts with [.], has no [/] and does
    not end with white space: the new extension is found again. *)
Lemma getExtension_changeExtension p x :
  "/"%char ∉ x → spaceWidthRev (reverse ("."%char :: x)) = 0 →
  TrimSpace (changeExtension p ("."%char :: x)) = changeExtension p ("."%char :: x)
  ∧ getExtension (changeExtension p ("."%char :: x)) = "."%char :: x.
Proof.
  intros Hx Hr.
  destruct (removeExtension_shape p)
    as (d & u & v & v' & Ht & Hrm & _ & Hfin & Hdot & Hsp & Hsp').
  unfold changeExtension, addExtension. rewrite Hrm.
  assert (Hdotsp : isSpace1 (N_of_ascii ".") = false) by done.
  assert (Hdotlo : (N_of_ascii "." < 128)%N) by done.
  assert (Htrail : ∀ y, spaceWidthRev (reverse (y ++ "."%char :: x)) = 0).
  { intros y. rewrite reverse_app, reverse_cons.
    rewrite <- app_assoc. simpl.
    rewrite reverse_cons in Hr.
    by apply (spaceWidthRev_cut _ ["."%char]). }
  assert (Hq : TrimSpace ((d ++ u) ++ "."%char :: x) = (d ++ u) ++ "."%char :: x).
  { apply TrimSpace_id; [|apply Htrail].
    by apply (spaceWidth_cut _ v'). }
  split; [done|].
  rewrite getExtension_eq. cbv zeta. rewrite Hq.
  rewrite <- app_assoc, Hfin.
  2:{ rewrite not_elem_of_cons. done. }
  rewrite TrimSpace_id; [|by apply (spaceWidth_cut _ v)|apply Htrail].
  rewrite beforeFirst_app by done. apply TrimPrefix_app.
Qed.

Lemma removeExtension_changeExtension p x :
  "/"%char ∉ x → spaceWidthRev (reverse ("."%char :: x)) = 0 →
  removeExtension (changeExtension p ("."%char :: x)) = removeExtension p.
Proof.
  intros Hx Hr.
  destruct (getExtension_changeExtension p x Hx Hr) as [Hq He].
  unfold removeExtension at 1. rewrite Hq, He.
  unfold changeExtension, addExtension. apply TrimSuffix_app.
Qed.

Lemma finalSegment_no_trail p :
  spaceWidthRev (reverse (finalSegment (TrimSpace p))) = 0.
Proof.
  destruct (afterLast_suffix "/" (TrimSpace p)) as [d Hd].
  pose proof (TrimSpace_no_trail p) as H.
  rewrite Hd, reverse_app in H. by apply spaceWidthRev_prefix in H.
Qed.

Lemma getExtension_no_slash p : "/"%char ∉ getExtension p.
Proof.
  destruct (getExtension_suffix p) as [u Hu].
  pose proof (afterLast_no_sep "/" (TrimSpace p)) as H.
  fold (finalSegment (TrimSpace p)) in H. rewrite Hu in H.
  rewrite not_elem_of_app in H. tauto.
Qed.

Example getExtension_tar_gz :
  getExtension (str "a/b/c.tar.gz") = str ".tar.gz".
Proof. reflexivity. Qed.

Example getExtension_noext : getExtension (str "a/b/noext") = [].
Proof. reflexivity. Qed.

Example getExtension_dir_dot : getExtension (str "a.b/c") = [].
Proof. reflexivity. Qed.

(** A final segment that starts with white space is returned whole: the
    stem is computed on the trimmed segment and cut from the untrimmed one. *)
Example getExtension_leading_space :
  getExtension (str "a/ b") = str " b"
  ∧ getExtension (str "a/ b.c") = str " b.c".
Proof. split; reflexivity. Qed.

(** C1, as stated, fails: on ["a/b/c.tar.gz"] the program returns
    [".tar.gz"], the part from the first dot of the final segment, where the
    claim (from the last dot) gives [".gz"]. *)
Lemma C1_counterexample :
  extensionOf_spec (str "a/b/c.tar.gz") = str ".gz"
  ∧ getExtension (str "a/b/c.tar.gz") = str ".tar.gz"
  ∧ getExtension (str "a/b/c.tar.gz") ≠ extensionOf_spec (str "a/b/c.tar.gz").
Proof. split; [reflexivity|]. split; [reflexivity|]. by vm_compute. Qed.

(** C1, amended: for every path whose final segment (of the path with
    leading and trailing white space removed) does not start with white
    space, [getExtension] returns the part of that segment from and including
    its FIRST [.], the empty string when the segment has no [.], and the
    result never holds a [/]: a dot in a directory component is not part of
    the extension. *)
Theorem C1_getExtension_first_dot (p : gostring) :
  spaceWidth (finalSegment (TrimSpace p)) = 0 →
  getExtension p = fromFirst "." (finalSegment (TrimSpace p))
  ∧ ("."%char ∉ finalSegment (TrimSpace p) → getExtension p = [])
  ∧ "/"%char ∉ getExtension p.
Proof.
  intros Hsp.
  assert (He : getExtension p = fromFirst "." (finalSegment (TrimSpace p))).
  { rewrite getExtension_eq. cbv zeta.
    rewrite (TrimSpace_id (finalSegment (TrimSpace p)))
      by (done || apply finalSegment_no_trail).
    rewrite <- (before_from_first "." (finalSegment (TrimSpace p))) at 1.
    apply TrimPrefix_app. }
  split; [done|]. split; [|apply getExtension_no_slash].
  intros Hn. rewrite He. by apply fromFirst_notin.
Qed.

Lemma C1_getExtension_first_dot_witness :
  getExtension (str "a/b/c.tar.gz")
  = fromFirst "." (finalSegment (TrimSpace (str "a/b/c.tar.gz")))
  ∧ ("."%char ∉ finalSegment (TrimSpace (str "a/b/c.tar.gz"))
     → getExtension (str "a/b/c.tar.gz") = [])
  ∧ "/"%char ∉ getExtension (str "a/b/c.tar.gz").
Proof. apply (C1_getExtension_first_dot (str "a/b/c.tar.gz")). reflexivity. Defined.

(** C7: for all paths [p], changing the extension to [".x"] and then to any
    extension [ext] (so to [".ext"]) gives [addExtension (removeExtension p) ext]:
    the intermediate extension leaves no trace. *)
Theorem C7_changeExtension_round_trip (p ext : gostring) :
  changeExtension (changeExtension p (str ".x")) ext
  = addExtension (removeExtension p) ext.
Proof.
  unfold changeExtension at 1. f_equal.
  change (str ".x") with ("."%char :: str "x").
  apply removeExtension_changeExtension; [|reflexivity].
  cbn. rewrite not_elem_of_cons. split; [done|apply not_elem_of_nil].
Qed.

(** ** The content renderer *)

Lemma bind_Ok {A B} (m : M A) (k : A → M B) w a w' :
  m w = (Ok a, w') → bind m k w = k a w'.
Proof. intros H. unfold bind. by rewrite H. Qed.

Lemma Convert_ok (markdownWriter : Markdown) sourceMd buf metaData w :
  markdownWriter sourceMd = inl (buf, metaData) →
  Markdown_Convert markdownWriter sourceMd w
  = (Ok ((buf, metaData), None), called w "Markdown.Convert" [sourceMd]).
Proof. intros H. unfold Markdown_Convert, sys. by rewrite H. Qed.

(** C3: for every content file whose front matter has [Draft] equal to the
    boolean [true], whatever its other fields, [generateHtmlFile] returns
    without an error, leaves the file system as it was (no file is written
    anywhere), and calls nothing but the converter. *)
Theorem C3_draft_writes_nothing templates (markdownWriter : Markdown)
    sourceMd outputFile buf metaData w :
  markdownWriter sourceMd = inl (buf, metaData) →
  index metaData "Draft" = VBool true →
  generateHtmlFile templates markdownWriter sourceMd outputFile w
  = (Ok tt, called w "Markdown.Convert" [sourceMd]).
Proof.
  intros Hconv Hdraft. unfold generateHtmlFile.
  rewrite (bind_Ok _ _ _ _ _ (Convert_ok _ _ _ _ w Hconv)).
  simpl. unfold bind at 1. simpl.
  by rewrite Hdraft.
Qed.

Lemma C3_draft_writes_nothing_witness :
  generateHtmlFile ∅ toyMarkdown (str "Draft") (str "public/d.html") siteWorld
  = (Ok tt, called siteWorld "Markdown.Convert" [str "Draft"]).
Proof.
  apply (C3_draft_writes_nothing ∅ toyMarkdown (str "Draft")
           (str "public/d.html") (str "Draft") {[ str "Draft" := VBool true ]});
    reflexivity.
Defined.

(** C9: the draft check comes before every type assertion and every file
    system call: a content file with [Draft] equal to [true] is skipped
    without an error even when [Title], [Summary] or [Template] is absent or
    not a string; the file system is left as it was and the only call made
    is the converter's. *)
Theorem C9_draft_skips_validation templates (markdownWriter : Markdown)
    sourceMd outputFile buf metaData w :
  markdownWriter sourceMd = inl (buf, metaData) →
  index metaData "Draft" = VBool true →
  ¬ validFields metaData →
  let r := generateHtmlFile templates markdownWriter sourceMd outputFile w in
  r.1 = Ok tt
  ∧ disk r.2 = disk w
  ∧ ∀ fn args, Call fn args ∈ calls r.2 →
      Call fn args ∈ calls w ∨ fn = "Markdown.Convert"%string.
Proof.
  intros Hconv Hdraft _ r.
  assert (Hr : r = (Ok tt, called w "Markdown.Convert" [sourceMd])).
  { subst r. unfold generateHtmlFile.
    rewrite (bind_Ok _ _ _ _ _ (Convert_ok _ _ _ _ w Hconv)).
    cbn [check]. rewrite (bind_Ok _ _ _ tt _ eq_refl).
    by rewrite Hdraft. }
  rewrite Hr. cbn.
  split; [done|]. split; [done|].
  intros fn args Hin. apply elem_of_app in Hin as [Hin|Hin]; [by left|].
  apply list_elem_of_singleton in Hin. right. congruence.
Qed.

Lemma C9_draft_skips_validation_witness :
  let r := generateHtmlFile ∅ toyMarkdown (str "Draft") (str "public/d.html")
             siteWorld in
  r.1 = Ok tt
  ∧ disk r.2 = disk siteWorld
  ∧ ∀ fn args, Call fn args ∈ calls r.2 →
      Call fn args ∈ calls siteWorld ∨ fn = "Markdown.Convert"%string.
Proof.
  apply (C9_draft_skips_validation ∅ toyMarkdown (str "Draft")
           (str "public/d.html") (str "Draft") {[ str "Draft" := VBool true ]});
    [reflexivity|reflexivity|].
  intros (t & s & n & Ht & _). vm_compute in Ht. discriminate Ht.
Defined.

(** ** Running the calls *)

Lemma sys_run {A : Type} (fn : string) (args : list gostring) (op : FS → A * FS) w :
  sys fn args op w = (Ok (op (disk w)).1, logged w (op (disk w)).2 fn args).
Proof. reflexivity. Qed.

Lemma bind_sys {A B : Type} (fn : string) (args : list gostring) (op : FS → A * FS) (k : A → M B) w :
  bind (sys fn args op) k w
  = k (op (disk w)).1 (logged w (op (disk w)).2 fn args).
Proof. reflexivity. Qed.

Lemma bind_ret {A B : Type} (a : A) (k : A → M B) w : bind (ret a) k w = k a w.
Proof. reflexivity. Qed.

Lemma bind_check_None {B : Type} (k : unit → M B) w : bind (check None) k w = k tt w.
Proof. reflexivity. Qed.

Lemma bind_check_Some {B : Type} e (k : unit → M B) w :
  bind (check (Some e)) k w = (Fatal (FatalError e), w).
Proof. reflexivity. Qed.

Lemma bind_assoc {A B C : Type} (m : M A) (k : A → M B) (h : B → M C) w :
  bind (bind m k) h w = bind m (λ a, bind (k a) h) w.
Proof. unfold bind. destruct (m w) as [[a|f|p|] w']; reflexivity. Qed.

Lemma createDirectoryPath_run path w :
  createDirectoryPath path w
  = let r := mkdirAll [] (components (filepath_Dir path)) (disk w) in
    let w' := logged w r.2 "os.MkdirAll" [filepath_Dir path] in
    match r.1 with
    | None => (Ok tt, w')
    | Some no => (Fatal (FatalError (PathError "mkdir" (filepath_Dir path) no)), w')
    end.
Proof.
  unfold createDirectoryPath, os_MkdirAll. rewrite bind_sys. cbn [fst snd].
  destruct (mkdirAll _ _ _) as [[no|] d']; reflexivity.
Qed.

Lemma mkdirAll_fileAt pre rest d q :
  fileAt (mkdirAll pre rest d).2 q = fileAt d q.
Proof.
  revert pre d. induction rest as [|n rest IH]; intros pre d; [done|].
  simpl. destruct (d !! (pre ++ [n])) as [[c|b]|] eqn:Hk; [done|apply IH|].
  rewrite IH. unfold fileAt.
  destruct (decide (pre ++ [n] = q)) as [<-|Hne].
  - by rewrite lookup_insert_eq, Hk.
  - by rewrite lookup_insert_ne.
Qed.

Lemma create_fileAt k d d' :
  create k d = (None, d') →
  fileAt d' k = Some [] ∧ ∀ q, q ≠ k → fileAt d' q = fileAt d q.
Proof.
  unfold create. destruct k as [|a k]; [done|].
  destruct (stat d _) as [[c|b]|]; try done.
  destruct (d !! (a :: k)) as [[c|b']|] eqn:Hk; try done;
    intros [= <-]; unfold fileAt;
    (split; [by rewrite lookup_insert_eq|]);
    intros q Hq; by rewrite lookup_insert_ne.
Qed.

Lemma create_err_disk k d no d' : create k d = (Some no, d') → d' = d.
Proof.
  unfold create. destruct k as [|a k]; [congruence|].
  destruct (stat d _) as [[c|b]|]; try congruence.
  destruct (d !! (a :: k)) as [[c|b']|]; congruence.
Qed.

Lemma append_fileAt k data d d' :
  append k data d = (None, d') →
  (∃ c, fileAt d k = Some c ∧ fileAt d' k = Some (c ++ data))
  ∧ ∀ q, q ≠ k → fileAt d' q = fileAt d q.
Proof.
  unfold append, fileAt. destruct (d !! k) as [[c|b]|] eqn:Hk; try done.
  intros [= <-]. split.
  - exists c. by rewrite lookup_insert_eq.
  - intros q Hq. by rewrite lookup_insert_ne.
Qed.

Lemma append_err_disk k data d no d' : append k data d = (Some no, d') → d' = d.
Proof.
  unfold append. destruct (d !! k) as [[c|b]|]; congruence.
Qed.

Lemma assertString_fail {B : Type} v (k : gostring → M B) w :
  (∀ s, v ≠ VString s) →
  bind (assertString v) k w = (Panic (InterfaceConversion v TString), w).
Proof. intros H. destruct v; try reflexivity. by destruct (H s). Qed.

Lemma assertMap_fail {B : Type} v (k : list (value * value) → M B) w :
  (∀ m, v ≠ VMap m) →
  bind (assertMap v) k w = (Panic (InterfaceConversion v TMap), w).
Proof. intros H. destruct v; try reflexivity. by destruct (H m). Qed.

Lemma isString_dec v : (∃ s, v = VString s) ∨ (∀ s, v ≠ VString s).
Proof. destruct v; eauto. Qed.

Lemma isMap_dec v : (∃ m, v = VMap m) ∨ (∀ m, v ≠ VMap m).
Proof. destruct v; eauto. Qed.

(** C2, as stated, fails: a page without [Template] ends the build with a
    type error, but the output file has been created by then and is left,
    empty, in the output tree. *)
Lemma C2_counterexample :
  let r := generateHtmlFile ∅ toyMarkdown (str "T") (str "public/t.html")
             siteWorld in
  ¬ validFields {[ str "Title" := VString (str "t");
                   str "Summary" := VString (str "s") ]}
  ∧ r.1 = Panic (InterfaceConversion VNil TString)
  ∧ fileAt (disk siteWorld) (components (str "public/t.html")) = None
  ∧ fileAt (disk r.2) (components (str "public/t.html")) = Some [].
Proof.
  split.
  - intros (t & s & n & _ & _ & Hn). vm_compute in Hn. discriminate Hn.
  - vm_compute. done.
Qed.

(** C2, amended: rendering a content file that is not a draft and whose
    front matter lacks [Title], [Summary] or [Template], or has one of them
    with a type other than string, ends the build with a type error (the
    panic of a failed type assertion), after the parent directories and the
    output file have been created: the output file is left empty.  A draft
    writes no file; a successful rendering writes exactly one file, the
    output file. *)
Theorem C2_validation_after_create templates (markdownWriter : Markdown)
    sourceMd outputFile buf metaData w :
  markdownWriter sourceMd = inl (buf, metaData) →
  let k := components outputFile in
  let r := generateHtmlFile templates markdownWriter sourceMd outputFile w in
  (isTrue (index metaData "Draft") = true → r.1 = Ok tt ∧ disk r.2 = disk w)
  ∧ (isTrue (index metaData "Draft") = false → ¬ validFields metaData →
     ∀ d1 d2,
       mkdirAll [] (components (filepath_Dir outputFile)) (disk w) = (None, d1) →
       create k d1 = (None, d2) →
       (∃ v ty, r.1 = Panic (InterfaceConversion v ty))
       ∧ disk r.2 = d2 ∧ fileAt (disk r.2) k = Some [])
  ∧ (isTrue (index metaData "Draft") = false → r.1 = Ok tt →
     (∃ out, fileAt (disk r.2) k = Some out)
     ∧ ∀ q, q ≠ k → fileAt (disk r.2) q = fileAt (disk w) q).
Proof.
  intros Hconv k r.
  assert (Hr : r = bind (check None) (λ _,
      if isTrue (index metaData "Draft") then ret tt
      else
        let* _ := createDirectoryPath outputFile in
        let* (file, err) := os_Create outputFile in
        let* _ := check err in
        let params := index metaData "Params" in
        let params := if isNil params then VMap [] else params in
        let* title := assertString (index metaData "Title") in
        let* summary := assertString (index metaData "Summary") in
        let* pageParams := assertMap params in
        let data := {| Title := title; Summary := summary; Body := buf;
                       PageParams := pageParams |} in
        let* template := assertString (index metaData "Template") in
        let pageTemplateFile := addExtension template (str ".html") in
        match templates !! pageTemplateFile with
        | None => exit (FatalNoTemplate pageTemplateFile)
        | Some pageTemplate =>
            let* err :=
              Template_ExecuteTemplate pageTemplate file pageTemplateFile data in
            check err
        end) (called w "Markdown.Convert" [sourceMd])).
  { subst r. unfold generateHtmlFile.
    rewrite (bind_Ok _ _ _ _ _ (Convert_ok _ _ _ _ w Hconv)). reflexivity. }
  rewrite bind_check_None in Hr. clearbody r.
  split; [|split].
  - intros Hd. rewrite Hd in Hr. by rewrite Hr.
  - intros Hd Hinv d1 d2 Hmk Hcr. rewrite Hd in Hr.
    unfold bind at 1 in Hr. rewrite createDirectoryPath_run in Hr.
    cbn [disk called] in Hr. rewrite Hmk in Hr. cbn [fst snd] in Hr.
    unfold os_Create in Hr. rewrite bind_sys in Hr.
    cbn [disk logged fst snd] in Hr. fold k in Hr. rewrite Hcr in Hr.
    cbn [pathError fst snd] in Hr. rewrite bind_check_None in Hr.
    assert (Hk : fileAt d2 k = Some []) by (by apply create_fileAt in Hcr as [? _]).
    destruct (isString_dec (index metaData "Title")) as [[t Ht]|Ht];
      [rewrite Ht in Hr|rewrite (assertString_fail _ _ _ Ht) in Hr; rewrite Hr; cbn; eauto].
    unfold bind at 1 in Hr. cbn [assertString ret] in Hr.
    destruct (isString_dec (index metaData "Summary")) as [[s Hs]|Hs];
      [rewrite Hs in Hr|rewrite (assertString_fail _ _ _ Hs) in Hr; rewrite Hr; cbn; eauto].
    unfold bind at 1 in Hr. cbn [assertString ret] in Hr.
    match type of Hr with context [assertMap ?p] =>
      destruct (isMap_dec p) as [[m Hm]|Hm];
      [rewrite Hm in Hr|rewrite (assertMap_fail _ _ _ Hm) in Hr; rewrite Hr; cbn; eauto]
    end.
    unfold bind at 1 in Hr. cbn [assertMap ret] in Hr.
    destruct (isString_dec (index metaData "Template")) as [[n Hn]|Hn];
      [|rewrite (assertString_fail _ _ _ Hn) in Hr; rewrite Hr; cbn; eauto].
    destruct Hinv. by exists t, s, n.
  - intros Hd Hok. rewrite Hd in Hr.
    unfold bind at 1 in Hr. rewrite createDirectoryPath_run in Hr.
    cbn [disk called] in Hr.
    pose proof (mkdirAll_fileAt [] (components (filepath_Dir outputFile)) (disk w)) as Hmk.
    destruct (mkdirAll _ _ _) as [[no|] d1]; cbn [fst snd] in Hr, Hmk;
      [by rewrite Hr in Hok|].
    unfold os_Create in Hr. rewrite bind_sys in Hr.
    cbn [disk logged fst snd] in Hr. fold k in Hr.
    destruct (create k d1) as [[no|] d2] eqn:Hcr; cbn [pathError fst snd] in Hr;
      [rewrite bind_check_Some in Hr; by rewrite Hr in Hok|].
    rewrite bind_check_None in Hr.
    apply create_fileAt in Hcr as [Hk Hq].
    destruct (index metaData "Title") as [| | t | | |];
      try (rewrite Hr in Hok; discriminate Hok).
    unfold bind at 1 in Hr. cbn [assertString ret] in Hr.
    destruct (index metaData "Summary") as [| | s | | |];
      try (rewrite Hr in Hok; discriminate Hok).
    unfold bind at 1 in Hr. cbn [assertString ret] in Hr.
    match type of Hr with context [assertMap ?p] =>
      destruct p as [| | | | |m]; try (rewrite Hr in Hok; discriminate Hok)
    end.
    unfold bind at 1 in Hr. cbn [assertMap ret] in Hr.
    destruct (index metaData "Template") as [| | n | | |];
      try (rewrite Hr in Hok; discriminate Hok).
    unfold bind at 1 in Hr. cbn [assertString ret] in Hr.
    destruct (templates !! _) as [pageTemplate|];
      [|rewrite Hr in Hok; discriminate Hok].
    unfold Template_ExecuteTemplate in Hr. rewrite bind_sys in Hr.
    cbn [disk logged fst snd] in Hr. fold k in Hr.
    destruct (append k _ d2) as [[no|] d3] eqn:Hap; cbn [fst snd] in Hr;
      [rewrite Hr in Hok; discriminate Hok|].
    apply append_fileAt in Hap as [(c & Hc & Hc') Hq'].
    rewrite Hr. split.
    + destruct (Execute _ _ _).2; cbn; eauto.
    + intros q Hne. destruct (Execute _ _ _).2; cbn;
        by rewrite Hq', Hq, Hmk.
Qed.

Lemma C2_validation_after_create_witness :
  let k := components (str "public/t.html") in
  let r := generateHtmlFile ∅ toyMarkdown (str "T") (str "public/t.html")
             siteWorld in
  (∃ v ty, r.1 = Panic (InterfaceConversion v ty))
  ∧ disk r.2 = <[k := File []]> (disk siteWorld)
  ∧ fileAt (disk r.2) k = Some [].
Proof.
  intros k r.
  refine (proj1 (proj2 (C2_validation_after_create ∅ toyMarkdown (str "T")
            (str "public/t.html") (str "T")
            {[ str "Title" := VString (str "t");
               str "Summary" := VString (str "s") ]} siteWorld eq_refl))
            eq_refl _ (disk siteWorld) _ eq_refl eq_refl).
  intros (t & s & n & _ & _ & Hn). vm_compute in Hn. discriminate Hn.
Defined.

(** ** Paths and directory listings *)

Lemma components_valid path : Forall (λ c : gostring, c ≠ [] ∧ c ≠ str ".") (components path).
Proof.
  unfold components. apply Forall_forall. intros c Hc.
  by apply list_elem_of_filter in Hc as [Hc _].
Qed.

Lemma components_app_name dir n :
  validName n → components (dir ++ str "/" ++ n) = components dir ++ [n].
Proof.
  intros (Hne & Hdot & _ & Hsl). unfold components.
  change (str "/" ++ n) with ("/"%char :: n).
  rewrite Split_app, (Split_notin n) by done.
  rewrite filter_app. f_equal.
  rewrite filter_cons_True by done. done.
Qed.

Lemma components_pathBelow root rel :
  Forall validName rel →
  components (pathBelow root rel) = components root ++ rel.
Proof.
  unfold pathBelow. revert root.
  induction rel as [|n rel IH]; intros root Hrel; cbn [foldl].
  - by rewrite app_nil_r.
  - apply Forall_cons in Hrel as [Hn Hrel].
    rewrite IH by done. rewrite components_app_name by done.
    by rewrite <- app_assoc.
Qed.

Lemma childName_Some k q n : childName k q = Some n ↔ q = k ++ [n].
Proof.
  revert q. induction k as [|a k IH]; intros q; simpl.
  - destruct q as [|b [|c q]]; split; intros H; try done; congruence.
  - destruct q as [|b q]; [split; intros H; done|].
    destruct (decide (a = b)) as [->|Hab].
    + rewrite IH. split; intros H; congruence.
    + split; intros H; [done|congruence].
Qed.

Lemma children_spec d k e :
  e ∈ children d k
  ↔ ∃ nd, d !! (k ++ [Name e]) = Some nd ∧ IsDir e = isDirNode nd.
Proof.
  unfold children. rewrite list_elem_of_omap. split.
  - intros ([q nd] & Hin & Hf). apply elem_of_map_to_list in Hin.
    simpl in Hf. destruct (childName k q) as [n|] eqn:Hc; [|done].
    apply childName_Some in Hc as ->. injection Hf as <-. by exists nd.
  - intros (nd & Hl & Hd). exists (k ++ [Name e], nd). split.
    + by apply elem_of_map_to_list.
    + simpl. rewrite (proj2 (childName_Some k _ (Name e)) eq_refl).
      destruct e as [n b]. simpl in *. by rewrite Hd.
Qed.

Lemma NoDup_omap_fst {A B C : Type} (f : A * B → option C) (l : list (A * B)) :
  NoDup l.*1 →
  (∀ x x' y, f x = Some y → f x' = Some y → x.1 = x'.1) →
  NoDup (omap f l).
Proof.
  intros Hnd Hinj. induction l as [|x l IH]; simpl; [constructor|].
  simpl in Hnd. apply NoDup_cons in Hnd as [Hx Hnd].
  destruct (f x) as [y|] eqn:Hy; [|by apply IH].
  constructor; [|by apply IH].
  rewrite list_elem_of_omap. intros (x' & Hin & Hy').
  apply Hx. rewrite (Hinj _ _ _ Hy Hy').
  apply list_elem_of_fmap. by exists x'.
Qed.

Lemma children_NoDup d k : NoDup (Name <$> children d k).
Proof.
  unfold children. rewrite list_fmap_omap.
  apply NoDup_omap_fst; [apply NoDup_fst_map_to_list|].
  intros [q nd] [q' nd'] n. simpl.
  destruct (childName k q) as [m|] eqn:Hq; [|done].
  destruct (childName k q') as [m'|] eqn:Hq'; [|done].
  simpl. intros [= <-] [= <-].
  apply childName_Some in Hq, Hq'. congruence.
Qed.

Lemma readDir_spec k d e :
  e ∈ (readDir k d).1
  ↔ stat d k = Some (Dir true)
    ∧ ∃ nd, d !! (k ++ [Name e]) = Some nd ∧ IsDir e = isDirNode nd.
Proof.
  unfold readDir. destruct (stat d k) as [[c|[|]]|]; simpl.
  - rewrite elem_of_nil. split; [done|]. by intros [? _].
  - rewrite merge_sort_Permutation, children_spec. split; [by split|by intros [_ ?]].
  - rewrite elem_of_nil. split; [done|]. by intros [? _].
  - rewrite elem_of_nil. split; [done|]. by intros [? _].
Qed.

Lemma readDir_NoDup k d : NoDup (Name <$> (readDir k d).1).
Proof.
  unfold readDir. destruct (stat d k) as [[c|[|]]|]; simpl;
    try apply NoDup_nil_2.
  rewrite merge_sort_Permutation. apply children_NoDup.
Qed.

Lemma height_le d q nd : d !! q = Some nd → length q ≤ height d.
Proof.
  intros H. apply elem_of_map_to_list in H. unfold height.
  induction (map_to_list d) as [|x l IH]; [by apply elem_of_nil in H|].
  rewrite fmap_cons. cbn [foldr].
  apply elem_of_cons in H as [<-|H]; simpl; [lia|].
  specialize (IH H). lia.
Qed.

(** ** The tree walker on a file system that the callback leaves alone *)

Lemma visited_app T1 T2 : visited (T1 ++ T2) = visited T1 ++ visited T2.
Proof. unfold visited. apply omap_app. Qed.

Lemma forEach_visit_items (step : DirEntry → M unit) (out : DirEntry → list gostring)
    (items : list DirEntry) (w : World) :
  (∀ item w1, item ∈ items → disk w1 = disk w →
     ∃ T, step item w1 = (Ok tt, {| disk := disk w; calls := calls w1 ++ T |})
          ∧ visited T = out item) →
  ∃ T, forEach items step w = (Ok tt, {| disk := disk w; calls := calls w ++ T |})
       ∧ visited T = mjoin (out <$> items).
Proof.
  revert w. induction items as [|item items IH]; intros w Hstep.
  - exists []. simpl. rewrite app_nil_r. by destruct w.
  - destruct (Hstep item w) as (T1 & Hrun & Hv); [left|done|].
    set (w1 := {| disk := disk w; calls := calls w ++ T1 |}) in *.
    destruct (IH w1) as (T2 & Hrun2 & Hv2).
    { intros it w2 Hin Hd. apply Hstep; [by right|done]. }
    exists (T1 ++ T2). split.
    + cbn [forEach]. rewrite (bind_Ok _ _ _ _ _ Hrun). rewrite Hrun2.
      simpl. by rewrite app_assoc.
    + rewrite visited_app, Hv, Hv2. done.
Qed.

Lemma fmap_mjoin {A B : Type} (f : A → B) (ls : list (list A)) :
  f <$> mjoin ls = mjoin (fmap f <$> ls).
Proof.
  induction ls as [|l ls IH]; [done|].
  change (mjoin (l :: ls)) with (l ++ mjoin ls).
  rewrite fmap_app, IH. done.
Qed.

Lemma pathBelow_cons dir n rel :
  pathBelow dir (n :: rel) = pathBelow (dir ++ str "/" ++ n) rel.
Proof. reflexivity. Qed.

Lemma walk_visit fuel :
  ∀ dir w,
    namesOk (disk w) →
    height (disk w) ≤ fuel + length (components dir) →
    ∃ T, walk (S fuel) dir visit w
         = (Ok tt, {| disk := disk w; calls := calls w ++ T |})
         ∧ visited T
           = pathBelow dir <$> listFiles (S fuel) (disk w) (components dir).
Proof.
  induction fuel as [fuel IH] using lt_wf_ind. intros dir w Hok Hh.
  cbn [walk listFiles]. unfold os_ReadDir. rewrite bind_sys.
  cbn [fst snd logged].
  set (d := disk w) in *. set (k := components dir) in *.
  set (w0 := logged w d "os.ReadDir" [dir]).
  destruct (forEach_visit_items
      (λ item, if negb (IsDir item) then visit (dir ++ str "/" ++ Name item)
               else walk fuel (dir ++ str "/" ++ Name item) visit)
      (λ item, pathBelow dir <$>
                 (if negb (IsDir item) then [[Name item]]
                  else (Name item ::.) <$> listFiles fuel d (k ++ [Name item])))
      (readDir k d).1 w0) as (T & Hrun & Hv).
  { intros item w1 Hin Hd1. cbn [disk w0 logged] in *.
    apply readDir_spec in Hin as (Hdir & nd & Hnd & Hkind).
    assert (Hname : validName (Name item)).
    { specialize (Hok _ _ Hnd). apply Forall_app in Hok as [_ Hn].
      by inversion Hn. }
    assert (Hcomp : components (dir ++ str "/" ++ Name item) = k ++ [Name item])
      by (by apply components_app_name).
    destruct (IsDir item) eqn:Hisdir; cbn [negb].
    - pose proof (height_le _ _ _ Hnd) as Hlen. rewrite length_app in Hlen.
      cbn [length] in Hlen.
      destruct fuel as [|m]; [lia|].
      destruct (IH m (Nat.lt_succ_diag_r m) (dir ++ str "/" ++ Name item) w1)
        as (T & Hrun & Hv).
      + by rewrite Hd1.
      + rewrite Hd1, Hcomp, length_app. cbn [length]. lia.
      + exists T. rewrite Hrun, Hd1. split; [done|].
        rewrite Hv, Hd1, Hcomp. rewrite <- list_fmap_compose.
        apply list_fmap_ext. intros ? rel _. done.
    - exists [Call "visit" [dir ++ str "/" ++ Name item]]. split.
      + unfold visit. rewrite sys_run. cbn [fst snd logged]. by rewrite Hd1.
      + done. }
  exists (Call "os.ReadDir" [dir] :: T). split.
  - rewrite Hrun. cbn [disk calls w0 logged]. by rewrite <- app_assoc.
  - change (Call "os.ReadDir" [dir] :: T) with ([Call "os.ReadDir" [dir]] ++ T).
    rewrite visited_app, Hv. cbn [visited omap app].
    rewrite fmap_mjoin, <- list_fmap_compose. done.
Qed.

Lemma reachableFile_cons d k n rel :
  reachableFile d k (n :: rel)
  ↔ stat d k = Some (Dir true)
    ∧ match rel with
      | [] => ∃ c, d !! (k ++ [n]) = Some (File c)
      | _ => (∃ b, d !! (k ++ [n]) = Some (Dir b))
             ∧ reachableFile d (k ++ [n]) rel
      end.
Proof. destruct rel; reflexivity. Qed.

Lemma NoDup_mjoin_heads {A B : Type} (key : A → B) (F : A → list (list B))
    (items : list A) :
  NoDup (key <$> items) →
  (∀ item, item ∈ items →
     NoDup (F item) ∧ ∀ rel, rel ∈ F item → head rel = Some (key item)) →
  NoDup (mjoin (F <$> items)).
Proof.
  induction items as [|item items IH]; intros Hnd HF; [constructor|].
  rewrite fmap_cons in Hnd. apply NoDup_cons in Hnd as [Hnotin Hnd].
  rewrite fmap_cons. change (NoDup (F item ++ mjoin (F <$> items))).
  apply NoDup_app. split; [|split].
  - apply HF. by left.
  - intros rel Hin Hin'. apply list_elem_of_join in Hin' as (l & Hrel & Hl).
    apply list_elem_of_fmap in Hl as (item' & -> & Hitem').
    apply Hnotin. apply list_elem_of_fmap. exists item'. split; [|done].
    destruct (HF item) as [_ H1]; [by left|].
    destruct (HF item') as [_ H2]; [by right|].
    specialize (H1 _ Hin). specialize (H2 _ Hrel). congruence.
  - apply IH; [done|]. intros it Hit. apply HF. by right.
Qed.

Lemma listFiles_spec fuel :
  ∀ d k,
    height d ≤ fuel + length k →
    (∀ rel, rel ∈ listFiles (S fuel) d k ↔ reachableFile d k rel)
    ∧ NoDup (listFiles (S fuel) d k).
Proof.
  induction fuel as [fuel IH] using lt_wf_ind. intros d k Hh.
  assert (Hsub : ∀ item, item ∈ (readDir k d).1 → IsDir item = true →
            ∃ m, fuel = S m ∧ height d ≤ m + length (k ++ [Name item])).
  { intros item Hin Hdir.
    apply readDir_spec in Hin as (_ & nd & Hnd & _).
    apply height_le in Hnd. rewrite length_app in *. cbn [length] in *.
    destruct fuel as [|m]; [lia|]. exists m. split; [done|lia]. }
  split.
  - intros rel. cbn [listFiles]. rewrite list_elem_of_join. split.
    + intros (l & Hrel & Hl).
      apply list_elem_of_fmap in Hl as (item & -> & Hitem).
      pose proof (Hsub item Hitem) as Hs.
      apply readDir_spec in Hitem as (Hstat & nd & Hnd & Hkind).
      destruct (IsDir item) eqn:Hd; cbn [negb] in Hrel.
      * destruct Hs as (m & -> & Hm); [done|].
        apply list_elem_of_fmap in Hrel as (rel' & -> & Hrel').
        apply (IH m) in Hrel'; [|lia|done].
        apply reachableFile_cons. split; [done|].
        destruct rel' as [|n' rel']; [done|].
        split; [|done]. destruct nd as [c|b]; [done|]. by exists b.
      * apply list_elem_of_singleton in Hrel as ->.
        split; [done|]. destruct nd as [c|b]; [|done]. by exists c.
    + destruct rel as [|n rel]; [done|].
      rewrite reachableFile_cons. intros [Hstat Hrel].
      destruct rel as [|n' rel].
      * destruct Hrel as [c Hc].
        exists [[n]]. split; [by left|].
        apply list_elem_of_fmap. exists {| Name := n; IsDir := false |}.
        split; [done|]. apply readDir_spec. split; [done|].
        exists (File c). done.
      * destruct Hrel as [[b Hb] Hrel].
        assert (Hitem : {| Name := n; IsDir := true |} ∈ (readDir k d).1).
        { apply readDir_spec. split; [done|]. by exists (Dir b). }
        destruct (Hsub _ Hitem eq_refl) as (m & -> & Hm). cbn [Name] in Hm.
        exists ((n ::.) <$> listFiles (S m) d (k ++ [n])). split.
        -- apply list_elem_of_fmap. exists (n' :: rel). split; [done|].
           apply (IH m); [lia|done|done].
        -- apply list_elem_of_fmap. by exists {| Name := n; IsDir := true |}.
  - cbn [listFiles]. apply (NoDup_mjoin_heads Name); [apply readDir_NoDup|].
    intros item Hitem. pose proof (Hsub item Hitem) as Hs.
    destruct (IsDir item) eqn:Hd; cbn [negb].
    + destruct Hs as (m & -> & Hm); [done|]. split.
      * apply NoDup_fmap; [by intros ?? [= ->]|]. apply (IH m); [lia|done].
      * intros rel Hrel. by apply list_elem_of_fmap in Hrel as (rel' & -> & _).
    + split; [apply NoDup_singleton|].
      intros rel Hrel. by apply list_elem_of_singleton in Hrel as ->.
Qed.

Lemma reachableFile_file d k rel :
  reachableFile d k rel → ∃ c, d !! (k ++ rel) = Some (File c).
Proof.
  revert k. induction rel as [|n rel IH]; intros k; [done|].
  rewrite reachableFile_cons. intros [_ H]. destruct rel as [|n' rel]; [done|].
  destruct H as [_ H]. apply IH in H. by rewrite <- app_assoc in H.
Qed.

Lemma reachableFile_listable d k pre rel :
  rel ≠ [] → reachableFile d k (pre ++ rel) → stat d (k ++ pre) = Some (Dir true).
Proof.
  intros Hrel. revert k. induction pre as [|n pre IH]; intros k.
  - rewrite app_nil_r. destruct rel as [|n rel]; [done|].
    rewrite app_nil_l, reachableFile_cons. by intros [? _].
  - rewrite <- app_comm_cons, reachableFile_cons. intros [_ H].
    assert (H' : reachableFile d (k ++ [n]) (pre ++ rel)).
    { destruct (pre ++ rel) as [|n' l] eqn:Hl; [|by destruct H].
      apply app_eq_nil in Hl as [_ ->]. done. }
    apply IH in H'. by rewrite <- app_assoc in H'.
Qed.

Lemma namesOk_decide d :
  bool_decide (map_Forall (λ k _, Forall validName k) d) = true → namesOk d.
Proof.
  intros H. apply bool_decide_eq_true_1 in H. intros k nd Hk. by apply (H k nd).
Qed.

Lemma namesOk_siteWorld : namesOk (disk siteWorld).
Proof. apply namesOk_decide. vm_compute. reflexivity. Qed.

(** C8: on a file system whose names are well formed, with fuel beyond the
    depth of the tree, [walk rootDir visit] never fails, leaves the file
    system alone, and calls [visit] exactly once for every regular file that
    can be reached from [rootDir] through directories that can be listed:
    the calls are [pathBelow rootDir] of a duplicate-free list [files] of
    exactly those files.  No call is on a directory, and nothing below a
    directory that cannot be read is visited. *)
Theorem C8_walk_visits_each_file_once (rootDir : gostring) (w : World) (fuel : nat) :
  namesOk (disk w) →
  height (disk w) < fuel →
  ∃ files T,
    walk fuel rootDir visit w
    = (Ok tt, {| disk := disk w; calls := calls w ++ T |})
    ∧ visited T = pathBelow rootDir <$> files
    ∧ NoDup files
    ∧ (∀ rel, rel ∈ files ↔ reachableFile (disk w) (components rootDir) rel)
    ∧ (∀ rel, rel ∈ files →
         ∃ c, disk w !! (components rootDir ++ rel) = Some (File c))
    ∧ (∀ pre rel, rel ≠ [] →
         stat (disk w) (components rootDir ++ pre) ≠ Some (Dir true) →
         pre ++ rel ∉ files).
Proof.
  intros Hok Hh. destruct fuel as [|fuel]; [lia|].
  destruct (walk_visit fuel rootDir w Hok) as (T & Hrun & Hv); [lia|].
  destruct (listFiles_spec fuel (disk w) (components rootDir)) as [Hin Hnd]; [lia|].
  exists (listFiles (S fuel) (disk w) (components rootDir)), T.
  split; [done|]. split; [done|]. split; [done|]. split; [done|]. split.
  - intros rel Hrel. apply Hin in Hrel. by apply reachableFile_file.
  - intros pre rel Hne Hstat Hrel. apply Hin in Hrel.
    by apply reachableFile_listable in Hrel.
Qed.

Example walk_content_siteWorld :
  visited (calls (walk 5 (str "content") visit siteWorld).2)
  = [str "content/a.md"; str "content/d.md"; str "content/img/p.png"].
Proof. vm_compute. reflexivity. Qed.

Lemma C8_walk_visits_each_file_once_witness :
  ∃ files T,
    walk 5 (str "content") visit siteWorld
    = (Ok tt, {| disk := disk siteWorld; calls := calls siteWorld ++ T |})
    ∧ visited T = pathBelow (str "content") <$> files
    ∧ NoDup files
    ∧ (∀ rel, rel ∈ files
         ↔ reachableFile (disk siteWorld) (components (str "content")) rel)
    ∧ (∀ rel, rel ∈ files →
         ∃ c, disk siteWorld !! (components (str "content") ++ rel)
              = Some (File c))
    ∧ (∀ pre rel, rel ≠ [] →
         stat (disk siteWorld) (components (str "content") ++ pre)
         ≠ Some (Dir true) →
         pre ++ rel ∉ files).
Proof.
  apply (C8_walk_visits_each_file_once (str "content") siteWorld 5).
  - exact namesOk_siteWorld.
  - apply Nat.ltb_lt. vm_compute. reflexivity.
Defined.

(** ** The calls of a run *)

Lemma emits_ret {X : Type} A (x : X) : emits A (ret x).
Proof. intros w. exists []. by rewrite app_nil_r. Qed.

Lemma emits_exit {X : Type} A f : emits A (@exit X f).
Proof. intros w. exists []. by rewrite app_nil_r. Qed.

Lemma emits_panic {X : Type} A p : emits A (@panic X p).
Proof. intros w. exists []. by rewrite app_nil_r. Qed.

Lemma emits_outOfFuel {X : Type} A : emits A (@outOfFuel X).
Proof. intros w. exists []. by rewrite app_nil_r. Qed.

Lemma emits_check A err : emits A (check err).
Proof. destruct err; [apply emits_exit|apply emits_ret]. Qed.

Lemma emits_sys {X : Type} (A : Event → Prop) (fn : string)
    (args : list gostring) (op : FS → X * FS) :
  A (Call fn args) → emits A (sys fn args op).
Proof. intros HA w. exists [Call fn args]. split; [done|]. by constructor. Qed.

Lemma emits_bind {X Y : Type} A (m : M X) (k : X → M Y) :
  emits A m → (∀ x, emits A (k x)) → emits A (bind m k).
Proof.
  intros Hm Hk w. destruct (Hm w) as (T1 & H1 & HA1). unfold bind.
  destruct (m w) as [[x|f|p|] w1] eqn:Hmw; cbn [snd] in *;
    try (by exists T1).
  destruct (Hk x w1) as (T2 & H2 & HA2). exists (T1 ++ T2). split.
  - by rewrite H2, H1, app_assoc.
  - by apply Forall_app.
Qed.

Lemma emits_mono {X : Type} (A B : Event → Prop) (m : M X) :
  (∀ e, A e → B e) → emits A m → emits B m.
Proof.
  intros HAB Hm w. destruct (Hm w) as (T & H & HA). exists T. split; [done|].
  eapply Forall_impl; eauto.
Qed.

Lemma emits_forEach {X : Type} A (l : list X) (body : X → M unit) :
  (∀ x, x ∈ l → emits A (body x)) → emits A (forEach l body).
Proof.
  induction l as [|x l IH]; intros Hb; [apply emits_ret|].
  cbn [forEach]. apply emits_bind; [apply Hb; by left|].
  intros _. apply IH. intros y Hy. apply Hb. by right.
Qed.

(** The calls of [walk]: [os.ReadDir] on paths that start with the root,
    and the calls of the callback on paths that start with the root and a
    separator. *)
Lemma emits_walk A (root : gostring) (f : gostring → M unit) fuel :
  (∀ dir, root `prefix_of` dir → A (Call "os.ReadDir" [dir])) →
  (∀ p, root ++ str "/" `prefix_of` p → emits A (f p)) →
  emits A (walk fuel root f).
Proof.
  intros HR Hf.
  assert (H : ∀ dir, dir = root ∨ root ++ str "/" `prefix_of` dir →
            emits A (walk fuel dir f)); [|apply H; by left].
  induction fuel as [|fuel IH]; intros dir Hdir.
  - apply emits_outOfFuel.
  - assert (Hsub : ∀ n, root ++ str "/" `prefix_of` dir ++ str "/" ++ n).
    { intros n. destruct Hdir as [->|[rest ->]].
      - by apply prefix_app, prefix_app_r.
      - rewrite <- app_assoc. by apply prefix_app_r. }
    cbn [walk]. apply emits_bind.
    + apply emits_sys, HR. destruct Hdir as [->|[rest ->]]; [done|].
      rewrite <- app_assoc. by apply prefix_app_r.
    + intros r. apply emits_forEach. intros item _.
      destruct (negb (IsDir item)); [apply Hf|apply IH; right]; apply Hsub.
Qed.

Ltac in_fns := cbn; rewrite ?elem_of_cons; auto 12.

Ltac emits_steps :=
  repeat first
    [ apply emits_ret | apply emits_exit | apply emits_panic
    | apply emits_check | apply emits_outOfFuel
    | apply emits_bind; [|intros ?]
    | apply emits_sys
    | match goal with
      | |- emits _ (match ?x with _ => _ end) => destruct x
      | |- emits _ (if ?x then _ else _) => destruct x
      end ].

Lemma emits_createDirectoryPath (A : Event → Prop) path :
  (∀ args, A (Call "os.MkdirAll" args)) → emits A (createDirectoryPath path).
Proof. intros H. unfold createDirectoryPath, os_MkdirAll. emits_steps. apply H. Qed.

Lemma emits_copyFile (A : Event → Prop) src dst :
  A (Call "os.Open" [src]) →
  (∀ args, A (Call "os.Create" args)) →
  (∀ args, A (Call "io.Copy" args)) →
  emits A (copyFile src dst).
Proof.
  intros H1 H2 H3. unfold copyFile, os_Open, os_Create, io_Copy.
  emits_steps; auto.
Qed.

Lemma emits_generateHtmlFile templates markdownWriter sourceMd outputFile :
  emits (fnIn ["Markdown.Convert"; "os.MkdirAll"; "os.Create";
               "Template.ExecuteTemplate"; "io.Copy"]%string)
        (generateHtmlFile templates markdownWriter sourceMd outputFile).
Proof.
  unfold generateHtmlFile, Markdown_Convert.
  apply emits_bind; [apply emits_sys; in_fns|]. intros [[buf metaData] err].
  apply emits_bind; [apply emits_check|]. intros _.
  destruct (isTrue _); [apply emits_ret|].
  apply emits_bind; [apply emits_createDirectoryPath; intros; in_fns|]. intros _.
  unfold os_Create, assertString, assertMap, Template_ExecuteTemplate.
  emits_steps; in_fns.
Qed.

Lemma emits_parseLayouts E includes layouts templates :
  emits loadCall (parseLayouts E includes layouts templates).
Proof.
  revert templates. induction layouts as [|layout layouts IH]; intros templates.
  - apply emits_ret.
  - cbn [parseLayouts]. unfold template_ParseFiles, template_Must.
    apply emits_bind; [apply emits_sys; in_fns|]. intros parsed.
    apply emits_bind; [destruct parsed; [apply emits_ret|apply emits_panic]|].
    intros t. apply IH.
Qed.

Lemma emits_generateTemplates E directory :
  emits loadCall (generateTemplates E directory).
Proof.
  unfold generateTemplates, filepath_Glob.
  apply emits_bind; [apply emits_sys; in_fns|]. intros [layouts err].
  apply emits_bind; [apply emits_check|]. intros _.
  apply emits_bind; [apply emits_sys; in_fns|]. intros [includes err'].
  apply emits_bind; [apply emits_check|]. intros _.
  apply emits_parseLayouts.
Qed.

Lemma prefix_trim (a b p : gostring) : a ++ b `prefix_of` p → a `prefix_of` p.
Proof. intros [r ->]. rewrite <- app_assoc. by apply prefix_app_r. Qed.

Lemma emits_convertContentDirectory fuel templates markdownWriter :
  emits renderCall (convertContentDirectory fuel templates markdownWriter).
Proof.
  unfold convertContentDirectory. apply emits_walk.
  - intros dir Hdir. by left.
  - intros p Hp. change (str "content" ++ str "/") with (str "content/") in Hp.
    destruct (decide _).
    + unfold os_ReadFile.
      apply emits_bind; [apply emits_sys; right; by left|]. intros [fileData err].
      apply emits_bind; [apply emits_check|]. intros _.
      eapply emits_mono; [|apply emits_generateHtmlFile].
      intros ev Hev. by do 3 right.
    + apply emits_bind.
      * apply emits_createDirectoryPath. intros. do 3 right. in_fns.
      * intros _. apply emits_copyFile.
        -- do 2 right. by left.
        -- intros. do 3 right. in_fns.
        -- intros. do 3 right. in_fns.
Qed.

Lemma emits_copyStaticDirectory fuel (root : string) :
  emits (mirrorCall root) (copyStaticDirectory fuel (str root)).
Proof.
  unfold copyStaticDirectory. apply emits_walk.
  - intros dir Hdir. by left.
  - intros p Hp. apply prefix_trim in Hp. apply emits_bind.
    + apply emits_createDirectoryPath. intros. do 2 right. in_fns.
    + intros _. apply emits_copyFile.
      * right. by left.
      * intros. do 2 right. in_fns.
      * intros. do 2 right. in_fns.
Qed.

Lemma emits_transpileTypescript E fuel :
  emits transpileCall (transpileTypescript E fuel).
Proof.
  unfold transpileTypescript. apply emits_walk.
  - intros dir Hdir. by left.
  - intros p _. unfold transpileVisit. destruct (decide _); [apply emits_ret|].
    apply emits_bind.
    { apply emits_createDirectoryPath. intros. right. in_fns. }
    intros _. apply emits_bind.
    { unfold transpileTypescriptFile, os_ReadFile, typescript_TranspileString,
        os_Create, File_WriteString.
      emits_steps; right; in_fns. }
    intros _. unfold os_Remove. emits_steps. right. in_fns.
Qed.

(** ** The build orchestrator *)

Lemma bind_split {X Y : Type} (m : M X) (k : X → M Y) w
    (P : outcome Y * World → Prop) :
  (∀ x w1, m w = (Ok x, w1) → P (k x w1)) →
  (∀ r, stopped r.1 → r.2 = (m w).2 → P r) →
  P (bind m k w).
Proof.
  intros Hok Hstop. unfold bind.
  destruct (m w) as [[x|f|p|] w1] eqn:Hm; [by apply Hok|..];
    by apply Hstop.
Qed.

Lemma components_public : components (str "public") = [str "public"].
Proof. reflexivity. Qed.

Lemma main_call_order (E : Engines) (fuel : nat) (w : World) :
  let r := main E fuel w in
  stopped r.1 ∧ ∃ T, calls r.2 = calls w ++ T ∧ buildTrace T.
Proof.
  cbv zeta. unfold main.
  destruct (emits_generateTemplates E (str "theme/templates/") w)
    as (T1 & HT1 & HA1).
  apply bind_split.
  2:{ intros r Hr Hw. split; [done|]. exists T1. rewrite Hw. split; [done|].
      exists T1, []. rewrite app_nil_r. split; [done|]. split; [done|]. by left. }
  intros templates w1 Hgt. rewrite Hgt in HT1. cbn [snd] in HT1.
  unfold goldmark_New. rewrite bind_sys. cbn [fst snd].
  unfold os_RemoveAll. rewrite bind_sys. rewrite components_public.
  cbn [removeAll pathError fst snd]. rewrite bind_check_None.
  match goal with
  | |- context [bind (convertContentDirectory _ _ _) _ ?w'] => set (w3 := w')
  end.
  assert (H3 : calls w3 = calls w ++ T1 ++ [newConverter; removeOutput]).
  { subst w3. cbn [calls logged disk]. rewrite HT1, <- !app_assoc. done. }
  clearbody w3.
  assert (Hfin : ∀ T4 T5 T6 T7 R8 (r : outcome unit * World),
    stopped r.1 →
    calls r.2 = (calls w3 ++ T4 ++ T5 ++ T6 ++ T7) ++ R8 →
    Forall renderCall T4 → Forall (mirrorCall "theme/static") T5 →
    Forall (mirrorCall "static") T6 → Forall transpileCall T7 →
    R8 = [] ∨ R8 = [createMarker] ∨ R8 = [createMarker; serve] →
    stopped r.1 ∧ ∃ T, calls r.2 = calls w ++ T ∧ buildTrace T).
  { intros T4 T5 T6 T7 R8 r Hst Hc H4 H5 H6 H7 H8. split; [done|].
    exists (T1 ++ newConverter :: removeOutput :: T4 ++ T5 ++ T6 ++ T7 ++ R8).
    split.
    - rewrite Hc, H3. rewrite <- !app_assoc. done.
    - exists T1, (newConverter :: removeOutput :: T4 ++ T5 ++ T6 ++ T7 ++ R8).
      split; [done|]. split; [done|]. right.
      exists T4, T5, T6, T7, R8. done. }
  destruct (emits_convertContentDirectory fuel templates (NewMarkdown E) w3)
    as (T4 & HT4 & HA4).
  apply bind_split.
  2:{ intros r Hr Hw. apply (Hfin T4 [] [] [] []); auto.
      rewrite Hw, HT4. by rewrite !app_nil_r. }
  intros [] w4 Hcc. rewrite Hcc in HT4. cbn [snd] in HT4.
  destruct (emits_copyStaticDirectory fuel "theme/static" w4)
    as (T5 & HT5 & HA5).
  apply bind_split.
  2:{ intros r Hr Hw. apply (Hfin T4 T5 [] [] []); auto.
      rewrite Hw, HT5, HT4. by rewrite !app_nil_r, <- !app_assoc. }
  intros [] w5 Hth. rewrite Hth in HT5. cbn [snd] in HT5.
  destruct (emits_copyStaticDirectory fuel "static" w5) as (T6 & HT6 & HA6).
  apply bind_split.
  2:{ intros r Hr Hw. apply (Hfin T4 T5 T6 [] []); auto.
      rewrite Hw, HT6, HT5, HT4. by rewrite !app_nil_r, <- !app_assoc. }
  intros [] w6 Hst. rewrite Hst in HT6. cbn [snd] in HT6.
  destruct (emits_transpileTypescript E fuel w6) as (T7 & HT7 & HA7).
  apply bind_split.
  2:{ intros r Hr Hw. apply (Hfin T4 T5 T6 T7 []); auto.
      rewrite Hw, HT7, HT6, HT5, HT4. by rewrite !app_nil_r, <- !app_assoc. }
  intros [] w7 Htr. rewrite Htr in HT7. cbn [snd] in HT7.
  assert (H7 : calls w7 = calls w3 ++ T4 ++ T5 ++ T6 ++ T7).
  { rewrite HT7, HT6, HT5, HT4. by rewrite <- !app_assoc. }
  unfold os_Create. rewrite bind_sys. cbn [fst snd].
  destruct (create _ _) as [[no|] d8]; cbn [pathError fst snd].
  - rewrite bind_check_Some. cbn [fst snd].
    match goal with |- stopped ?o ∧ (∃ T, calls ?w' = _ ∧ _) =>
      apply (Hfin T4 T5 T6 T7 [createMarker] (o, w')); [done| |auto..]
    end.
    cbn [snd logged calls]. by rewrite H7.
  - rewrite bind_check_None. unfold startHTTPServer, http_ListenAndServe.
    rewrite bind_sys. cbn [fst snd exit].
    match goal with |- stopped ?o ∧ (∃ T, calls ?w' = _ ∧ _) =>
      apply (Hfin T4 T5 T6 T7 [createMarker; serve] (o, w')); [done| |auto..]
    end.
    cbn [snd logged calls]. rewrite H7, <- !app_assoc. done.
Qed.








(** ** Paths as the operating system resolves them *)

Lemma Split_no_sep s sep c : c ∈ Split s sep → sep ∉ c.
Proof.
  revert c. induction s as [|a s IH]; intros c; simpl.
  - intros ->%list_elem_of_singleton. apply not_elem_of_nil.
  - destruct (decide (a = sep)) as [->|Hne].
    + intros [->|Hc]%elem_of_cons; [apply not_elem_of_nil|by apply IH].
    + pose proof (Split_nonempty s sep).
      destruct (Split s sep) as [|w ws] eqn:Hs; [done|].
      intros [->|Hc]%elem_of_cons.
      * apply not_elem_of_cons. split; [done|]. apply IH. by left.
      * apply IH. by right.
Qed.

Lemma components_app a b :
  components (a ++ "/"%char :: b) = components a ++ components b.
Proof. unfold components. by rewrite Split_app, filter_app. Qed.

Lemma components_nil : components [] = [].
Proof. reflexivity. Qed.

Lemma components_name n :
  n ≠ [] → n ≠ str "." → "/"%char ∉ n → components n = [n].
Proof.
  intros H1 H2 H3. unfold components. rewrite Split_notin by done.
  by rewrite filter_cons_True.
Qed.

Lemma components_no_sep path c : c ∈ components path → "/"%char ∉ c.
Proof.
  unfold components. intros [_ Hc]%list_elem_of_filter.
  by apply Split_no_sep in Hc.
Qed.

Lemma components_joinPath l :
  Forall (λ c : gostring, c ≠ [] ∧ c ≠ str "." ∧ "/"%char ∉ c) l →
  components (joinPath l) = l.
Proof.
  induction l as [|e l IH]; intros Hl; [done|].
  apply Forall_cons in Hl as [(H1 & H2 & H3) Hl].
  destruct l as [|e' l].
  - simpl. by apply components_name.
  - change (joinPath (e :: e' :: l)) with (e ++ "/"%char :: joinPath (e' :: l)).
    rewrite components_app, IH by done. by rewrite components_name.
Qed.

Lemma cleanElems_plain rooted stack elems :
  Forall (λ c, c ≠ str "..") elems →
  cleanElems rooted stack elems
  = reverse stack ++ filter (λ c : gostring, c ≠ [] ∧ c ≠ str ".") elems.
Proof.
  revert stack. induction elems as [|e elems IH]; intros stack Hel.
  - simpl. by rewrite app_nil_r.
  - apply Forall_cons in Hel as [He Hel]. cbn [cleanElems].
    destruct (decide (e = [] ∨ e = str ".")) as [Hd|Hd].
    + rewrite IH by done. rewrite filter_cons_False by tauto. done.
    + rewrite (decide_False (P := e = str "..")) by done.
      rewrite IH by done. rewrite filter_cons_True by tauto.
      rewrite reverse_cons, <- app_assoc. done.
Qed.

Lemma components_Clean path :
  Forall (λ c, c ≠ str "..") (Split path "/") →
  components (filepath_Clean path) = components path.
Proof.
  intros Hp. unfold filepath_Clean. rewrite cleanElems_plain by done.
  change (reverse [] ++ ?l) with l. fold (components path).
  assert (Hj : components (joinPath (components path)) = components path).
  { apply components_joinPath. apply Forall_forall. intros c Hc.
    pose proof (components_no_sep _ _ Hc).
    unfold components in Hc. apply list_elem_of_filter in Hc as [[? ?] _].
    done. }
  destruct (bool_decide _).
  - change ("/"%char :: ?b) with ([] ++ "/"%char :: b).
    by rewrite components_app, Hj.
  - destruct (joinPath (components path)) eqn:Hjp; [|done].
    by rewrite <- Hj.
Qed.

(** The directory of a path that ends with a name. *)
Lemma components_Dir a n :
  "/"%char ∉ n →
  Forall (λ c, c ≠ str "..") (Split a "/") →
  components (filepath_Dir (a ++ "/"%char :: n)) = components a.
Proof.
  intros Hn Ha. unfold filepath_Dir. rewrite afterLast_app by done.
  replace (take _ _) with (a ++ ["/"%char]).
  - rewrite components_Clean.
    + rewrite components_app. by rewrite app_nil_r.
    + rewrite Split_app. apply Forall_app. split; [done|].
      by repeat constructor.
  - change (a ++ "/"%char :: n) with (a ++ ["/"%char] ++ n).
    rewrite app_assoc, length_app.
    replace (length (a ++ ["/"%char]) + length n - length n)
      with (length (a ++ ["/"%char])) by lia.
    by rewrite take_app_length.
Qed.

(** ** What the file system calls change *)

Lemma keeps_refl K d : keeps K d d.
Proof. split; [done|]. by left. Qed.

Lemma keeps_trans K d1 d2 d3 : keeps K d1 d2 → keeps K d2 d3 → keeps K d1 d3.
Proof.
  intros [D1 F1] [D2 F2]. split.
  - intros q b H. by apply D2, D1.
  - intros q. destruct (F2 q) as [E2|?]; [|by right].
    destruct (F1 q) as [E1|?]; [|by right]. left. congruence.
Qed.

Lemma keeps_mono (K K' : list gostring → Prop) d d' :
  (∀ q, K q → K' q) → keeps K d d' → keeps K' d d'.
Proof.
  intros HK [D F]. split; [done|]. intros q. destruct (F q); auto.
Qed.

Lemma keeps_out K d d' q : keeps K d d' → ¬ K q → fileAt d' q = fileAt d q.
Proof. intros [_ F] Hq. by destruct (F q). Qed.

Lemma unchanged_refl J d : unchanged J d d.
Proof. by intros q _. Qed.

Lemma unchanged_trans J d1 d2 d3 :
  unchanged J d1 d2 → unchanged J d2 d3 → unchanged J d1 d3.
Proof. intros H1 H2 q Hq. by rewrite H2, H1. Qed.

Lemma unchanged_mono (J J' : list gostring → Prop) d d' :
  (∀ q, J q → J' q) → unchanged J d d' → unchanged J' d d'.
Proof. intros HJ H q Hq. apply H. auto. Qed.

Lemma keeps_insert_file k c d :
  (∀ b, d !! k ≠ Some (Dir b)) → keeps (.= k) d (<[k := File c]> d).
Proof.
  intros Hk. split.
  - intros q b Hq. rewrite lookup_insert_ne; [done|]. intros ->. by eapply Hk.
  - intros q. destruct (decide (q = k)) as [->|Hq]; [by right|].
    left. unfold fileAt. by rewrite lookup_insert_ne.
Qed.

Lemma keeps_delete_file k c d :
  d !! k = Some (File c) → keeps (.= k) d (delete k d).
Proof.
  intros Hk. split.
  - intros q b Hq. rewrite lookup_delete_ne; [done|]. intros ->. congruence.
  - intros q. destruct (decide (q = k)) as [->|Hq]; [by right|].
    left. unfold fileAt. by rewrite lookup_delete_ne.
Qed.

Lemma unchanged_insert (J : list gostring → Prop) k nd d :
  J k → unchanged J d (<[k := nd]> d).
Proof. intros Hk q Hq. rewrite lookup_insert_ne; [done|]. by intros ->. Qed.

Lemma unchanged_delete (J : list gostring → Prop) k d :
  J k → unchanged J d (delete k d).
Proof. intros Hk q Hq. rewrite lookup_delete_ne; [done|]. by intros ->. Qed.

(** [os.MkdirAll] *)
Lemma mkdirAll_spec pre rest d :
  let r := mkdirAll pre rest d in
  (∀ q nd, d !! q = Some nd → r.2 !! q = Some nd)
  ∧ (∀ q, r.2 !! q ≠ d !! q →
       d !! q = None ∧ r.2 !! q = Some (Dir true)
       ∧ ∃ i, 0 < i ≤ length rest ∧ q = pre ++ take i rest)
  ∧ (r.1 = None → ∀ i, 0 < i ≤ length rest →
       ∃ b, r.2 !! (pre ++ take i rest) = Some (Dir b)).
Proof.
  revert pre d. induction rest as [|n rest IH]; intros pre d.
  { cbn. split; [done|]. split; [done|]. intros _ i Hi. lia. }
  cbn [mkdirAll].
  assert (Hshift : ∀ i, (pre ++ [n]) ++ take i rest = pre ++ take (S i) (n :: rest)).
  { intros i. by rewrite <- app_assoc. }
  destruct (d !! (pre ++ [n])) as [[c|b]|] eqn:Hk.
  - cbn. split; [done|]. split; [done|]. done.
  - destruct (IH (pre ++ [n]) d) as (I1 & I2 & I3). split; [done|]. split.
    + intros q Hq. destruct (I2 q Hq) as (? & ? & i & Hi & ->).
      split; [done|]. split; [done|]. exists (S i). rewrite Hshift.
      split; [cbn; lia|done].
    + intros Hok [|[|i]] Hi; [lia| |].
      * exists b. cbn. rewrite take_0. by apply I1.
      * rewrite <- Hshift. apply I3; [done|]. cbn in Hi. lia.
  - destruct (IH (pre ++ [n]) (<[pre ++ [n] := Dir true]> d)) as (I1 & I2 & I3).
    split; [|split].
    + intros q nd Hq. apply I1. rewrite lookup_insert_ne; [done|].
      intros <-. congruence.
    + intros q Hq.
      destruct (decide ((mkdirAll (pre ++ [n]) rest (<[pre ++ [n] := Dir true]> d)).2 !! q
                        = <[pre ++ [n] := Dir true]> d !! q)) as [He|Hne].
      * destruct (decide (q = pre ++ [n])) as [->|Hqn].
        -- rewrite lookup_insert_eq in He. split; [done|]. split; [done|].
           exists 1. cbn. rewrite take_0. split; [lia|done].
        -- rewrite lookup_insert_ne in He by done. done.
      * destruct (I2 q Hne) as (Hnone & Hdir & i & Hi & ->).
        destruct (decide ((pre ++ [n]) ++ take i rest = pre ++ [n])) as [Heq|Hqn].
        { rewrite Heq, lookup_insert_eq in Hnone. done. }
        rewrite lookup_insert_ne in Hnone by done.
        split; [done|]. split; [done|]. exists (S i). rewrite Hshift.
        split; [cbn; lia|done].
    + intros Hok [|[|i]] Hi; [lia| |].
      * exists true. cbn. rewrite take_0. apply I1. by rewrite lookup_insert_eq.
      * rewrite <- Hshift. apply I3; [done|]. cbn in Hi. lia.
Qed.

Lemma keeps_mkdirAll K pre rest d : keeps K d (mkdirAll pre rest d).2.
Proof.
  destruct (mkdirAll_spec pre rest d) as (H1 & _). split.
  - intros q b. apply H1.
  - intros q. left. apply mkdirAll_fileAt.
Qed.

Lemma unchanged_mkdirAll (J : list gostring → Prop) pre rest d :
  (∀ i, 0 < i ≤ length rest → J (pre ++ take i rest)) →
  unchanged J d (mkdirAll pre rest d).2.
Proof.
  intros HJ q Hq. destruct (mkdirAll_spec pre rest d) as (_ & H2 & _).
  destruct (decide ((mkdirAll pre rest d).2 !! q = d !! q)) as [|Hne]; [done|].
  destruct (H2 q Hne) as (_ & _ & i & Hi & ->). by destruct Hq; apply HJ.
Qed.

(** [os.Create] *)
Lemma create_spec k d e d' :
  create k d = (e, d') →
  match e with
  | None => d' = <[k := File []]> d ∧ k ≠ [] ∧ ∀ b, d !! k ≠ Some (Dir b)
  | Some _ => d' = d
  end.
Proof.
  unfold create. destruct k as [|a k]; [by intros [= <- <-]|].
  destruct (stat d _) as [[c|b]|]; try by intros [= <- <-].
  destruct (d !! (a :: k)) as [[c|b']|] eqn:Hk; intros [= <- <-]; try done.
Qed.

(** Writing to a file. *)
Lemma append_spec k data d e d' :
  append k data d = (e, d') →
  match e with
  | None => ∃ c, d !! k = Some (File c) ∧ d' = <[k := File (c ++ data)]> d
  | Some _ => d' = d
  end.
Proof.
  unfold append. destruct (d !! k) as [[c|b]|]; intros [= <- <-]; eauto.
Qed.

(** [os.Remove] *)
Lemma remove_spec k d e d' :
  remove k d = (e, d') →
  match e with
  | None => d' = delete k d ∧ k ≠ []
            ∧ ((∃ c, d !! k = Some (File c))
               ∨ (∃ b, d !! k = Some (Dir b)) ∧ children d k = [])
  | Some _ => d' = d
  end.
Proof.
  unfold remove. destruct k as [|a k]; [by intros [= <- <-]|].
  destruct (d !! (a :: k)) as [[c|b]|] eqn:Hk.
  - intros [= <- <-]. eauto.
  - destruct (children d (a :: k)) eqn:Hc; intros [= <- <-]; eauto 6.
  - by intros [= <- <-].
Qed.

Lemma readFile_spec k d c : readFile k d = (c, None) → stat d k = Some (File c).
Proof. unfold readFile. destruct (stat d k) as [[c'|b]|]; by intros [= <-]. Qed.

(** ** The asset mirror *)

Lemma pathBelow_snoc dir rel n :
  pathBelow dir (rel ++ [n]) = pathBelow dir rel ++ "/"%char :: n.
Proof. unfold pathBelow. by rewrite foldl_app. Qed.

Lemma pathBelow_root root rel : pathBelow root rel = root ++ pathBelow [] rel.
Proof.
  induction rel as [|n rel IH] using rev_ind.
  - by rewrite app_nil_r.
  - rewrite !pathBelow_snoc, IH. by rewrite <- app_assoc.
Qed.

Lemma Split_pathBelow rel :
  Forall validName rel → Split (pathBelow [] rel) "/" = [] :: rel.
Proof.
  induction rel as [|n rel IH] using rev_ind; intros Hrel; [done|].
  apply Forall_app in Hrel as [Hrel Hn]. rewrite Forall_singleton in Hn.
  rewrite pathBelow_snoc, Split_app, IH by done.
  rewrite Split_notin; [done|]. apply Hn.
Qed.

Lemma validName_not_dotdot rel :
  Forall validName rel → Forall (λ c, c ≠ str "..") rel.
Proof. intros H. eapply Forall_impl; [exact H|]. by intros n (_ & _ & ? & _). Qed.

(** The destination of a mirrored file and its directory. *)
Lemma mirror_dest rel n :
  Forall validName rel → validName n →
  components (str "public/" ++ pathBelow [] (rel ++ [n]))
  = str "public" :: rel ++ [n]
  ∧ components (filepath_Dir (str "public/" ++ pathBelow [] (rel ++ [n])))
    = str "public" :: rel.
Proof.
  intros Hrel Hn.
  assert (Hpub : ∀ x, components (str "public/" ++ x)
                      = str "public" :: components x).
  { intros x. change (str "public/" ++ x) with (str "public" ++ "/"%char :: x).
    by rewrite components_app. }
  split.
  - rewrite Hpub. f_equal.
    rewrite (components_pathBelow []); [done|].
    apply Forall_app. split; [done|by apply Forall_singleton].
  - rewrite pathBelow_snoc, app_assoc.
    rewrite components_Dir.
    + rewrite Hpub. f_equal. by rewrite (components_pathBelow []).
    + apply Hn.
    + change (str "public/" ++ ?x) with (str "public" ++ "/"%char :: x).
      rewrite Split_app, Split_pathBelow by done.
      apply Forall_app. split; [by repeat constructor|].
      constructor; [done|]. by apply validName_not_dotdot.
Qed.

Lemma mirrorVisit_effect root rel n w :
  Forall validName rel → validName n →
  ¬ inPublic (components root ++ rel ++ [n]) →
  let ks := components root ++ rel ++ [n] in
  let kd := str "public" :: rel ++ [n] in
  let r := mirrorVisit root (pathBelow root (rel ++ [n])) w in
  r.1 ≠ OutOfFuel
  ∧ unchanged inPublic (disk w) (disk r.2)
  ∧ keeps (.= kd) (disk w) (disk r.2)
  ∧ (r.1 = Ok tt →
     ∃ c, fileAt (disk w) ks = Some c ∧ fileAt (disk r.2) kd = Some c).
Proof.
  intros Hrel Hn Hsrc ks kd r.
  destruct (mirror_dest rel n Hrel Hn) as [Hkd Hkdd].
  assert (Hks : components (pathBelow root (rel ++ [n])) = ks).
  { rewrite components_pathBelow; [done|].
    apply Forall_app. split; [done|by apply Forall_singleton]. }
  assert (Hr : r = mirrorVisit root (pathBelow root (rel ++ [n])) w) by done.
  clearbody r. unfold mirrorVisit in Hr.
  rewrite (pathBelow_root root), TrimPrefix_app in Hr.
  rewrite <- (pathBelow_root root) in Hr.
  set (dest := str "public/" ++ pathBelow [] (rel ++ [n])) in *.
  unfold bind at 1 in Hr. rewrite createDirectoryPath_run in Hr.
  rewrite Hkdd in Hr.
  pose proof (keeps_mkdirAll (.= kd) [] (str "public" :: rel) (disk w)) as Hk1.
  pose proof (unchanged_mkdirAll inPublic [] (str "public" :: rel) (disk w)) as Hu1.
  pose proof (mkdirAll_fileAt [] (str "public" :: rel) (disk w)) as Hf1.
  destruct (mkdirAll [] (str "public" :: rel) (disk w)) as [e1 d1].
  cbn [fst snd] in *.
  assert (Hu1' : unchanged inPublic (disk w) d1).
  { apply Hu1. intros [|i] Hi; [lia|]. cbn. by apply prefix_cons, prefix_nil. }
  clear Hu1.
  destruct e1 as [no|].
  { rewrite Hr. cbn. split; [done|]. split; [done|]. split; [done|]. done. }
  unfold copyFile, os_Open in Hr. rewrite bind_sys in Hr.
  cbn [disk logged fst snd] in Hr. rewrite Hks in Hr.
  destruct (stat d1 ks) as [nd|] eqn:Hst; cbn [fst snd] in Hr.
  2:{ rewrite Hr. cbn. done. }
  rewrite bind_check_None in Hr.
  unfold os_Create in Hr. rewrite bind_sys in Hr.
  cbn [disk logged fst snd] in Hr. rewrite Hkd in Hr. fold kd in Hr.
  destruct (create kd d1) as [e2 d2] eqn:Hcr. apply create_spec in Hcr.
  cbn [fst snd pathError] in Hr.
  destruct e2 as [no|].
  { subst d2. rewrite Hr. cbn. done. }
  destruct Hcr as (-> & Hkd0 & Hnd).
  rewrite bind_check_None in Hr.
  assert (Hne : ks ≠ kd).
  { intros Heq. apply Hsrc. fold ks. rewrite Heq.
    by apply prefix_cons, prefix_nil. }
  assert (Hk2 : keeps (.= kd) (disk w) (<[kd := File []]> d1)).
  { eapply keeps_trans; [done|]. by apply keeps_insert_file. }
  assert (Hu2 : unchanged inPublic (disk w) (<[kd := File []]> d1)).
  { eapply unchanged_trans; [done|]. apply unchanged_insert.
    by apply prefix_cons, prefix_nil. }
  unfold io_Copy in Hr. rewrite bind_sys in Hr.
  cbn [disk logged fst snd] in Hr. rewrite Hks, Hkd in Hr. fold kd in Hr.
  destruct (readFile ks (<[kd := File []]> d1)) as [c [no|]] eqn:Hrd.
  { cbn [fst snd] in Hr. rewrite Hr. cbn. done. }
  apply readFile_spec in Hrd.
  unfold append in Hr. rewrite lookup_insert_eq in Hr.
  cbn [fst snd pathError app] in Hr. rewrite insert_insert_eq in Hr.
  change (check None ?x) with (Ok tt, x) in Hr.
  rewrite Hr. cbn [fst snd disk logged].
  split; [done|]. split.
  { eapply unchanged_trans; [exact Hu1'|]. apply unchanged_insert.
    by apply prefix_cons, prefix_nil. }
  split.
  { eapply keeps_trans; [exact Hk1|]. by apply keeps_insert_file. }
  intros _. exists c. split.
  - rewrite <- Hf1. unfold fileAt.
    assert (Hks0 : ks ≠ []).
    { subst ks. intros H. apply (f_equal length) in H.
      rewrite !length_app in H. cbn in H. lia. }
    clearbody ks. destruct ks as [|a ks']; [done|]. cbn [stat] in Hrd.
    rewrite lookup_insert_ne in Hrd by done. by rewrite Hrd.
  - unfold fileAt. by rewrite lookup_insert_eq.
Qed.

Lemma copied_equiv d0 ks kd (R R' : list gostring → Prop) w r :
  (∀ rel, R rel ↔ R' rel) → copied d0 ks kd R w r → copied d0 ks kd R' w r.
Proof.
  intros HR (H1 & H2 & H3 & H4). split; [done|]. split; [done|]. split.
  - eapply keeps_mono; [|exact H3]. intros q (rel & Hrel & ->).
    exists rel. by rewrite <- HR.
  - intros Hok rel Hrel. apply H4; [done|]. by apply HR.
Qed.

Lemma copied_shift d0 ks kd n (R : list gostring → Prop) w r :
  copied d0 (ks ++ [n]) (kd ++ [n]) R w r →
  copied d0 ks kd (λ rel, ∃ rel', rel = n :: rel' ∧ R rel') w r.
Proof.
  intros (H1 & H2 & H3 & H4). split; [done|]. split; [done|]. split.
  - eapply keeps_mono; [|exact H3]. intros q (rel & Hrel & ->).
    exists (n :: rel). split; [by exists rel|]. by rewrite <- app_assoc.
  - intros Hok rel (rel' & -> & Hrel). destruct (H4 Hok rel' Hrel) as (c & Hc & Hc').
    exists c. by rewrite <- !app_assoc in Hc, Hc'.
Qed.

Lemma copied_bind d0 ks kd (R1 R2 : list gostring → Prop) (m k : M unit) w :
  copied d0 ks kd R1 w (m w) →
  (∀ w1, m w = (Ok tt, w1) → copied d0 ks kd R2 w1 (k w1)) →
  (∀ rel, R1 rel → ¬ R2 rel) →
  copied d0 ks kd (λ rel, R1 rel ∨ R2 rel) w (bind m (λ _, k) w).
Proof.
  intros (A1 & A2 & A3 & A4) Hk Hdis. unfold bind.
  destruct (m w) as [[[]|f|p|] w1] eqn:Hm; cbn [fst snd] in *.
  - destruct (Hk w1 eq_refl) as (B1 & B2 & B3 & B4).
    split; [done|]. split; [by eapply unchanged_trans|]. split.
    + eapply keeps_trans; (eapply keeps_mono; [|eassumption]);
        intros q (rel & Hrel & ->); exists rel; auto.
    + intros Hok rel [Hrel|Hrel]; [|by apply B4].
      destruct (A4 eq_refl rel Hrel) as (c & Hc & Hc'). exists c.
      split; [done|]. rewrite <- Hc'. apply (keeps_out _ _ _ _ B3).
      intros (rel2 & Hrel2 & Heq). apply app_inv_head in Heq as <-.
      by apply (Hdis rel).
  - split; [done|]. split; [done|]. split; [|done].
    eapply keeps_mono; [|exact A3]. intros q (rel & Hrel & ->). exists rel. auto.
  - split; [done|]. split; [done|]. split; [|done].
    eapply keeps_mono; [|exact A3]. intros q (rel & Hrel & ->). exists rel. auto.
  - done.
Qed.

Lemma copied_forEach d0 ks kd (Re : DirEntry → list gostring → Prop)
    (l : list DirEntry) (body : DirEntry → M unit) :
  NoDup (Name <$> l) →
  (∀ e rel, Re e rel → head rel = Some (Name e)) →
  (∀ e w1, e ∈ l → unchanged inPublic d0 (disk w1) →
     copied d0 ks kd (Re e) w1 (body e w1)) →
  ∀ w1, unchanged inPublic d0 (disk w1) →
    copied d0 ks kd (λ rel, ∃ e, e ∈ l ∧ Re e rel) w1 (forEach l body w1).
Proof.
  intros Hnd Hhead. induction l as [|e l IH]; intros Hbody w1 Hw1.
  - split; [done|]. split; [apply unchanged_refl|]. split; [apply keeps_refl|].
    intros _ rel (e & He & _). by apply elem_of_nil in He.
  - rewrite fmap_cons in Hnd. apply NoDup_cons in Hnd as [Hnotin Hnd].
    cbn [forEach].
    eapply copied_equiv; [|apply (copied_bind d0 ks kd (Re e)
                                   (λ rel, ∃ e', e' ∈ l ∧ Re e' rel))].
    + intros rel. split.
      * intros [H|(e' & He' & H)]; [exists e; split; [by left|done]|].
        exists e'. split; [by right|done].
      * intros (e' & [->|He']%elem_of_cons & H); [by left|]. right. by exists e'.
    + apply Hbody; [by left|done].
    + intros w2 Hrun. apply IH; [done| |].
      * intros e' w3 He'. apply Hbody. by right.
      * destruct (Hbody e w1) as (_ & Hu & _); [by left|done|].
        rewrite Hrun in Hu. by eapply unchanged_trans.
    + intros rel H1 (e' & He' & H2). apply Hnotin.
      apply Hhead in H1, H2. apply list_elem_of_fmap. exists e'.
      split; [congruence|done].
Qed.

Lemma fileAt_unchanged (J : list gostring → Prop) d d' q :
  unchanged J d d' → ¬ J q → fileAt d' q = fileAt d q.
Proof. intros H Hq. unfold fileAt. by rewrite H. Qed.

Lemma stat_unchanged (J : list gostring → Prop) d d' q :
  unchanged J d d' → ¬ J q → stat d' q = stat d q.
Proof. intros H Hq. destruct q; [done|]. cbn. by apply H. Qed.

Lemma readDir_unchanged (J : list gostring → Prop) d d' k e :
  unchanged J d d' → (∀ rel, ¬ J (k ++ rel)) →
  e ∈ (readDir k d').1 ↔ e ∈ (readDir k d).1.
Proof.
  intros H Hk. rewrite !readDir_spec.
  rewrite (stat_unchanged J d d' k), (H (k ++ [Name e])); [done|..]; auto.
  rewrite <- (app_nil_r k). apply Hk.
Qed.

Lemma reachableFile_entries d0 k rel (items : list DirEntry) :
  (∀ e, e ∈ items ↔ e ∈ (readDir k d0).1) →
  reachableFile d0 k rel ↔ ∃ e, e ∈ items ∧ belowEntry d0 k e rel.
Proof.
  intros Hitems. split.
  - destruct rel as [|n rel]; [done|]. rewrite reachableFile_cons.
    intros [Hstat Hrel]. destruct rel as [|n' rel].
    + destruct Hrel as [c Hc]. exists {| Name := n; IsDir := false |}.
      split; [|by exists []].
      apply Hitems, readDir_spec. split; [done|]. by exists (File c).
    + destruct Hrel as [[b Hb] Hrel]. exists {| Name := n; IsDir := true |}.
      split; [|by exists (n' :: rel)].
      apply Hitems, readDir_spec. split; [done|]. by exists (Dir b).
  - intros (e & He & rel' & -> & Hrel).
    apply Hitems, readDir_spec in He as (Hstat & nd & Hnd & Hkind).
    apply reachableFile_cons. split; [done|].
    destruct (IsDir e).
    + destruct rel' as [|n' rel']; [done|]. split; [|done].
      destruct nd as [c|b]; [done|]. by exists b.
    + subst rel'. destruct nd as [c|b]; [|done]. by exists c.
Qed.

Lemma mirror_walk root d0 fuel :
  (∀ rel, ¬ inPublic (components root ++ rel)) →
  namesOk d0 →
  ∀ rels w,
    Forall validName rels →
    unchanged inPublic d0 (disk w) →
    height d0 ≤ fuel + length (components root ++ rels) →
    copied d0 (components root ++ rels) (str "public" :: rels)
           (reachableFile d0 (components root ++ rels)) w
           (walk (S fuel) (pathBelow root rels) (mirrorVisit root) w).
Proof.
  intros Hsrc Hok. induction fuel as [fuel IH] using lt_wf_ind.
  intros rels w Hrels Hw Hh.
  set (k := components root ++ rels) in *.
  assert (Hk : components (pathBelow root rels) = k)
    by (by apply components_pathBelow).
  assert (HkJ : ∀ rel, ¬ inPublic (k ++ rel)).
  { intros rel. unfold k. rewrite <- app_assoc. apply Hsrc. }
  cbn [walk]. unfold os_ReadDir. rewrite bind_sys. cbn [fst snd]. rewrite Hk.
  set (w0 := logged w (disk w) "os.ReadDir" [pathBelow root rels]).
  set (items := (readDir k (disk w)).1).
  assert (Hitems : ∀ e, e ∈ items ↔ e ∈ (readDir k d0).1).
  { intros e. by apply (readDir_unchanged inPublic). }
  change (copied d0 k (str "public" :: rels) (reachableFile d0 k) w0
            (forEach items (λ item,
               if negb (IsDir item)
               then mirrorVisit root (pathBelow root rels ++ str "/" ++ Name item)
               else walk fuel (pathBelow root rels ++ str "/" ++ Name item)
                         (mirrorVisit root)) w0)).
  eapply copied_equiv.
  { intros rel. symmetry. by apply reachableFile_entries. }
  apply copied_forEach; [apply readDir_NoDup| | |done].
  { by intros e rel (rel' & -> & _). }
  intros e w1 He Hw1. apply Hitems, readDir_spec in He as (Hstat & nd & Hnd & Hkind).
  assert (Hname : validName (Name e)).
  { specialize (Hok _ _ Hnd). apply Forall_app in Hok as [_ Hn].
    by rewrite Forall_singleton in Hn. }
  change (pathBelow root rels ++ str "/" ++ Name e)
    with (pathBelow root rels ++ "/"%char :: Name e).
  rewrite <- pathBelow_snoc.
  destruct (IsDir e) eqn:Hdir; cbn [negb].
  - pose proof (height_le _ _ _ Hnd) as Hlen. rewrite length_app in Hlen.
    cbn [length] in Hlen.
    destruct fuel as [|m]; [lia|].
    eapply copied_equiv; [|apply copied_shift].
    2:{ change (str "public" :: rels) with ([str "public"] ++ rels).
        rewrite <- (app_assoc [str "public"]). unfold k.
        rewrite <- (app_assoc (components root)).
        apply (IH m); [lia| |done|].
        - apply Forall_app. split; [done|by apply Forall_singleton].
        - rewrite app_assoc. fold k. rewrite length_app. cbn [length]. lia. }
    intros rel. unfold belowEntry. rewrite Hdir. unfold k.
    by rewrite <- (app_assoc (components root)).
  - destruct (mirrorVisit_effect root rels (Name e) w1 Hrels Hname)
      as (E1 & E2 & E3 & E4).
    { rewrite app_assoc. apply HkJ. }
    unfold copied. refine (conj E1 (conj E2 (conj _ _))).
    + eapply keeps_mono; [|exact E3]. intros q ->. exists [Name e].
      split; [exists []; by rewrite Hdir|done].
    + intros Hrun rel (rel' & -> & Hrel). rewrite Hdir in Hrel. subst rel'.
      destruct (E4 Hrun) as (c & Hc & Hc'). exists c. split; [|done].
      rewrite <- Hc. unfold k. rewrite <- app_assoc. symmetry.
      apply (fileAt_unchanged inPublic); [done|]. rewrite app_assoc. apply HkJ.
Qed.

(** ** Extensions of paths that end with a file name *)

Lemma spaceWidth_le s : spaceWidth s ≤ length s.
Proof.
  destruct s as [|a [|b [|c s]]]; simpl; repeat case_match; lia.
Qed.

Lemma spaceWidthRev_le s : spaceWidthRev s ≤ length s.
Proof.
  destruct s as [|a [|b [|c s]]]; simpl; repeat case_match; lia.
Qed.

(** Trimming stops at an ASCII byte that is not white space. *)
Lemma trimLoop_block (width : gostring → nat) c n a b :
  (∀ s, width s ≤ length s) →
  (∀ s t, width s ≠ 0 → width (s ++ t) = width s) →
  (∀ s t, width s = 0 → width (s ++ c :: t) = 0) →
  trimLoop width n (a ++ c :: b) = trimLoop width n a ++ c :: b.
Proof.
  intros Hle Happ Hcut. revert a. induction n as [|n IH]; intros a; [done|].
  cbn [trimLoop]. destruct (width a) as [|k] eqn:Hw.
  - by rewrite Hcut.
  - rewrite Happ, Hw by lia.
    pose proof (Hle a). rewrite drop_app_le by lia. apply IH.
Qed.

Lemma trimLoop_fuel (width : gostring → nat) n m s :
  (∀ s, width s ≤ length s) →
  length s ≤ n → length s ≤ m → trimLoop width n s = trimLoop width m s.
Proof.
  intros Hle. revert m s. induction n as [|n IH]; intros m s Hn Hm.
  - destruct s; [|cbn in Hn; lia]. destruct m; [done|]. cbn.
    pose proof (Hle []). cbn in *. by replace (width []) with 0 by lia.
  - destruct m as [|m].
    + destruct s; [|cbn in Hm; lia]. cbn.
      pose proof (Hle []). cbn in *. by replace (width []) with 0 by lia.
    + cbn [trimLoop]. destruct (width s) as [|k] eqn:Hw; [done|].
      pose proof (Hle s). apply IH; rewrite length_drop; lia.
Qed.

Lemma slash_blocks :
  isSpace1 (N_of_ascii "/") = false ∧ (N_of_ascii "/" < 128)%N.
Proof. done. Qed.

Lemma TrimLeftSpace_slash a b :
  TrimLeftSpace (a ++ "/"%char :: b) = TrimLeftSpace a ++ "/"%char :: b.
Proof.
  unfold TrimLeftSpace.
  rewrite (trimLoop_block spaceWidth "/").
  - f_equal. apply trimLoop_fuel; [apply spaceWidth_le| |done].
    rewrite length_app. lia.
  - apply spaceWidth_le.
  - apply spaceWidth_app.
  - intros s t Hs. apply (spaceWidth_cut s []); [by rewrite app_nil_r|done..].
Qed.

Lemma TrimRightSpace_slash a b :
  TrimRightSpace (a ++ "/"%char :: b) = a ++ "/"%char :: TrimRightSpace b.
Proof.
  unfold TrimRightSpace.
  rewrite reverse_app, reverse_cons, <- app_assoc. cbn [app].
  rewrite (trimLoop_block spaceWidthRev "/").
  - rewrite reverse_app, reverse_cons, reverse_involutive, <- app_assoc.
    cbn [app]. do 3 f_equal.
    apply trimLoop_fuel; [apply spaceWidthRev_le|..];
      rewrite length_reverse, ?length_app; cbn; lia.
  - apply spaceWidthRev_le.
  - apply spaceWidthRev_app.
  - intros s t Hs. apply (spaceWidthRev_cut s []); [by rewrite app_nil_r|done..].
Qed.

Lemma TrimSpace_slash a b :
  TrimSpace (a ++ "/"%char :: b)
  = TrimLeftSpace a ++ "/"%char :: TrimRightSpace b.
Proof. unfold TrimSpace. by rewrite TrimLeftSpace_slash, TrimRightSpace_slash. Qed.

Lemma TrimRightSpace_no_sep c s : c ∉ s → c ∉ TrimRightSpace s.
Proof.
  intros Hs Hin. destruct (TrimRightSpace_prefix s) as [b Hb].
  apply Hs. rewrite Hb. apply elem_of_app. by left.
Qed.

(** The extension of a path depends on its file name only. *)
Lemma getExtension_name dir n :
  "/"%char ∉ n → getExtension (dir ++ "/"%char :: n) = getExtension ("/"%char :: n).
Proof.
  intros Hn. rewrite !getExtension_eq. cbv zeta.
  change ("/"%char :: n) with ([] ++ "/"%char :: n) at 3 4.
  rewrite !TrimSpace_slash. unfold finalSegment.
  rewrite !afterLast_app by (by apply TrimRightSpace_no_sep). done.
Qed.

(** What [removeExtension] leaves of the file name [n]. *)
Lemma TrimSpace_name n :
  TrimSpace ("/"%char :: n) = "/"%char :: TrimRightSpace n.
Proof. apply (TrimSpace_slash [] n). Qed.

Lemma changeExtension_name dir n ext :
  "/"%char ∉ n → spaceWidth dir = 0 →
  changeExtension (dir ++ "/"%char :: n) ext
  = dir ++ changeExtension ("/"%char :: n) ext.
Proof.
  intros Hn Hdir. unfold changeExtension, addExtension, removeExtension.
  rewrite getExtension_name by done.
  rewrite TrimSpace_slash, TrimSpace_name, (TrimLeftSpace_id dir) by done.
  destruct (getExtension_suffix ("/"%char :: n)) as [u Hu].
  rewrite TrimSpace_name in Hu. unfold finalSegment in Hu.
  change ("/"%char :: TrimRightSpace n) with ([] ++ "/"%char :: TrimRightSpace n)
    in Hu.
  rewrite afterLast_app in Hu by (by apply TrimRightSpace_no_sep).
  rewrite Hu.
  change (dir ++ "/"%char :: u ++ ?e) with (dir ++ ["/"%char] ++ u ++ e).
  change ("/"%char :: u ++ ?e) with (["/"%char] ++ u ++ e).
  rewrite !app_assoc, !TrimSuffix_app. by rewrite <- !app_assoc.
Qed.

(** ** File names of scripts *)

Lemma stem_spec n :
  "/"%char ∉ n →
  removeExtension ("/"%char :: n) = "/"%char :: stemOf n
  ∧ TrimRightSpace n = stemOf n ++ getExtension ("/"%char :: n)
  ∧ "/"%char ∉ stemOf n.
Proof.
  intros Hn.
  destruct (removeExtension_shape ("/"%char :: n))
    as (d & u & v & v' & Ht & Hrm & Hseg & _).
  rewrite TrimSpace_name in Ht, Hseg. unfold finalSegment in Hseg.
  change ("/"%char :: TrimRightSpace n) with ([] ++ "/"%char :: TrimRightSpace n)
    in Hseg.
  rewrite afterLast_app in Hseg by (by apply TrimRightSpace_no_sep).
  rewrite Hseg in Ht.
  assert (Hd : d = ["/"%char]).
  { change ("/"%char :: u ++ ?e) with (["/"%char] ++ u ++ e) in Ht.
    rewrite !app_assoc in Ht. apply app_inv_tail in Ht.
    by apply app_inv_tail in Ht. }
  subst d. unfold stemOf. rewrite Hrm. cbn [app drop].
  split; [done|]. split; [done|].
  intros Hin. apply (TrimRightSpace_no_sep "/" n Hn).
  rewrite Hseg. apply elem_of_app. by left.
Qed.

Lemma changeExtension_stem dir n ext :
  "/"%char ∉ n → spaceWidth dir = 0 →
  changeExtension (dir ++ "/"%char :: n) ext
  = dir ++ "/"%char :: stemOf n ++ ext.
Proof.
  intros Hn Hdir. rewrite changeExtension_name by done.
  unfold changeExtension, addExtension.
  destruct (stem_spec n Hn) as (-> & _). done.
Qed.

Lemma getExtension_js n :
  "/"%char ∉ n → getExtension ("/"%char :: stemOf n ++ str ".js") = str ".js".
Proof.
  intros Hn.
  destruct (getExtension_changeExtension ("/"%char :: n) (str "js")) as [_ H].
  - cbn. rewrite !not_elem_of_cons. split; [done|]. split; [done|].
    apply not_elem_of_nil.
  - reflexivity.
  - unfold changeExtension, addExtension in H.
    destruct (stem_spec n Hn) as (Hrm & _). by rewrite Hrm in H.
Qed.

Lemma jsName_valid n : "/"%char ∉ n → validName (stemOf n ++ str ".js").
Proof.
  intros Hn. destruct (stem_spec n Hn) as (_ & _ & Hs).
  assert (Hlen : 3 ≤ length (stemOf n ++ str ".js")).
  { rewrite length_app. cbn. lia. }
  split; [|split; [|split]].
  - intros H. rewrite H in Hlen. cbn in Hlen. lia.
  - intros H. rewrite H in Hlen. cbn in Hlen. lia.
  - intros H. rewrite H in Hlen. cbn in Hlen. lia.
  - rewrite not_elem_of_app. split; [done|].
    cbn. rewrite !not_elem_of_cons. repeat split; try done. apply not_elem_of_nil.
Qed.

Lemma spaceWidth_public x : spaceWidth (str "public" ++ x) = 0.
Proof. reflexivity. Qed.

Lemma spaceWidth_pathBelow_public rels :
  spaceWidth (pathBelow (str "public") rels) = 0.
Proof. rewrite pathBelow_root. apply spaceWidth_public. Qed.

Lemma Split_pathBelow_root root rels :
  Forall validName rels →
  Split (pathBelow root rels) "/" = Split root "/" ++ rels.
Proof.
  induction rels as [|n rels IH] using rev_ind; intros Hrels.
  - by rewrite app_nil_r.
  - apply Forall_app in Hrels as [Hrels Hn]. rewrite Forall_singleton in Hn.
    rewrite pathBelow_snoc, Split_app, IH by done.
    rewrite (Split_notin n) by apply Hn. by rewrite <- app_assoc.
Qed.

Lemma nameOf_snoc k n : nameOf (k ++ [n]) = n.
Proof. unfold nameOf. by rewrite last_snoc. Qed.

Lemma parent_snoc k n : parent (k ++ [n]) = k.
Proof.
  unfold parent. rewrite length_app. cbn [length].
  replace (length k + 1 - 1) with (length k) by lia. by rewrite take_app_length.
Qed.

Lemma jsKey_snoc k n : jsKey (k ++ [n]) = k ++ [stemOf n ++ str ".js"].
Proof. unfold jsKey. by rewrite parent_snoc, nameOf_snoc. Qed.

(** A TypeScript source is not the output of another one. *)
Lemma isTsKey_not_jsKey s s' :
  isTsKey s → "/"%char ∉ nameOf s' → s ≠ jsKey s'.
Proof.
  unfold isTsKey, jsKey. intros Hts Hn' ->.
  rewrite nameOf_snoc, getExtension_js in Hts by done. discriminate Hts.
Qed.

(** ** Well-formed file systems *)

Lemma parent_cons_ne k : k ≠ [] → parent k ≠ k.
Proof.
  intros Hk Heq. apply (f_equal length) in Heq. unfold parent in Heq.
  rewrite length_take in Heq. destruct k; [done|]. cbn in Heq. lia.
Qed.

Lemma stat_insert_ne k nd d q : q ≠ k → stat (<[k := nd]> d) q = stat d q.
Proof. intros Hq. destruct q; [done|]. cbn. by rewrite lookup_insert_ne. Qed.

Lemma stat_dir_lookup d k b : k ≠ [] → stat d k = Some (Dir b) → d !! k = Some (Dir b).
Proof. by destruct k. Qed.

Lemma closed_insert k nd d :
  closed d → k ≠ [] →
  (∀ b, d !! k = Some (Dir b) → ∃ b', nd = Dir b') →
  (∃ b, stat d (parent k) = Some (Dir b)) →
  closed (<[k := nd]> d).
Proof.
  intros Hc Hk Hsame Hpar q nd' Hq.
  assert (Hpk : parent k ≠ k) by (by apply parent_cons_ne).
  destruct (decide (q = k)) as [->|Hne].
  - destruct Hpar as [b Hb]. exists b. by rewrite stat_insert_ne.
  - rewrite lookup_insert_ne in Hq by done.
    destruct (Hc q nd' Hq) as [b Hb].
    destruct (decide (parent q = k)) as [Heq|Hne'].
    + rewrite Heq in *. apply stat_dir_lookup in Hb; [|done].
      destruct (Hsame b Hb) as [b' ->]. exists b'.
      destruct k; [done|]. cbn. by rewrite lookup_insert_eq.
    + exists b. by rewrite stat_insert_ne.
Qed.

Lemma closed_delete_file k c d :
  closed d → d !! k = Some (File c) → closed (delete k d).
Proof.
  intros Hc Hk q nd Hq.
  destruct (decide (q = k)) as [->|Hne]; [by rewrite lookup_delete_eq in Hq|].
  rewrite lookup_delete_ne in Hq by done.
  destruct (Hc q nd Hq) as [b Hb]. exists b.
  destruct (parent q) as [|a p] eqn:Hp; [done|]. cbn in *.
  rewrite lookup_delete_ne; [done|]. intros Heq. congruence.
Qed.

Lemma closed_mkdirAll pre rest d :
  closed d → (∃ b, stat d pre = Some (Dir b)) →
  closed (mkdirAll pre rest d).2.
Proof.
  revert pre d. induction rest as [|n rest IH]; intros pre d Hc Hpre; [done|].
  cbn [mkdirAll].
  assert (Hne : pre ++ [n] ≠ []) by (by destruct pre).
  destruct (d !! (pre ++ [n])) as [[c|b]|] eqn:Hk; [done| |].
  - apply IH; [done|]. exists b. destruct (pre ++ [n]); done.
  - apply IH.
    + apply closed_insert; [done|done| |by rewrite parent_snoc].
      intros b Hb. congruence.
    + exists true. destruct (pre ++ [n]) eqn:He; [done|]. cbn.
      by rewrite lookup_insert_eq.
Qed.

Lemma namesOk_insert k nd d :
  namesOk d → Forall validName k → namesOk (<[k := nd]> d).
Proof.
  intros Hd Hk q nd' Hq. destruct (decide (q = k)) as [->|Hne]; [done|].
  rewrite lookup_insert_ne in Hq by done. by eapply Hd.
Qed.

Lemma namesOk_delete k d : namesOk d → namesOk (delete k d).
Proof.
  intros Hd q nd Hq. destruct (decide (q = k)) as [->|Hne].
  - by rewrite lookup_delete_eq in Hq.
  - rewrite lookup_delete_ne in Hq by done. by eapply Hd.
Qed.

Lemma bounded_insert H k nd d :
  bounded H d → length k ≤ H → bounded H (<[k := nd]> d).
Proof.
  intros Hd Hk q nd' Hq. destruct (decide (q = k)) as [->|Hne]; [done|].
  rewrite lookup_insert_ne in Hq by done. by eapply Hd.
Qed.

Lemma bounded_delete H k d : bounded H d → bounded H (delete k d).
Proof.
  intros Hd q nd Hq. destruct (decide (q = k)) as [->|Hne].
  - by rewrite lookup_delete_eq in Hq.
  - rewrite lookup_delete_ne in Hq by done. by eapply Hd.
Qed.

Lemma mkdirAll_new pre rest d q nd :
  (mkdirAll pre rest d).2 !! q = Some nd →
  d !! q = Some nd ∨ ∃ i, 0 < i ≤ length rest ∧ q = pre ++ take i rest.
Proof.
  intros Hq. destruct (mkdirAll_spec pre rest d) as (_ & H2 & _).
  destruct (decide ((mkdirAll pre rest d).2 !! q = d !! q)) as [He|Hne].
  - left. by rewrite <- He.
  - right. by destruct (H2 q Hne) as (_ & _ & Hi).
Qed.

Lemma wellFormed_mkdirAll H ks d :
  Forall validName ks → length ks ≤ H →
  wellFormed H d → wellFormed H (mkdirAll [] ks d).2.
Proof.
  intros Hks Hlen (Hn & Hc & Hb). split; [|split].
  - intros q nd Hq. apply mkdirAll_new in Hq as [Hq|(i & Hi & ->)]; [by eapply Hn|].
    cbn. by apply Forall_take.
  - apply closed_mkdirAll; [done|]. by exists true.
  - intros q nd Hq. apply mkdirAll_new in Hq as [Hq|(i & Hi & ->)]; [by eapply Hb|].
    cbn. rewrite length_take. lia.
Qed.

Lemma wellFormed_create H k d d' :
  Forall validName k → length k ≤ H →
  wellFormed H d → create k d = (None, d') → wellFormed H d'.
Proof.
  intros Hk Hlen (Hn & Hc & Hb) Hcr.
  pose proof Hcr as Hcr'. apply create_spec in Hcr as (-> & Hk0 & Hnd).
  split; [|split].
  - by apply namesOk_insert.
  - apply closed_insert; [done|done| |].
    + intros b Hb'. by destruct (Hnd b).
    + unfold create in Hcr'. destruct k; [done|].
      destruct (stat d (parent _)) as [[c|b]|]; try done. by exists b.
  - by apply bounded_insert.
Qed.

Lemma wellFormed_insert_file H k c c' d :
  wellFormed H d → d !! k = Some (File c) →
  wellFormed H (<[k := File c']> d).
Proof.
  intros (Hn & Hc & Hb) Hk. split; [|split].
  - apply namesOk_insert; [done|]. by eapply Hn.
  - intros q nd Hq. destruct (decide (q = k)) as [->|Hne].
    + destruct (Hc k _ Hk) as [b Hb']. exists b.
      destruct (parent k) as [|a p] eqn:Hp; [done|]. cbn in *.
      rewrite lookup_insert_ne; [done|]. intros Heq. congruence.
    + rewrite lookup_insert_ne in Hq by done.
      destruct (Hc q nd Hq) as [b Hb']. exists b.
      destruct (parent q) as [|a p] eqn:Hp; [done|]. cbn in *.
      rewrite lookup_insert_ne; [done|]. intros Heq. congruence.
  - apply bounded_insert; [done|]. by eapply Hb.
Qed.

Lemma wellFormed_delete_file H k c d :
  wellFormed H d → d !! k = Some (File c) → wellFormed H (delete k d).
Proof.
  intros (Hn & Hc & Hb) Hk. split; [|split].
  - by apply namesOk_delete.
  - by eapply closed_delete_file.
  - by apply bounded_delete.
Qed.

(** ** The callback of the transpiler pass *)

Lemma filepath_Dir_eq a n :
  "/"%char ∉ n → filepath_Dir (a ++ "/"%char :: n) = filepath_Clean (a ++ ["/"%char]).
Proof.
  intros Hn. unfold filepath_Dir. rewrite afterLast_app by done. f_equal.
  change (a ++ "/"%char :: n) with (a ++ ["/"%char] ++ n).
  rewrite app_assoc, length_app.
  replace (length (a ++ ["/"%char]) + length n - length n)
    with (length (a ++ ["/"%char])) by lia.
  by rewrite take_app_length.
Qed.

Lemma joinPath_nil l :
  Forall (λ c : gostring, c ≠ []) l → joinPath l = [] → l = [].
Proof.
  intros Hl. destruct l as [|e [|e' l]]; [done| |];
    apply Forall_cons in Hl as [He _]; cbn; by destruct e.
Qed.

Lemma filepath_Dir_joinPath a n :
  "/"%char ∉ n →
  Forall (λ c, c ≠ str "..") (Split a "/") →
  head a ≠ Some "/"%char → components a ≠ [] →
  filepath_Dir (a ++ "/"%char :: n) = joinPath (components a).
Proof.
  intros Hn Ha Hhead Hne. rewrite filepath_Dir_eq by done.
  unfold filepath_Clean.
  assert (Hsplit : Forall (λ c, c ≠ str "..") (Split (a ++ ["/"%char]) "/")).
  { rewrite Split_app. apply Forall_app. split; [done|]. by repeat constructor. }
  rewrite cleanElems_plain by done.
  change (reverse [] ++ ?l) with l. fold (components (a ++ ["/"%char])).
  rewrite components_app, app_nil_r.
  rewrite bool_decide_eq_false_2.
  - destruct (joinPath (components a)) eqn:Hj; [|done].
    apply joinPath_nil in Hj; [done|].
    eapply Forall_impl; [apply components_valid|]. by intros c [? _].
  - destruct a; [done|]. done.
Qed.

Lemma components_public_dir rels :
  Forall validName rels →
  components (str "public/" ++ pathBelow (str "public") rels)
  = str "public" :: str "public" :: rels
  ∧ Forall (λ c, c ≠ str "..")
           (Split (str "public/" ++ pathBelow (str "public") rels) "/").
Proof.
  intros Hrels. split.
  - change (str "public/" ++ ?x) with (str "public" ++ "/"%char :: x).
    rewrite components_app, components_pathBelow by done. done.
  - change (str "public/" ++ ?x) with (str "public" ++ "/"%char :: x).
    rewrite Split_app, Split_pathBelow_root by done.
    apply Forall_app. split; [by repeat constructor|].
    apply Forall_app. split; [by repeat constructor|].
    by apply validName_not_dotdot.
Qed.

Lemma validName_public : validName (str "public").
Proof. by apply (bool_decide_unpack _). Qed.

Lemma prefix_logged w d fn args (l : list Event) :
  l `prefix_of` calls w → l `prefix_of` calls (logged w d fn args).
Proof. intros H. cbn. by apply prefix_app_r. Qed.

Lemma elem_of_logged w d fn args (e : Event) :
  e ∈ calls w → e ∈ calls (logged w d fn args).
Proof. intros H. cbn. apply elem_of_app. by left. Qed.

Ltac stop_here :=
  match goal with
  | Hr : _ = (_, _) |- _ => rewrite Hr
  | Hr : _ = _ |- _ => rewrite bind_assoc, bind_check_Some in Hr; rewrite Hr
  end;
  cbn [fst snd disk logged];
  split; [done|]; split; [by intros []; tauto|];
  intros _; split; [done|];
  split; [by repeat apply prefix_logged|]; split; done.

Lemma transpileVisit_effect E H rels n w :
  Forall validName rels → validName n →
  length (str "public" :: rels ++ [n]) ≤ H →
  wellFormed H (disk w) →
  let s := str "public" :: rels ++ [n] in
  let r := transpileVisit E (pathBelow (str "public") (rels ++ [n])) w in
  wellFormed H (disk r.2)
  ∧ (¬ isTsKey s → r = (Ok tt, w))
  ∧ (isTsKey s → transpiled E (disk w) (.= s) w r).
Proof.
  intros Hrels Hn Hlen Hwf s r.
  assert (Hsl : "/"%char ∉ n) by apply Hn.
  set (dir := pathBelow (str "public") rels).
  assert (Hp : pathBelow (str "public") (rels ++ [n]) = dir ++ "/"%char :: n)
    by apply pathBelow_snoc.
  assert (Hts : isTsKey s ↔ getExtension (dir ++ "/"%char :: n) = str ".ts").
  { unfold isTsKey. change s with ((str "public" :: rels) ++ [n]).
    rewrite nameOf_snoc. by rewrite getExtension_name. }
  assert (Hr : r = transpileVisit E (dir ++ "/"%char :: n) w)
    by (subst r; by rewrite Hp).
  clearbody r. unfold transpileVisit in Hr.
  destruct (decide (getExtension (dir ++ "/"%char :: n) ≠ str ".ts")) as [Hno|Hyes].
  { rewrite Hr. split; [done|]. split; [done|]. intros Hs%Hts. done. }
  assert (Hext : getExtension (dir ++ "/"%char :: n) = str ".ts").
  { by destruct (decide (getExtension (dir ++ "/"%char :: n) = str ".ts")). }
  clear Hyes.
  set (jsn := stemOf n ++ str ".js").
  assert (Hjsn : validName jsn) by (by apply jsName_valid).
  assert (Hnew : changeExtension (dir ++ "/"%char :: n) (str ".js")
                 = dir ++ "/"%char :: jsn).
  { apply changeExtension_stem; [done|apply spaceWidth_pathBelow_public]. }
  rewrite Hnew in Hr.
  destruct (components_public_dir rels Hrels) as [Hca Hsa].
  assert (Hdirs : filepath_Dir (str "public/" ++ dir ++ "/"%char :: jsn)
                  = joinPath (str "public" :: str "public" :: rels)).
  { rewrite app_assoc.
    rewrite (filepath_Dir_joinPath (str "public/" ++ dir) jsn);
      [by unfold dir; rewrite Hca|apply Hjsn|done|done|].
    unfold dir. by rewrite Hca. }
  assert (Hcdirs : components (joinPath (str "public" :: str "public" :: rels))
                   = str "public" :: str "public" :: rels).
  { rewrite <- Hdirs, app_assoc.
    rewrite (components_Dir (str "public/" ++ dir) jsn); [done|apply Hjsn|done]. }
  assert (Hks : components (dir ++ "/"%char :: n) = s).
  { rewrite <- Hp. rewrite components_pathBelow; [done|].
    apply Forall_app. split; [done|by apply Forall_singleton]. }
  set (kjs := str "public" :: rels ++ [jsn]).
  assert (Hkjs : components (dir ++ "/"%char :: jsn) = kjs).
  { rewrite components_app. unfold dir. rewrite components_pathBelow by done.
    rewrite (components_name jsn); [done|apply Hjsn..]. }
  assert (Hjk : jsKey s = kjs).
  { change s with ((str "public" :: rels) ++ [n]). by rewrite jsKey_snoc. }
  assert (Hps : parent s = str "public" :: rels).
  { change s with ((str "public" :: rels) ++ [n]). by rewrite parent_snoc. }
  assert (Hlenj : length kjs ≤ H).
  { unfold kjs. cbn [length] in Hlen |- *. rewrite length_app in Hlen |- *.
    cbn in Hlen |- *. lia. }
  assert (Hvs : Forall validName s).
  { constructor; [apply validName_public|].
    apply Forall_app. split; [done|by apply Forall_singleton]. }
  assert (Hvj : Forall validName kjs).
  { constructor; [apply validName_public|].
    apply Forall_app. split; [done|by apply Forall_singleton]. }
  assert (Hsk : s ≠ kjs).
  { rewrite <- Hjk. apply isTsKey_not_jsKey; [by apply Hts|].
    change s with ((str "public" :: rels) ++ [n]). by rewrite nameOf_snoc. }
  set (K := λ q : list gostring, ∃ s0, s0 = s ∧ (q = s0 ∨ q = jsKey s0)).
  assert (HKs : ∀ q, q = s → K q) by (intros q ->; exists s; auto).
  assert (HKj : ∀ q, q = kjs → K q) by (intros q ->; exists s; rewrite Hjk; auto).
  (* the directories *)
  unfold bind at 1 in Hr. rewrite createDirectoryPath_run in Hr.
  rewrite Hdirs, Hcdirs in Hr.
  pose proof (wellFormed_mkdirAll H (str "public" :: str "public" :: rels)
                (disk w)) as Hwf1.
  pose proof (keeps_mkdirAll K [] (str "public" :: str "public" :: rels) (disk w))
    as Hk1.
  pose proof (mkdirAll_fileAt [] (str "public" :: str "public" :: rels) (disk w))
    as Hf1.
  pose proof (mkdirAll_spec [] (str "public" :: str "public" :: rels) (disk w))
    as (_ & _ & Hd1).
  destruct (mkdirAll [] (str "public" :: str "public" :: rels) (disk w))
    as [e1 d1]. cbn [fst snd] in *.
  assert (Hwf1' : wellFormed H d1).
  { apply Hwf1; [|cbn [length] in Hlen |- *; rewrite length_app in Hlen;
                   cbn in Hlen; lia|done].
    do 2 (constructor; [apply validName_public|]). done. }
  clear Hwf1.
  destruct e1 as [no|].
  { stop_here. }
  assert (Hdir1 : ∃ b, d1 !! (str "public" :: str "public" :: rels) = Some (Dir b)).
  { destruct (Hd1 eq_refl (length (str "public" :: str "public" :: rels)))
      as [b Hb]; [cbn; lia|]. exists b. by rewrite take_ge in Hb. }
  assert (Hcall : Call "os.MkdirAll" [joinPath (str "public" :: parent s)]
                  ∈ calls (logged w d1 "os.MkdirAll"
                             [joinPath (str "public" :: str "public" :: rels)])).
  { rewrite Hps. cbn. apply elem_of_app. right. by left. }
  (* reading the source *)
  unfold transpileTypescriptFile in Hr. rewrite !bind_assoc in Hr.
  unfold os_ReadFile in Hr. rewrite bind_sys in Hr.
  cbn [disk logged fst snd] in Hr. rewrite Hks in Hr.
  destruct (readFile s d1) as [c [no|]] eqn:Hrd; cbn [fst snd pathError] in Hr.
  { stop_here. }
  apply readFile_spec in Hrd. change (stat d1 s) with (d1 !! s) in Hrd.
  rewrite bind_assoc, bind_check_None in Hr. rewrite bind_assoc in Hr.
  unfold typescript_TranspileString in Hr. rewrite bind_sys in Hr.
  cbn [disk logged fst snd] in Hr.
  destruct (TranspileString E c) as [js|err] eqn:Hjs; cbn [fst snd] in Hr.
  2:{ stop_here. }
  rewrite bind_assoc, bind_check_None in Hr. rewrite bind_assoc in Hr.
  unfold os_Create in Hr. rewrite bind_sys in Hr.
  cbn [disk logged fst snd] in Hr. rewrite Hkjs in Hr.
  destruct (create kjs d1) as [e2 d2] eqn:Hcr.
  pose proof (wellFormed_create H kjs d1 d2 Hvj Hlenj Hwf1') as Hwf2.
  rewrite Hcr in Hwf2. apply create_spec in Hcr.
  destruct e2 as [no|]; cbn [fst snd pathError] in Hr.
  { subst d2. stop_here. }
  destruct Hcr as (Hd2 & Hkjs0 & Hnodir).
  assert (Hwf2' : wellFormed H d2) by (by apply Hwf2).
  subst d2. clear Hwf2.
  rewrite bind_assoc, bind_check_None in Hr.
  unfold File_WriteString in Hr. rewrite bind_assoc, bind_sys in Hr.
  cbn [disk logged fst snd] in Hr. rewrite Hkjs in Hr.
  unfold append in Hr. rewrite lookup_insert_eq in Hr.
  cbn [fst snd pathError app] in Hr. rewrite insert_insert_eq in Hr.
  rewrite bind_check_None in Hr.
  set (d3 := <[kjs := File js]> d1) in *.
  assert (Hwf3 : wellFormed H d3).
  { unfold d3. rewrite <- (insert_insert_eq d1 kjs (File js) (File [])).
    eapply wellFormed_insert_file; [done|]. by rewrite lookup_insert_eq. }
  assert (Hk3 : keeps K (disk w) d3).
  { eapply keeps_trans; [exact Hk1|].
    eapply keeps_mono; [|by apply keeps_insert_file]. done. }
  assert (Hs3 : d3 !! s = Some (File c)).
  { unfold d3. by rewrite lookup_insert_ne. }
  (* removing the source *)
  unfold os_Remove in Hr. rewrite bind_sys in Hr.
  cbn [disk logged fst snd] in Hr. rewrite Hks in Hr.
  assert (Hrm : remove s d3 = (None, delete s d3)).
  { unfold remove. by rewrite Hs3. }
  rewrite Hrm in Hr. cbn [fst snd pathError] in Hr.
  change (check None ?x) with (Ok tt, x) in Hr.
  rewrite Hr. cbn [fst snd disk logged].
  split; [by eapply wellFormed_delete_file|].
  split; [by intros []; apply Hts|].
  intros _. split; [done|]. split; [by do 6 apply prefix_logged|]. split.
  { eapply keeps_trans; [exact Hk3|].
    eapply keeps_mono; [|by eapply keeps_delete_file]. done. }
  intros _ s1 ->. cbn [fst snd disk logged]. split; [|split; [|split]].
  - unfold fileAt. by rewrite lookup_delete_eq.
  - by do 5 apply elem_of_logged.
  - destruct Hdir1 as [b Hb]. exists b. rewrite Hps.
    rewrite lookup_delete_ne by congruence.
    unfold d3. rewrite lookup_insert_ne; [done|]. intros Heq.
    rewrite <- Heq in Hb. by destruct (Hnodir b).
  - exists s, c, js. split; [done|]. split; [done|]. split.
    + rewrite <- Hf1. unfold fileAt. by rewrite Hrd.
    + split; [done|]. rewrite Hjk. unfold fileAt.
      rewrite lookup_delete_ne by done. unfold d3. by rewrite lookup_insert_eq.
Qed.

(** ** Composing transpiler steps *)

Lemma touched_mono (R R' : list gostring → Prop) q :
  (∀ s, R s → R' s) → touched R q → touched R' q.
Proof. intros HR (s & Hs & Hq). exists s. auto. Qed.

Lemma transpiled_equiv E d0 d1 (R R' : list gostring → Prop) w r :
  (∀ s, R' s ↔ R s) →
  (∀ s, R s → fileAt d0 s = fileAt d1 s) →
  transpiled E d1 R w r → transpiled E d0 R' w r.
Proof.
  intros HR Hd (H1 & H2 & H3 & H4). split; [done|]. split; [done|]. split.
  - eapply keeps_mono; [|exact H3]. intros q. apply touched_mono.
    intros s. apply HR.
  - intros Hok s Hs%HR. destruct (H4 Hok s Hs) as (G1 & G2 & G3 & s2 & c & js & G4).
    split; [done|]. split; [done|]. split; [done|].
    exists s2, c, js. destruct G4 as (G4 & G5 & G6 & G7).
    split; [by apply HR|]. split; [done|]. split; [|done].
    by rewrite Hd.
Qed.

Lemma transpiled_none E d0 (R : list gostring → Prop) w :
  (∀ s, ¬ R s) → transpiled E d0 R w (Ok tt, w).
Proof.
  intros HR. split; [done|]. split; [done|]. split; [apply keeps_refl|].
  intros _ s Hs. by destruct (HR s).
Qed.

Lemma transpiled_bind E d0 (R1 R2 : list gostring → Prop) (m k : M unit) w :
  sources R1 → sources R2 →
  transpiled E d0 R1 w (m w) →
  (∀ w1, m w = (Ok tt, w1) → transpiled E d0 R2 w1 (k w1)) →
  transpiled E d0 (λ s, R1 s ∨ R2 s) w (bind m (λ _, k) w).
Proof.
  intros S1 S2 (A1 & A2 & A3 & A4) Hk. unfold bind.
  destruct (m w) as [[[]|f|p|] w1] eqn:Hm; cbn [fst snd] in *.
  - destruct (Hk w1 eq_refl) as (B1 & B2 & B3 & B4).
    split; [done|]. split; [by etrans|]. split.
    + eapply keeps_trans; (eapply keeps_mono; [|eassumption]);
        intros q; apply touched_mono; auto.
    + intros Hok s [Hs|Hs]; [|destruct (B4 Hok s Hs)
          as (G1 & G2 & G3 & s2 & c & js & G4 & G5); 
        split; [done|]; split; [done|]; split; [done|];
        exists s2, c, js; split; [by right|done]].
      destruct (A4 eq_refl s Hs) as (G1 & G2 & [b G3] & s2 & c & js & G4 & G5 & G6 & G7 & G8).
      destruct (S1 s Hs) as [Hts Hname].
      split; [|split; [|split]].
      * destruct B3 as [_ B3].
        destruct (B3 s) as [Heq|(s' & Hs' & [Heq|Heq])]; [by rewrite Heq| |].
        -- rewrite Heq. by apply (B4 Hok).
        -- destruct (S2 s' Hs') as [_ Hn']. by destruct (isTsKey_not_jsKey s s').
      * destruct B2 as [l ->]. apply elem_of_app. by left.
      * exists b. by apply B3.
      * destruct B3 as [_ B3].
        destruct (B3 (jsKey s)) as [Heq|(s' & Hs' & [Heq|Heq])].
        -- exists s2, c, js. split; [by left|]. split; [done|]. split; [done|].
           split; [done|]. by rewrite Heq.
        -- destruct (S2 s' Hs') as [Hts' _]. symmetry in Heq.
           by destruct (isTsKey_not_jsKey s' s).
        -- destruct (B4 Hok s' Hs') as (_ & _ & _ & s3 & c3 & js3 & F1 & F2 & F3 & F4 & F5).
           exists s3, c3, js3. split; [by right|]. split; [congruence|].
           split; [done|]. split; [done|]. by rewrite Heq.
  - split; [done|]. split; [done|]. split; [|done].
    eapply keeps_mono; [|exact A3]. intros q. apply touched_mono. auto.
  - split; [done|]. split; [done|]. split; [|done].
    eapply keeps_mono; [|exact A3]. intros q. apply touched_mono. auto.
  - done.
Qed.

Lemma nameOf_no_sep d0 s nd : namesOk d0 → d0 !! s = Some nd → "/"%char ∉ nameOf s.
Proof.
  intros Hok Hs. specialize (Hok _ _ Hs). unfold nameOf.
  destruct (last s) as [n|] eqn:Hl; [|cbn; apply not_elem_of_nil].
  apply last_Some in Hl as [s' ->]. apply Forall_app in Hok as [_ Hn].
  rewrite Forall_singleton in Hn. apply Hn.
Qed.

Lemma entryTs_key d0 k e s :
  (∃ nd, d0 !! (k ++ [Name e]) = Some nd) → entryTs d0 k e s →
  ∃ nd, d0 !! s = Some nd.
Proof.
  intros Hent (rel & -> & (rel' & -> & Hrel) & _). destruct (IsDir e).
  - apply reachableFile_file in Hrel as [c Hc]. exists (File c).
    by rewrite <- app_assoc in Hc.
  - by subst rel'.
Qed.

Lemma sources_entryTs d0 k e :
  namesOk d0 → (∃ nd, d0 !! (k ++ [Name e]) = Some nd) → sources (entryTs d0 k e).
Proof.
  intros Hok Hent s Hs. split; [by destruct Hs as (? & _ & _ & ?)|].
  destruct (entryTs_key _ _ _ _ Hent Hs) as [nd Hnd]. by eapply nameOf_no_sep.
Qed.

(** What a step on one entry of a directory leaves of the other entries. *)
Lemma agrees_step d0 d1 d2 k e e' :
  namesOk d0 → Name e ≠ Name e' →
  (∃ nd, d0 !! (k ++ [Name e]) = Some nd) →
  (∃ nd, d0 !! (k ++ [Name e']) = Some nd ∧ IsDir e' = isDirNode nd) →
  keeps (λ _, True) d0 d2 →
  keeps (touched (entryTs d0 k e)) d1 d2 →
  IsDir e' = true ∨ isTsKey (k ++ [Name e']) →
  agrees d0 d1 (k ++ [Name e']) → agrees d0 d2 (k ++ [Name e']).
Proof.
  intros Hok Hne Hent (nd' & Hnd' & Hkind) [HD _] [_ HF] Hcase Hag q Hq.
  destruct (HF q) as [Heq|(s & Hs & Hqs)]; [rewrite Heq; by apply Hag|].
  destruct (sources_entryTs d0 k e Hok Hent s Hs) as [Hts Hname].
  destruct Hs as (rel & -> & (rel' & -> & Hrel) & _).
  destruct Hqs as [->| ->].
  - apply prefix_app_inv, prefix_cons_inv_1 in Hq. by destruct Hne.
  - destruct rel' as [|x rel' _] using rev_ind.
    + rewrite jsKey_snoc in Hq |- *. pose proof Hq as Hq'.
      apply prefix_app_inv, prefix_cons_inv_1 in Hq'. rewrite <- Hq' in *.
      destruct Hcase as [Hdir|Hts'].
      * destruct nd' as [c|b]; [by rewrite Hdir in Hkind|].
        unfold fileAt. by rewrite (HD _ _ Hnd'), Hnd'.
      * rewrite Hq' in Hts'. rewrite <- jsKey_snoc in Hts'.
        destruct (isTsKey_not_jsKey _ (k ++ [Name e]) Hts'); [|done].
        by rewrite nameOf_snoc in Hname |- *.
    + rewrite app_comm_cons, app_assoc, jsKey_snoc, <- app_assoc in Hq.
      apply prefix_app_inv in Hq. rewrite <- app_comm_cons in Hq.
      apply prefix_cons_inv_1 in Hq. by destruct Hne.
Qed.

Lemma transpiled_forEach E H d0 k (l : list DirEntry) (body : DirEntry → M unit) :
  namesOk d0 →
  NoDup (Name <$> l) →
  (∀ e, e ∈ l → ∃ nd, d0 !! (k ++ [Name e]) = Some nd ∧ IsDir e = isDirNode nd) →
  (∀ e w1, e ∈ l → wellFormed H (disk w1) → keeps (λ _, True) d0 (disk w1) →
     (IsDir e = true ∨ isTsKey (k ++ [Name e]) → agrees d0 (disk w1) (k ++ [Name e])) →
     wellFormed H (disk (body e w1).2)
     ∧ transpiled E d0 (entryTs d0 k e) w1 (body e w1)) →
  ∀ w1, wellFormed H (disk w1) → keeps (λ _, True) d0 (disk w1) →
    (∀ e, e ∈ l → IsDir e = true ∨ isTsKey (k ++ [Name e]) →
       agrees d0 (disk w1) (k ++ [Name e])) →
    wellFormed H (disk (forEach l body w1).2)
    ∧ transpiled E d0 (λ s, ∃ e, e ∈ l ∧ entryTs d0 k e s) w1 (forEach l body w1).
Proof.
  intros Hok Hnd Hent. induction l as [|e l IH]; intros Hbody w1 Hwf Hkept Hag.
  - split; [done|]. apply transpiled_none. intros s (e & He & _).
    by apply elem_of_nil in He.
  - rewrite fmap_cons in Hnd. apply NoDup_cons in Hnd as [Hnotin Hnd].
    destruct (Hent e) as (nd & Hnde & Hkind); [by left|].
    destruct (Hbody e w1) as [Hwf2 T1]; [by left|done|done|apply Hag; by left|].
    assert (Hrest : ∀ w2, body e w1 = (Ok tt, w2) →
              wellFormed H (disk (forEach l body w2).2)
              ∧ transpiled E d0 (λ s, ∃ e', e' ∈ l ∧ entryTs d0 k e' s) w2
                  (forEach l body w2)).
    { intros w2 Hrun. rewrite Hrun in Hwf2, T1. cbn [fst snd] in Hwf2.
      destruct T1 as (_ & _ & T1 & _). cbn [fst snd] in T1.
      assert (Hkept2 : keeps (λ _, True) d0 (disk w2)).
      { eapply keeps_trans; [exact Hkept|]. eapply keeps_mono; [|exact T1]. done. }
      apply IH; [done|by intros e' He'; apply Hent; right| |done|done|].
      - intros e' w3 He'. apply Hbody. by right.
      - intros e' He' Hcase.
        apply (agrees_step d0 (disk w1) (disk w2) k e e'); try done.
        + intros Heq. apply Hnotin. apply list_elem_of_fmap. by exists e'.
        + by exists nd.
        + apply Hent. by right.
        + apply Hag; [by right|done]. }
    cbn [forEach]. split.
    + unfold bind. destruct (body e w1) as [[[]|f|p|] w2] eqn:Hm; try done.
      by apply Hrest.
    + eapply transpiled_equiv; [| |apply (transpiled_bind E d0 (entryTs d0 k e)
           (λ s, ∃ e', e' ∈ l ∧ entryTs d0 k e' s))].
      * intros s. split.
        -- intros (e' & [->|He']%elem_of_cons & Hs); [by left|]. right. by exists e'.
        -- intros [Hs|(e' & He' & Hs)]; [exists e; split; [by left|done]|].
           exists e'. split; [by right|done].
      * done.
      * apply sources_entryTs; [done|by exists nd].
      * intros s (e' & He' & Hs). destruct (Hent e') as (nd' & Hnd' & _); [by right|].
        apply (sources_entryTs d0 k e'); [done|by exists nd'|done].
      * done.
      * intros w2 Hrun. by apply Hrest.
Qed.

(** ** The walk of the transpiler pass *)

Lemma fileAt_Some d q c : fileAt d q = Some c ↔ d !! q = Some (File c).
Proof.
  unfold fileAt. destruct (d !! q) as [[c'|b]|]; split; try done; congruence.
Qed.

Lemma closed_ancestors d a b nd :
  closed d → a ≠ [] → b ≠ [] → d !! (a ++ b) = Some nd →
  ∃ bb, d !! a = Some (Dir bb).
Proof.
  intros Hc Ha. revert nd. induction b as [|x b IH] using rev_ind; [done|].
  intros nd _ Hnd. apply Hc in Hnd as [bb Hbb].
  rewrite app_assoc, parent_snoc in Hbb.
  destruct b as [|y b].
  - rewrite app_nil_r in Hbb. exists bb. by apply stat_dir_lookup.
  - apply (IH (Dir bb)); [done|]. apply stat_dir_lookup; [|done]. by destruct a.
Qed.

Lemma agrees_app d0 d k rel : agrees d0 d k → agrees d0 d (k ++ rel).
Proof.
  intros Hag q Hq. apply Hag. etrans; [|exact Hq]. by apply prefix_app_r.
Qed.

Lemma reachableFile_transfer d0 d rel :
  closed d0 → keeps (λ _, True) d0 d →
  ∀ k, agrees d0 d k → k ≠ [] → (∃ b, d0 !! k = Some (Dir b)) →
    reachableFile d k rel ↔ reachableFile d0 k rel.
Proof.
  intros Hc [HD _]. induction rel as [|n rel IH]; intros k Hag Hk [b Hb]; [done|].
  rewrite !reachableFile_cons.
  assert (Hstat : stat d k = Some (Dir true) ↔ stat d0 k = Some (Dir true)).
  { destruct k; [done|]. cbn. rewrite Hb, (HD _ _ Hb). done. }
  assert (Hfile : ∀ q c, k `prefix_of` q →
            d !! q = Some (File c) ↔ d0 !! q = Some (File c)).
  { intros q c Hq. rewrite <- !fileAt_Some. by rewrite (Hag q Hq). }
  destruct rel as [|n' rel].
  - rewrite Hstat. split; intros [? [c Hcc]]; (split; [done|]); exists c;
      by apply (Hfile (k ++ [n]) c); [apply prefix_app_r|].
  - assert (Hnext : k ++ [n] ≠ []) by (by destruct k).
    rewrite Hstat. split.
    + intros (? & _ & Hrel). split; [done|].
      assert (Hdir : ∃ b', d0 !! (k ++ [n]) = Some (Dir b')).
      { destruct (reachableFile_file _ _ _ Hrel) as [c Hcc].
        apply Hfile in Hcc; [|rewrite <- app_assoc; by apply prefix_app_r].
        by apply (closed_ancestors d0 (k ++ [n]) (n' :: rel) (File c)). }
      split; [done|]. apply IH; [by apply agrees_app|done|done|done].
    + intros (? & [b' Hb'] & Hrel). split; [done|].
      split; [exists b'; by apply HD|].
      apply IH; [by apply agrees_app|done|by exists b'|done].
Qed.

Lemma agrees_refl d k : agrees d d k.
Proof. by intros q _. Qed.

Lemma transpile_walk E H fuel :
  ∀ rels w,
    Forall validName rels → wellFormed H (disk w) →
    H ≤ fuel + length (str "public" :: rels) →
    wellFormed H (disk (walk (S fuel) (pathBelow (str "public") rels)
                          (transpileVisit E) w).2)
    ∧ transpiled E (disk w) (tsUnder (disk w) (str "public" :: rels)) w
        (walk (S fuel) (pathBelow (str "public") rels) (transpileVisit E) w).
Proof.
  induction fuel as [fuel IH] using lt_wf_ind.
  intros rels w Hrels Hwf Hh.
  set (k := str "public" :: rels) in *.
  set (d0 := disk w).
  assert (Hk : components (pathBelow (str "public") rels) = k)
    by (by apply components_pathBelow).
  cbn [walk]. unfold os_ReadDir. rewrite bind_sys. cbn [fst snd]. rewrite Hk.
  fold d0.
  set (w0 := logged w d0 "os.ReadDir" [pathBelow (str "public") rels]).
  set (items := (readDir k d0).1).
  set (body := λ item : DirEntry,
         if negb (IsDir item)
         then transpileVisit E (pathBelow (str "public") rels ++ str "/" ++ Name item)
         else walk fuel (pathBelow (str "public") rels ++ str "/" ++ Name item)
                   (transpileVisit E)).
  change (wellFormed H (disk (forEach items body w0).2)
          ∧ transpiled E d0 (tsUnder d0 k) w (forEach items body w0)).
  destruct Hwf as (Hok & Hcl & Hb).
  assert (Hloop : wellFormed H (disk (forEach items body w0).2)
          ∧ transpiled E d0 (λ s, ∃ e, e ∈ items ∧ entryTs d0 k e s) w0
              (forEach items body w0)).
  { apply (transpiled_forEach E H d0 k items body);
      [done| | | |done|apply keeps_refl|intros e _ _; apply agrees_refl].
    - apply readDir_NoDup.
    - intros e He. by apply readDir_spec in He as (_ & nd & Hnd & Hkind); exists nd.
    - intros e w1 He Hwf1 Hkept Hag.
      apply readDir_spec in He as (Hstat & nd & Hnd & Hkind).
      assert (Hname : validName (Name e)).
      { specialize (Hok _ _ Hnd). apply Forall_app in Hok as [_ Hn].
        by rewrite Forall_singleton in Hn. }
      assert (Hlen : length (k ++ [Name e]) ≤ H) by (by eapply Hb).
      unfold body.
      change (pathBelow (str "public") rels ++ str "/" ++ Name e)
        with (pathBelow (str "public") rels ++ "/"%char :: Name e).
      rewrite <- pathBelow_snoc.
      destruct (IsDir e) eqn:Hdir; cbn [negb].
      + destruct nd as [c|b]; [done|].
        rewrite length_app in Hlen. cbn [length] in Hlen, Hh.
        destruct fuel as [|m]; [lia|].
        destruct (IH m (Nat.lt_succ_diag_r m) (rels ++ [Name e]) w1) as [W1 W2];
          [apply Forall_app; split; [done|by apply Forall_singleton]|done| |].
        { unfold k in Hh. cbn [length] in Hh |- *. rewrite length_app.
          cbn [length]. lia. }
        split; [done|].
        assert (Hag' : agrees d0 (disk w1) (k ++ [Name e])) by (apply Hag; by left).
        eapply transpiled_equiv; [| |exact W2].
        * intros s. unfold entryTs, tsUnder, belowEntry. rewrite Hdir.
          change (str "public" :: rels ++ [Name e]) with (k ++ [Name e]).
          split.
          -- intros (rel & -> & (rel' & -> & Hrel) & Hts). exists rel'.
             split; [by rewrite <- app_assoc|]. split; [|done].
             apply (reachableFile_transfer d0 (disk w1) rel' Hcl Hkept
                      (k ++ [Name e]) Hag'); [by unfold k|by exists b|done].
          -- intros (rel' & -> & Hrel & Hts). exists (Name e :: rel').
             split; [by rewrite <- app_assoc|]. split; [|done].
             exists rel'. split; [done|].
             apply (reachableFile_transfer d0 (disk w1) rel' Hcl Hkept
                      (k ++ [Name e]) Hag'); [by unfold k|by exists b|done].
        * intros s (rel' & -> & _). symmetry. apply Hag'. by apply prefix_app_r.
      + destruct (transpileVisit_effect E H rels (Name e) w1 Hrels Hname)
          as (V1 & V2 & V3); [done|done|].
        fold k in V2, V3. change (str "public" :: rels ++ [Name e])
          with (k ++ [Name e]) in V2, V3.
        split; [done|].
        destruct (decide (isTsKey (k ++ [Name e]))) as [Hts|Hts].
        * eapply transpiled_equiv; [| |exact (V3 Hts)].
          -- intros s. unfold entryTs, belowEntry. rewrite Hdir. split.
             ++ by intros (rel & -> & (rel' & -> & ->) & _).
             ++ intros ->. exists [Name e]. split; [done|]. split; [|done].
                by exists [].
          -- intros s ->. symmetry. apply Hag; [by right|done].
        * rewrite (V2 Hts). apply transpiled_none.
          intros s (rel & -> & (rel' & -> & Hrel) & Hs). rewrite Hdir in Hrel.
          by subst rel'.
  }
  destruct Hloop as [L1 L2]. split; [done|].
  destruct L2 as (T1 & T2 & T3 & T4). split; [done|]. split.
  { etrans; [|exact T2]. by apply prefix_app_r. }
  assert (HR : ∀ s, tsUnder d0 k s ↔ ∃ e, e ∈ items ∧ entryTs d0 k e s).
  { intros s. unfold tsUnder, entryTs. split.
    - intros (rel & -> & Hrel & Hts).
      apply (reachableFile_entries d0 k rel items) in Hrel as (e & He & Hbe); [|done].
      exists e. split; [done|]. by exists rel.
    - intros (e & He & rel & -> & Hbe & Hts). exists rel. split; [done|].
      split; [|done]. apply (reachableFile_entries d0 k rel items); [done|].
      by exists e. }
  split.
  - eapply keeps_mono; [|exact T3]. intros q. apply touched_mono. intros s. apply HR.
  - intros Hrun s Hs%HR. destruct (T4 Hrun s Hs) as (G1 & G2 & G3 & s2 & c & js & G4 & G5).
    split; [done|]. split; [done|]. split; [done|]. exists s2, c, js.
    split; [by apply HR|done].
Qed.

(** ** The transpiler pass *)

Lemma wellFormedb_spec H d : wellFormedb H d = true → wellFormed H d.
Proof.
  intros Hb. apply bool_decide_eq_true_1 in Hb. split; [|split].
  - intros q nd Hq. by destruct (Hb q nd Hq).
  - intros q nd Hq. destruct (Hb q nd Hq) as (_ & Hp & _).
    destruct (stat d (parent q)) as [[c|b]|]; try done. by exists b.
  - intros q nd Hq. by destruct (Hb q nd Hq) as (_ & _ & ?).
Qed.

Lemma wellFormed_height d : namesOk d → closed d → wellFormed (height d) d.
Proof. intros Hn Hc. split; [done|]. split; [done|]. intros q nd. apply height_le. Qed.

Lemma wellFormed_bound H d : wellFormed H d → height d ≤ H.
Proof.
  intros (_ & _ & Hb). unfold height.
  assert (Hall : Forall (λ kv : list gostring * node, length kv.1 ≤ H) (map_to_list d)).
  { apply Forall_forall. intros [q nd] Hq. apply elem_of_map_to_list in Hq.
    by eapply Hb. }
  induction Hall as [|x l Hx Hl IH]; [cbn; lia|]. rewrite fmap_cons. cbn [foldr]. lia.
Qed.

Lemma transpileTypescript_spec E fuel w :
  namesOk (disk w) → closed (disk w) → height (disk w) < fuel →
  wellFormed (height (disk w)) (disk (transpileTypescript E fuel w).2)
  ∧ transpiled E (disk w) (tsUnder (disk w) [str "public"]) w
      (transpileTypescript E fuel w).
Proof.
  intros Hn Hc Hh. destruct fuel as [|fuel]; [lia|].
  apply (transpile_walk E (height (disk w)) fuel [] w); [done| |cbn; lia].
  by apply wellFormed_height.
Qed.

(** The output of a source lies at the path of the source with its
    extension changed. *)
Lemma jsKey_changeExtension rels n :
  Forall validName rels → validName n →
  components (changeExtension (pathBelow (str "public") (rels ++ [n])) (str ".js"))
  = jsKey (str "public" :: rels ++ [n]).
Proof.
  intros Hrels Hn. rewrite pathBelow_snoc.
  assert (Hsl : "/"%char ∉ n) by apply Hn.
  rewrite changeExtension_stem; [|done|apply spaceWidth_pathBelow_public].
  rewrite components_app, components_pathBelow by done.
  pose proof (jsName_valid n Hsl) as Hj.
  rewrite (components_name (stemOf n ++ str ".js")); [|apply Hj..].
  change (str "public" :: rels ++ [n]) with ((str "public" :: rels) ++ [n]).
  by rewrite jsKey_snoc.
Qed.

Example jsKey_example :
  jsKey [str "public"; str "x"; str "y.ts"] = [str "public"; str "x"; str "y.js"]
  ∧ isTsKey [str "public"; str "x"; str "y.ts"]
  ∧ joinPath (str "public" :: parent [str "public"; str "x"; str "y.ts"])
    = str "public/public/x".
Proof. vm_compute. done. Qed.

Lemma tsKey_ext s : isTsKey s → getExtension ("/"%char :: nameOf s) = str ".ts".
Proof. done. Qed.

(** C5 (as the code has it): the pass does not run out of fuel on a
    well-formed file system; whatever its outcome, a regular file changes
    only if it is a TypeScript source that can be reached from [public] or
    lies at the path of such a source with the extension changed to [.js]
    (an older [.js] file there is overwritten), so every file whose
    extension is neither [.ts] nor [.js] is untouched; and when the pass
    completes, no such source is a regular file any more, and the [.js] path
    of each holds the transpiled contents of a source with that [.js] path. *)
Theorem C5_transpile_pass (E : Engines) (fuel : nat) (w : World) :
  namesOk (disk w) → closed (disk w) → height (disk w) < fuel →
  let r := transpileTypescript E fuel w in
  r.1 ≠ OutOfFuel
  ∧ (∀ q, (∀ s, tsUnder (disk w) [str "public"] s → q ≠ s ∧ q ≠ jsKey s) →
       fileAt (disk r.2) q = fileAt (disk w) q)
  ∧ (∀ q, getExtension ("/"%char :: nameOf q) ≠ str ".ts" →
          getExtension ("/"%char :: nameOf q) ≠ str ".js" →
          fileAt (disk r.2) q = fileAt (disk w) q)
  ∧ (r.1 = Ok tt →
     ∀ s, tsUnder (disk w) [str "public"] s →
       fileAt (disk r.2) s = None
       ∧ ∃ s2 c js,
           tsUnder (disk w) [str "public"] s2 ∧ jsKey s2 = jsKey s
           ∧ fileAt (disk w) s2 = Some c ∧ TranspileString E c = inl js
           ∧ fileAt (disk r.2) (jsKey s) = Some js).
Proof.
  intros Hn Hc Hh r.
  destruct (transpileTypescript_spec E fuel w Hn Hc Hh) as [_ (T1 & T2 & T3 & T4)].
  fold r in T1, T2, T3, T4.
  assert (Hframe : ∀ q, (∀ s, tsUnder (disk w) [str "public"] s → q ≠ s ∧ q ≠ jsKey s) →
            fileAt (disk r.2) q = fileAt (disk w) q).
  { intros q Hq. apply (keeps_out _ _ _ _ T3). intros (s & Hs & Hqs).
    destruct (Hq s Hs). by destruct Hqs. }
  split; [done|]. split; [done|]. split.
  - intros q Hts Hjs. apply Hframe. intros s Hs. split.
    + intros ->. destruct Hs as (_ & _ & _ & Hs). by apply Hts.
    + intros ->. destruct Hs as (rel & -> & Hrel & _).
      apply reachableFile_file in Hrel as [c Hcc].
      pose proof (nameOf_no_sep _ _ _ Hn Hcc) as Hname.
      apply Hjs. unfold jsKey. rewrite nameOf_snoc. by apply getExtension_js.
  - intros Hok s Hs. destruct (T4 Hok s Hs) as (G1 & _ & _ & G2). done.
Qed.

(** C5, as stated, fails in three ways.  A file with another extension
    is not left alone: the output root holds [y.ts] next to an older
    [y.js]; the pass completes, and [y.js], which is not a TypeScript
    source, has been overwritten.  A TypeScript file is left as it is:
    [a.b.ts] has the extension [.b.ts] for [getExtension], so the pass
    completes with [a.b.ts] in place and no [a.b.js].  And the [.js] file
    of a source does not always hold its output: [y.ts] and the file whose
    name is [y.ts] followed by a space are both sources, both go to
    [y.js], and the pass completes with the output of the second one
    there. *)
Lemma C5_counterexample :
  (let r := transpileTypescript toyEngines 5 scriptWorld in
   r.1 = Ok tt
   ∧ getExtension (str "public/y.js") = str ".js"
   ∧ fileAt (disk scriptWorld) (components (str "public/y.js")) = Some (str "old")
   ∧ fileAt (disk r.2) (components (str "public/y.js")) = Some (str "js:let y")
   ∧ fileAt (disk r.2) (components (str "public/y.ts")) = None)
  ∧ (let r := transpileTypescript toyEngines 5 dottedScriptWorld in
     r.1 = Ok tt
     ∧ getExtension (str "public/a.b.ts") = str ".b.ts"
     ∧ fileAt (disk dottedScriptWorld) (components (str "public/a.b.ts"))
       = Some (str "let ab")
     ∧ fileAt (disk r.2) (components (str "public/a.b.ts")) = Some (str "let ab")
     ∧ fileAt (disk r.2) (components (str "public/a.b.js")) = None
     ∧ getExtension (str "public/y.ts") = str ".ts"
     ∧ getExtension (str "public/y.ts ") = str ".ts"
     ∧ changeExtension (str "public/y.ts ") (str ".js") = str "public/y.js"
     ∧ fileAt (disk dottedScriptWorld) (components (str "public/y.ts"))
       = Some (str "let y")
     ∧ fileAt (disk dottedScriptWorld) (components (str "public/y.ts "))
       = Some (str "let z")
     ∧ TranspileString toyEngines (str "let y") = inl (str "js:let y")
     ∧ fileAt (disk r.2) (components (str "public/y.ts")) = None
     ∧ fileAt (disk r.2) (components (str "public/y.ts ")) = None
     ∧ fileAt (disk r.2) (components (str "public/y.js"))
       = Some (str "js:let z")).
Proof. split; vm_compute; done. Qed.

Lemma C5_transpile_pass_witness :
  (namesOk (disk scriptWorld) ∧ closed (disk scriptWorld)
   ∧ height (disk scriptWorld) < 5)
  ∧ let r := transpileTypescript toyEngines 5 scriptWorld in
    r.1 ≠ OutOfFuel
    ∧ (∀ q, (∀ s, tsUnder (disk scriptWorld) [str "public"] s → q ≠ s ∧ q ≠ jsKey s) →
         fileAt (disk r.2) q = fileAt (disk scriptWorld) q)
    ∧ (∀ q, getExtension ("/"%char :: nameOf q) ≠ str ".ts" →
            getExtension ("/"%char :: nameOf q) ≠ str ".js" →
            fileAt (disk r.2) q = fileAt (disk scriptWorld) q)
    ∧ (r.1 = Ok tt →
       ∀ s, tsUnder (disk scriptWorld) [str "public"] s →
         fileAt (disk r.2) s = None
         ∧ ∃ s2 c js,
             tsUnder (disk scriptWorld) [str "public"] s2 ∧ jsKey s2 = jsKey s
             ∧ fileAt (disk scriptWorld) s2 = Some c
             ∧ TranspileString toyEngines c = inl js
             ∧ fileAt (disk r.2) (jsKey s) = Some js).
Proof.
  assert (Hwf : wellFormed 3 (disk scriptWorld))
    by (apply wellFormedb_spec; vm_compute; reflexivity).
  destruct Hwf as (Hn & Hc & _).
  assert (Hh : height (disk scriptWorld) < 5) by (vm_compute; lia).
  split; [done|]. exact (C5_transpile_pass toyEngines 5 scriptWorld Hn Hc Hh).
Defined.

Lemma public_not_js n : "/"%char ∉ n → str "public" ≠ stemOf n ++ str ".js".
Proof.
  intros Hn Heq. pose proof (getExtension_js n Hn) as Hext.
  rewrite <- Heq in Hext. vm_compute in Hext. discriminate Hext.
Qed.

(** C10: on a well-formed file system the pass does not run out of fuel, and
    when it completes, for every TypeScript source that can be reached from
    [public], say [public/x/y.ts]: [os.MkdirAll] has been called on
    [public/public/x], that directory exists, the source is no longer a
    regular file and its [.js] path is one.  So with at least one source the
    directory [public/public] exists after the pass; and if there was no
    [public/public] before, no regular file lies below it afterwards. *)
Theorem C10_double_prefix_directories (E : Engines) (fuel : nat) (w : World) :
  namesOk (disk w) → closed (disk w) → height (disk w) < fuel →
  let r := transpileTypescript E fuel w in
  r.1 ≠ OutOfFuel
  ∧ (r.1 = Ok tt →
     (∀ s, tsUnder (disk w) [str "public"] s →
        Call "os.MkdirAll" [joinPath (str "public" :: parent s)] ∈ calls r.2
        ∧ (∃ b, disk r.2 !! (str "public" :: parent s) = Some (Dir b))
        ∧ fileAt (disk r.2) s = None
        ∧ ∃ js, fileAt (disk r.2) (jsKey s) = Some js)
     ∧ ((∃ s, tsUnder (disk w) [str "public"] s) →
        ∃ b, disk r.2 !! [str "public"; str "public"] = Some (Dir b)))
  ∧ (disk w !! [str "public"; str "public"] = None →
     ∀ q, [str "public"; str "public"] `prefix_of` q → fileAt (disk r.2) q = None).
Proof.
  intros Hn Hc Hh r.
  destruct (transpileTypescript_spec E fuel w Hn Hc Hh)
    as [(_ & Hc' & _) (T1 & T2 & T3 & T4)].
  fold r in Hc', T1, T2, T3, T4.
  split; [done|]. split.
  - intros Hok. split.
    + intros s Hs. destruct (T4 Hok s Hs) as (G1 & G2 & G3 & s2 & c & js & G4).
      split; [done|]. split; [done|]. split; [done|]. exists js. apply G4.
    + intros (s & Hs). destruct (T4 Hok s Hs) as (_ & _ & [b Hb] & _).
      destruct Hs as (rel & -> & Hrel & _).
      destruct rel as [|x rel _] using rev_ind; [done|].
      rewrite app_assoc, parent_snoc in Hb.
      destruct rel as [|y rel]; [by exists b|].
      by apply (closed_ancestors (disk r.2) [str "public"; str "public"]
                  (y :: rel) (Dir b)).
  - intros Hnone q Hq.
    assert (Hbelow : ∀ q' nd, [str "public"; str "public"] `prefix_of` q' →
              disk w !! q' = Some nd → False).
    { intros q' nd [t ->] Hq'. destruct t as [|y t];
        [rewrite app_nil_r, Hnone in Hq'; discriminate Hq'|].
      destruct (closed_ancestors (disk w) [str "public"; str "public"]
                  (y :: t) nd) as [b Hb]; try done.
      rewrite Hnone in Hb. discriminate Hb. }
    destruct T3 as [_ T3].
    destruct (T3 q) as [Heq|(s & Hs & Hqs)].
    { rewrite Heq. unfold fileAt. destruct (disk w !! q) as [nd|] eqn:Hnd; [|done].
      by destruct (Hbelow q nd). }
    destruct Hs as (rel & -> & Hrel & _).
    pose proof (reachableFile_file _ _ _ Hrel) as [c Hcc].
    pose proof (nameOf_no_sep _ _ _ Hn Hcc) as Hname.
    destruct Hqs as [-> | ->]; [by destruct (Hbelow _ _ Hq Hcc)|].
    destruct rel as [|x rel _] using rev_ind; [done|].
    rewrite app_assoc, nameOf_snoc in Hname.
    rewrite app_assoc, jsKey_snoc in Hq.
    destruct rel as [|y rel].
    + cbn in Hq. apply prefix_cons_inv_2, prefix_cons_inv_1 in Hq.
      by destruct (public_not_js x).
    + cbn in Hq. apply prefix_cons_inv_2, prefix_cons_inv_1 in Hq. subst y.
      exfalso. eapply Hbelow; [|exact Hcc]. by exists (rel ++ [x]).
Qed.

Lemma C10_double_prefix_directories_witness :
  (namesOk (disk scriptWorld) ∧ closed (disk scriptWorld)
   ∧ height (disk scriptWorld) < 5)
  ∧ let r := transpileTypescript toyEngines 5 scriptWorld in
    r.1 ≠ OutOfFuel
    ∧ (r.1 = Ok tt →
       (∀ s, tsUnder (disk scriptWorld) [str "public"] s →
          Call "os.MkdirAll" [joinPath (str "public" :: parent s)] ∈ calls r.2
          ∧ (∃ b, disk r.2 !! (str "public" :: parent s) = Some (Dir b))
          ∧ fileAt (disk r.2) s = None
          ∧ ∃ js, fileAt (disk r.2) (jsKey s) = Some js)
       ∧ ((∃ s, tsUnder (disk scriptWorld) [str "public"] s) →
          ∃ b, disk r.2 !! [str "public"; str "public"] = Some (Dir b)))
    ∧ (disk scriptWorld !! [str "public"; str "public"] = None →
       ∀ q, [str "public"; str "public"] `prefix_of` q → fileAt (disk r.2) q = None).
Proof.
  assert (Hwf : wellFormed 3 (disk scriptWorld))
    by (apply wellFormedb_spec; vm_compute; reflexivity).
  destruct Hwf as (Hn & Hc & _).
  assert (Hh : height (disk scriptWorld) < 5) by (vm_compute; lia).
  split; [done|].
  exact (C10_double_prefix_directories toyEngines 5 scriptWorld Hn Hc Hh).
Defined.

(** The run of the pass on the small output tree. *)
Example transpile_scriptWorld :
  let r := transpileTypescript toyEngines 5 scriptWorld in
  r.1 = Ok tt
  ∧ disk r.2
    = mkFS [ ("public", Dir true);
             ("public/y.js", File (str "js:let y"));
             ("public/x", Dir true);
             ("public/x/app.js", File (str "js:let a"));
             ("public/x/style.css", File (str "css"));
             ("public/public", Dir true);
             ("public/public/x", Dir true) ]
  ∧ calls r.2
    = [ Call "os.ReadDir" [str "public"];
        Call "os.ReadDir" [str "public/x"];
        Call "os.MkdirAll" [str "public/public/x"];
        Call "os.ReadFile" [str "public/x/app.ts"];
        Call "typescript.TranspileString" [str "let a"];
        Call "os.Create" [str "public/x/app.js"];
        Call "File.WriteString" [str "public/x/app.js"; str "js:let a"];
        Call "os.Remove" [str "public/x/app.ts"];
        Call "os.MkdirAll" [str "public/public"];
        Call "os.ReadFile" [str "public/y.ts"];
        Call "typescript.TranspileString" [str "let y"];
        Call "os.Create" [str "public/y.js"];
        Call "File.WriteString" [str "public/y.js"; str "js:let y"];
        Call "os.Remove" [str "public/y.ts"] ].
Proof.
  cbv zeta. split; [vm_compute; reflexivity|]. split.
  - apply (bool_decide_unpack _). vm_compute. exact I.
  - vm_compute. reflexivity.
Qed.

(** ** Invariants of runs *)

Section Safe.
Context (I : FS → Prop).

Lemma safe_ret {A : Type} (a : A) : safe I (ret a).
Proof. by intros w HI. Qed.

Lemma safe_exit {A : Type} (f : fatal) : safe I (@exit A f).
Proof. by intros w HI. Qed.

Lemma safe_panic {A : Type} (p : panicValue) : safe I (@panic A p).
Proof. by intros w HI. Qed.

Lemma safe_check (err : option error) : safe I (check err).
Proof. destruct err; [apply safe_exit|apply safe_ret]. Qed.

Lemma safe_sys {A : Type} (fn : string) (args : list gostring)
    (op : FS → A * FS) :
  (∀ d, I d → I (op d).2) → safe I (sys fn args op).
Proof. intros Hop w HI. rewrite sys_run. cbn. split; [by apply Hop|done]. Qed.

Lemma safe_bind {A B : Type} (m : M A) (k : A → M B) :
  safe I m → (∀ a, safe I (k a)) → safe I (bind m k).
Proof.
  intros Hm Hk w HI. destruct (Hm w HI) as [H1 H2]. unfold bind.
  destruct (m w) as [[a|f|p|] w1]; cbn [fst snd] in *; try done.
  by apply Hk.
Qed.

Lemma safe_forEach {A : Type} (l : list A) (body : A → M unit) :
  (∀ x, x ∈ l → safe I (body x)) → safe I (forEach l body).
Proof.
  induction l as [|x l IH]; intros Hbody; [apply safe_ret|].
  cbn [forEach]. apply safe_bind; [apply Hbody; by left|].
  intros _. apply IH. intros y Hy. apply Hbody. by right.
Qed.

Lemma safe_walk (H : nat) (root : gostring) (f : gostring → M unit) :
  (∀ d, I d → namesOk d ∧ bounded H d) →
  (∀ rels n, Forall validName rels → validName n →
     length (components root ++ rels ++ [n]) ≤ H →
     safe I (f (pathBelow root (rels ++ [n])))) →
  ∀ fuel rels, Forall validName rels →
    H ≤ fuel + length (components root ++ rels) →
    safe I (walk (S fuel) (pathBelow root rels) f).
Proof.
  intros HI Hf. induction fuel as [fuel IH] using lt_wf_ind.
  intros rels Hrels Hh w Hw.
  destruct (HI _ Hw) as [Hok Hb].
  assert (Hk : components (pathBelow root rels) = components root ++ rels)
    by (by apply components_pathBelow).
  cbn [walk]. unfold os_ReadDir. rewrite bind_sys. cbn [fst snd]. rewrite Hk.
  apply safe_forEach; [|done].
  intros e He. apply readDir_spec in He as (Hstat & nd & Hnd & Hkind).
  assert (Hname : validName (Name e)).
  { specialize (Hok _ _ Hnd). apply Forall_app in Hok as [_ Hn].
    by rewrite Forall_singleton in Hn. }
  assert (Hlen : length ((components root ++ rels) ++ [Name e]) ≤ H)
    by (by eapply Hb).
  change (pathBelow root rels ++ str "/" ++ Name e)
    with (pathBelow root rels ++ "/"%char :: Name e).
  rewrite <- pathBelow_snoc.
  destruct (IsDir e); cbn [negb].
  - rewrite length_app in Hlen. cbn [length] in Hlen.
    destruct fuel as [|m]; [lia|].
    apply (IH m); [lia|apply Forall_app; split; [done|by apply Forall_singleton]|].
    rewrite app_assoc, length_app. cbn [length]. lia.
  - apply Hf; [done|done|]. by rewrite app_assoc.
Qed.

End Safe.

(** *** Calls that leave the file system alone *)

Lemma safe_os_ReadDir (I : FS → Prop) name : safe I (os_ReadDir name).
Proof. apply safe_sys. by intros d Hd. Qed.

Lemma safe_os_Open (I : FS → Prop) name : safe I (os_Open name).
Proof. apply safe_sys. intros d Hd. by destruct (stat d _). Qed.

Lemma safe_os_ReadFile (I : FS → Prop) name : safe I (os_ReadFile name).
Proof. apply safe_sys. by intros d Hd. Qed.

Lemma safe_Markdown_Convert (I : FS → Prop) md source :
  safe I (Markdown_Convert md source).
Proof. apply safe_sys. intros d Hd. by destruct (md source). Qed.

Lemma safe_assertString (I : FS → Prop) v : safe I (assertString v).
Proof. destruct v; (apply safe_ret || apply safe_panic). Qed.

Lemma safe_assertMap (I : FS → Prop) v : safe I (assertMap v).
Proof. destruct v; (apply safe_ret || apply safe_panic). Qed.

Lemma safe_generateTemplates (I : FS → Prop) E directory :
  safe I (generateTemplates E directory).
Proof.
  assert (Hloop : ∀ includes layouts templates,
            safe I (parseLayouts E includes layouts templates)).
  { intros includes layouts. induction layouts as [|l layouts IH];
      intros templates; [apply safe_ret|].
    cbn [parseLayouts]. apply safe_bind; [apply safe_sys; by intros d Hd|].
    intros parsed. apply safe_bind; [|intros t; apply IH].
    destruct parsed; [apply safe_ret|apply safe_panic]. }
  unfold generateTemplates.
  apply safe_bind; [apply safe_sys; by intros d Hd|]. intros [layouts err].
  apply safe_bind; [apply safe_check|]. intros _.
  apply safe_bind; [apply safe_sys; by intros d Hd|]. intros [includes err'].
  apply safe_bind; [apply safe_check|]. intros _. apply Hloop.
Qed.

(** *** Calls that write below the output root *)

Lemma inPublic_take ks i : inPublic ks → 0 < i → inPublic (take i ks).
Proof.
  intros [t ->] Hi. destruct i as [|i]; [lia|]. cbn.
  by apply prefix_cons, prefix_nil.
Qed.

Lemma sound_os_MkdirAll H d0 path :
  outPath H path → safe (sound H d0) (os_MkdirAll path).
Proof.
  intros (Hv & Hlen & Hpub). apply safe_sys. intros d [Hwf Hun]. cbn [snd].
  split; [by apply wellFormed_mkdirAll|].
  eapply unchanged_trans; [exact Hun|]. apply unchanged_mkdirAll.
  intros i Hi. apply inPublic_take; [done|lia].
Qed.

Lemma sound_createDirectoryPath H d0 path :
  outPath H (filepath_Dir path) → safe (sound H d0) (createDirectoryPath path).
Proof.
  intros Hp. unfold createDirectoryPath.
  apply safe_bind; [by apply sound_os_MkdirAll|]. intros err. apply safe_check.
Qed.

Lemma sound_os_Create H d0 path :
  outPath H path → safe (sound H d0) (os_Create path).
Proof.
  intros (Hv & Hlen & Hpub). apply safe_sys. intros d [Hwf Hun]. cbn [snd].
  destruct (create (components path) d) as [[no|] d'] eqn:Hcr.
  - apply create_spec in Hcr as ->. by split.
  - split; [by eapply wellFormed_create|].
    apply create_spec in Hcr as (-> & _). eapply unchanged_trans; [exact Hun|].
    by apply unchanged_insert.
Qed.

Lemma sound_append H d0 k data d :
  inPublic k → sound H d0 d → sound H d0 (append k data d).2.
Proof.
  intros Hpub [Hwf Hun]. destruct (append k data d) as [[no|] d'] eqn:Hap.
  - apply append_spec in Hap as ->. by split.
  - apply append_spec in Hap as (c & Hc & ->). cbn [snd].
    split; [by eapply wellFormed_insert_file|].
    eapply unchanged_trans; [exact Hun|]. by apply unchanged_insert.
Qed.

Lemma sound_io_Copy H d0 dst src :
  inPublic (components dst) → safe (sound H d0) (io_Copy dst src).
Proof.
  intros Hpub. apply safe_sys. intros d Hd.
  destruct (readFile (components src) d) as [c [no|]]; [done|].
  cbn [snd]. by apply sound_append.
Qed.

Lemma sound_Template_ExecuteTemplate H d0 t wr name data :
  inPublic (components wr) →
  safe (sound H d0) (Template_ExecuteTemplate t wr name data).
Proof.
  intros Hpub. apply safe_sys. intros d Hd.
  pose proof (sound_append H d0 (components wr) (Execute t name data).1 d Hpub Hd)
    as Hap.
  cbv zeta. by destruct (append (components wr) (Execute t name data).1 d)
    as [[no|] d'].
Qed.

(** A bind whose continuation is run on the results of [m] only. *)
Lemma safe_bind_on {A B : Type} (I : FS → Prop) (P : A → Prop)
    (m : M A) (k : A → M B) :
  (∀ w a w1, m w = (Ok a, w1) → P a) →
  safe I m → (∀ a, P a → safe I (k a)) → safe I (bind m k).
Proof.
  intros HP Hm Hk w HI. destruct (Hm w HI) as [H1 H2]. unfold bind.
  pose proof (HP w) as HPw.
  destruct (m w) as [[a|f|p|] w1]; cbn [fst snd] in *; try done.
  apply Hk; [by eapply HPw|done].
Qed.

Lemma os_Create_handle name w a w1 : os_Create name w = (Ok a, w1) → a.1 = name.
Proof. unfold os_Create. rewrite sys_run. by intros [= <- _]. Qed.

Lemma sound_copyFile H d0 src dest :
  outPath H dest → safe (sound H d0) (copyFile src dest).
Proof.
  intros Hp. unfold copyFile.
  apply safe_bind; [apply safe_os_Open|]. intros [source err].
  apply safe_bind; [apply safe_check|]. intros _.
  apply (safe_bind_on _ (λ a, a.1 = dest)); [apply os_Create_handle|
    by apply sound_os_Create|].
  intros [destination err1] Hd. cbn in Hd. subst destination.
  apply safe_bind; [apply safe_check|]. intros _.
  apply safe_bind; [|intros e; apply safe_check].
  apply sound_io_Copy, Hp.
Qed.

Lemma sound_generateHtmlFile H d0 templates md source dest :
  outPath H (filepath_Dir dest) → outPath H dest →
  safe (sound H d0) (generateHtmlFile templates md source dest).
Proof.
  intros Hdir Hp. unfold generateHtmlFile.
  apply safe_bind; [apply safe_Markdown_Convert|]. intros [[buf metaData] err].
  apply safe_bind; [apply safe_check|]. intros _.
  destruct (isTrue (index metaData "Draft")); [apply safe_ret|].
  apply safe_bind; [by apply sound_createDirectoryPath|]. intros _.
  apply (safe_bind_on _ (λ a, a.1 = dest)); [apply os_Create_handle|
    by apply sound_os_Create|].
  intros [file err1] Hd. cbn in Hd. subst file.
  apply safe_bind; [apply safe_check|]. intros _. cbv zeta.
  apply safe_bind; [apply safe_assertString|]. intros title.
  apply safe_bind; [apply safe_assertString|]. intros summary.
  apply safe_bind; [apply safe_assertMap|]. intros pageParams.
  apply safe_bind; [apply safe_assertString|]. intros template.
  destruct (templates !! _) as [pageTemplate|]; [|apply safe_exit].
  apply safe_bind; [|intros e; apply safe_check].
  apply sound_Template_ExecuteTemplate, Hp.
Qed.

(** [os.RemoveAll] on the output root *)
Lemma sound_os_RemoveAll H d0 :
  safe (sound H d0) (os_RemoveAll (str "public")).
Proof.
  apply safe_sys. intros d [(Hn & Hc & Hb) Hun]. cbn [snd].
  change (components (str "public")) with [str "public"]. cbn [removeAll snd].
  set (keep := λ kv : list gostring * node, ¬ [str "public"] `prefix_of` kv.1).
  split; [split; [|split]|].
  - intros q nd Hq. apply map_lookup_filter_Some in Hq as [Hq _]. by eapply Hn.
  - intros q nd Hq. apply map_lookup_filter_Some in Hq as [Hq Hkeep].
    destruct (Hc q nd Hq) as [b Hb']. exists b.
    destruct (parent q) as [|a p] eqn:Hp; [done|]. cbn [stat] in *.
    apply map_lookup_filter_Some. split; [done|]. unfold keep. cbn.
    intros Hpre. apply Hkeep. cbn. etrans; [exact Hpre|].
    rewrite <- Hp. unfold parent. apply prefix_take.
  - intros q nd Hq. apply map_lookup_filter_Some in Hq as [Hq _]. by eapply Hb.
  - eapply unchanged_trans; [exact Hun|]. intros q Hq.
    destruct (d !! q) as [nd|] eqn:Hd.
    + by apply map_lookup_filter_Some.
    + apply map_lookup_filter_None. by left.
Qed.

(** *** The paths the build writes to *)

Lemma outPath_below H rels n :
  Forall validName rels → validName n →
  length (str "public" :: rels ++ [n]) ≤ H →
  outPath H (pathBelow (str "public") (rels ++ [n]))
  ∧ outPath H (filepath_Dir (pathBelow (str "public") (rels ++ [n]))).
Proof.
  intros Hrels Hn Hlen.
  assert (Hall : Forall validName (rels ++ [n])).
  { apply Forall_app. split; [done|by apply Forall_singleton]. }
  split.
  - unfold outPath. rewrite components_pathBelow by done.
    split; [|split; [done|by apply prefix_cons, prefix_nil]].
    constructor; [apply validName_public|done].
  - unfold outPath. rewrite pathBelow_snoc, components_Dir; [|apply Hn|].
    + rewrite components_pathBelow by done.
      split; [|split; [|by apply prefix_cons, prefix_nil]].
      * constructor; [apply validName_public|done].
      * rewrite components_public. cbn [length app] in Hlen |- *.
        rewrite length_app in Hlen. cbn [length] in Hlen. lia.
    + rewrite Split_pathBelow_root by done. apply Forall_app. split.
      * by repeat constructor.
      * by apply validName_not_dotdot.
Qed.

Lemma outPath_mirror H rels n :
  Forall validName rels → validName n →
  length (str "public" :: rels ++ [n]) ≤ H →
  outPath H (str "public/" ++ pathBelow [] (rels ++ [n]))
  ∧ outPath H (filepath_Dir (str "public/" ++ pathBelow [] (rels ++ [n]))).
Proof.
  intros Hrels Hn Hlen. destruct (mirror_dest rels n Hrels Hn) as [H1 H2].
  unfold outPath. rewrite H1, H2. split.
  - split; [|split; [done|by apply prefix_cons, prefix_nil]].
    constructor; [apply validName_public|].
    apply Forall_app. split; [done|by apply Forall_singleton].
  - split; [|split; [|by apply prefix_cons, prefix_nil]].
    + constructor; [apply validName_public|done].
    + cbn [length app] in Hlen |- *. rewrite length_app in Hlen.
      cbn [length] in Hlen. lia.
Qed.

(** The destination of a file of the content tree. *)
Lemma content_dest rels m :
  str "public/" ++ TrimPrefix (pathBelow (str "content") (rels ++ [m]))
                              (str "content/")
  = pathBelow (str "public") (rels ++ [m]).
Proof.
  destruct (rels ++ [m]) as [|x xs] eqn:Hx.
  { by destruct rels. }
  rewrite !pathBelow_cons, (pathBelow_root (_ ++ _ ++ x)).
  change (str "content" ++ str "/" ++ x) with (str "content/" ++ x).
  rewrite <- app_assoc, TrimPrefix_app.
  rewrite (pathBelow_root (str "public" ++ _)). by rewrite <- app_assoc.
Qed.

Lemma htmlName_valid n : "/"%char ∉ n → validName (stemOf n ++ str ".html").
Proof.
  intros Hn. destruct (stem_spec n Hn) as (_ & _ & Hs).
  assert (Hlen : 5 ≤ length (stemOf n ++ str ".html")).
  { rewrite length_app. cbn. lia. }
  split; [|split; [|split]].
  - intros H. rewrite H in Hlen. cbn in Hlen. lia.
  - intros H. rewrite H in Hlen. cbn in Hlen. lia.
  - intros H. rewrite H in Hlen. cbn in Hlen. lia.
  - rewrite not_elem_of_app. split; [done|].
    cbn. rewrite !not_elem_of_cons. repeat split; try done. apply not_elem_of_nil.
Qed.

(** *** The steps of the build before the transpiler *)

Lemma sound_wf H d0 d : sound H d0 d → namesOk d ∧ bounded H d.
Proof. by intros [(Hn & _ & Hb) _]. Qed.

Lemma sound_mirrorVisit H d0 root rels n :
  Forall validName rels → validName n →
  length (str "public" :: rels ++ [n]) ≤ H →
  safe (sound H d0) (mirrorVisit root (pathBelow root (rels ++ [n]))).
Proof.
  intros Hrels Hn Hlen. unfold mirrorVisit.
  rewrite (pathBelow_root root), TrimPrefix_app.
  destruct (outPath_mirror H rels n Hrels Hn Hlen) as [H1 H2].
  apply safe_bind; [by apply sound_createDirectoryPath|]. intros _.
  by apply sound_copyFile.
Qed.

Lemma sound_copyStaticDirectory H d0 fuel root :
  components root ≠ [] → H < fuel →
  safe (sound H d0) (copyStaticDirectory fuel root).
Proof.
  intros Hroot Hf. destruct fuel as [|fuel]; [lia|].
  change (copyStaticDirectory (S fuel) root)
    with (walk (S fuel) (pathBelow root []) (mirrorVisit root)).
  apply (safe_walk _ H); [apply sound_wf| |done|lia].
  intros rels n Hrels Hn Hlen. apply sound_mirrorVisit; [done|done|].
  rewrite length_app in Hlen. cbn [length].
  destruct (components root); [done|]. cbn [length] in Hlen. lia.
Qed.

Lemma sound_convertContentDirectory H d0 fuel templates md :
  H < fuel → safe (sound H d0) (convertContentDirectory fuel templates md).
Proof.
  intros Hf. destruct fuel as [|fuel]; [lia|]. unfold convertContentDirectory.
  change (str "content") with (pathBelow (str "content") []) at 1.
  apply (safe_walk _ H); [apply sound_wf| |done|lia].
  intros rels n Hrels Hn Hlen.
  assert (Hlen' : length (str "public" :: rels ++ [n]) ≤ H) by done.
  assert (Hsl : "/"%char ∉ n) by apply Hn.
  destruct (decide _) as [Hmd|Hmd].
  - apply safe_bind; [apply safe_os_ReadFile|]. intros [fileData err].
    apply safe_bind; [apply safe_check|]. intros _.
    rewrite pathBelow_snoc, changeExtension_stem;
      [|done|by rewrite pathBelow_root].
    rewrite <- pathBelow_snoc, content_dest.
    destruct (outPath_below H rels (stemOf n ++ str ".html")) as [H1 H2];
      [done|by apply htmlName_valid| |by apply sound_generateHtmlFile].
    cbn [length] in Hlen' |- *. rewrite length_app in Hlen' |- *. done.
  - cbv zeta. rewrite content_dest.
    destruct (outPath_below H rels n) as [H1 H2]; [done..|].
    apply safe_bind; [by apply sound_createDirectoryPath|]. intros _.
    by apply sound_copyFile.
Qed.

(** ** The whole build *)

Lemma served_bind {X : Type} (I : FS → Prop) (A : Event → Prop)
    (P : FS → Prop) (m : M X) (k : X → M unit) w :
  emits A m → ¬ A serve → safe I m → I (disk w) → serve ∉ calls w →
  (∀ a w1, m w = (Ok a, w1) → I (disk w1) → serve ∉ calls w1 →
     served P (k a w1)) →
  served P (bind m k w).
Proof.
  intros Hem HA Hsafe HI Hs Hk.
  destruct (Hem w) as (T & HT & HAT). destruct (Hsafe w HI) as [HI1 Hfuel].
  assert (Hs1 : serve ∉ calls (m w).2).
  { rewrite HT. rewrite not_elem_of_app. split; [done|]. intros Hin.
    rewrite Forall_forall in HAT. by apply HA, HAT. }
  unfold bind. destruct (m w) as [[a|f|p|] w1]; cbn [fst snd] in *.
  - by apply Hk.
  - by split.
  - by split.
  - done.
Qed.

Ltac not_serve :=
  unfold loadCall, renderCall, mirrorCall, transpileCall, fnIn, fnOn, serve;
  rewrite ?elem_of_cons, ?elem_of_nil; intuition discriminate.

Lemma serve_not_load : ¬ loadCall serve.
Proof. not_serve. Qed.

Lemma serve_not_render : ¬ renderCall serve.
Proof. not_serve. Qed.

Lemma serve_not_mirror root : ¬ mirrorCall root serve.
Proof. not_serve. Qed.

Lemma serve_not_transpile : ¬ transpileCall serve.
Proof. not_serve. Qed.

Lemma serve_not_fn fn : fn ≠ "http.ListenAndServe"%string → ¬ fnIn [fn] serve.
Proof.
  intros Hfn H. unfold fnIn, serve in H. apply list_elem_of_singleton in H.
  by destruct Hfn.
Qed.

Lemma safe_transpileTypescript E H fuel :
  H < fuel → safe (wellFormed H) (transpileTypescript E fuel).
Proof.
  intros Hf w Hw. destruct fuel as [|fuel]; [lia|].
  destruct (transpile_walk E H fuel [] w) as [W1 (W2 & _)]; [done|done|cbn; lia|].
  by split.
Qed.

(** The pass touches files with the extensions [.ts] and [.js] only. *)
Lemma touched_ext d k q :
  namesOk d → touched (tsUnder d k) q →
  getExtension ("/"%char :: nameOf q) = str ".ts"
  ∨ getExtension ("/"%char :: nameOf q) = str ".js".
Proof.
  intros Hn (s & Hs & [-> | ->]).
  - left. by destruct Hs as (_ & _ & _ & Hs).
  - right. destruct Hs as (rel & -> & Hrel & _).
    apply reachableFile_file in Hrel as [c Hcc].
    pose proof (nameOf_no_sep _ _ _ Hn Hcc) as Hname.
    unfold jsKey. rewrite nameOf_snoc. by apply getExtension_js.
Qed.

Lemma nameOf_cons a q : q ≠ [] → nameOf (a :: q) = nameOf q.
Proof. intros Hq. unfold nameOf. by destruct q. Qed.

(** C6 (as the code has it): a build does not end for want of fuel, and
    when it gets as far as to start the preview server, every regular file
    of the project's [static] tree that the walk reaches, whether or not the
    theme has a file at the same relative path, lies with the project's
    bytes at that relative path below [public], unless its extension is
    [.ts] or [.js] (the transpiler pass, which follows the mirrors, removes
    the former and may overwrite the latter) or it is [.nojekyll] (the marker
    is created after the mirrors). *)
Theorem C6_project_static_wins (E : Engines) (fuel : nat) (w : World) :
  namesOk (disk w) → closed (disk w) → height (disk w) < fuel →
  serve ∉ calls w →
  let r := main E fuel w in
  r.1 ≠ OutOfFuel
  ∧ (serve ∈ calls r.2 →
     ∀ rel, reachableFile (disk w) [str "static"] rel →
       getExtension ("/"%char :: nameOf rel) ≠ str ".ts" →
       getExtension ("/"%char :: nameOf rel) ≠ str ".js" →
       rel ≠ [str ".nojekyll"] →
       ∃ c, fileAt (disk w) (str "static" :: rel) = Some c
            ∧ fileAt (disk r.2) (str "public" :: rel) = Some c).
Proof.
  intros Hn Hc Hh Hs r.
  set (d0 := disk w) in *. set (H := height d0) in *.
  assert (Hs0 : sound H d0 (disk w)).
  { split; [by apply wellFormed_height|apply unchanged_refl]. }
  change (served (λ d, ∀ rel, reachableFile d0 [str "static"] rel →
            getExtension ("/"%char :: nameOf rel) ≠ str ".ts" →
            getExtension ("/"%char :: nameOf rel) ≠ str ".js" →
            rel ≠ [str ".nojekyll"] →
            ∃ c, fileAt d0 (str "static" :: rel) = Some c
                 ∧ fileAt d (str "public" :: rel) = Some c) r).
  subst r. unfold main.
  (* the templates and the converter *)
  apply (served_bind (sound H d0) loadCall);
    [apply emits_generateTemplates|apply serve_not_load|
     apply safe_generateTemplates|done|done|].
  intros templates w1 _ Hs1 Hc1.
  apply (served_bind (sound H d0) (fnIn ["goldmark.New"%string]));
    [apply emits_sys; by left|by apply serve_not_fn|
     apply safe_sys; by intros|done|done|].
  intros md w2 _ Hs2 Hc2.
  (* the old output root *)
  apply (served_bind (sound H d0) (fnIn ["os.RemoveAll"%string]));
    [apply emits_sys; by left|by apply serve_not_fn|
     apply sound_os_RemoveAll|done|done|].
  intros err w3 _ Hs3 Hc3.
  apply (served_bind (sound H d0) (λ _, False));
    [apply emits_check|tauto|apply safe_check|done|done|].
  intros _ w3' _ Hs3' Hc3'.
  (* the content *)
  apply (served_bind (sound H d0) renderCall);
    [apply emits_convertContentDirectory|apply serve_not_render|
     by apply sound_convertContentDirectory|done|done|].
  intros [] w4 _ Hs4 Hc4.
  (* the mirrors *)
  apply (served_bind (sound H d0) (mirrorCall "theme/static"));
    [apply emits_copyStaticDirectory|apply serve_not_mirror|
     by apply sound_copyStaticDirectory|done|done|].
  intros [] w5 _ Hs5 Hc5.
  apply (served_bind (sound H d0) (mirrorCall "static"));
    [apply emits_copyStaticDirectory|apply serve_not_mirror|
     by apply sound_copyStaticDirectory|done|done|].
  intros [] w6 Hrun6 Hs6 Hc6.
  assert (HM : ∀ rel, reachableFile d0 [str "static"] rel →
            ∃ c, fileAt d0 (str "static" :: rel) = Some c
                 ∧ fileAt (disk w6) (str "public" :: rel) = Some c).
  { destruct fuel as [|fuel']; [lia|].
    destruct (mirror_walk (str "static") d0 fuel') with (rels := @nil gostring)
      (w := w5) as (_ & _ & _ & M4); [|done|done|apply Hs5|cbn; lia|].
    { intros rel [t Ht]. discriminate Ht. }
    change (walk (S fuel') (pathBelow (str "static") []) (mirrorVisit (str "static")) w5)
      with (copyStaticDirectory (S fuel') (str "static") w5) in M4.
    rewrite Hrun6 in M4. intros rel Hrel. by apply (M4 eq_refl rel). }
  (* the transpiler *)
  apply (served_bind (wellFormed H) transpileCall);
    [apply emits_transpileTypescript|apply serve_not_transpile|
     by apply safe_transpileTypescript|apply Hs6|done|].
  intros [] w7 Hrun7 Hw7 Hc7.
  assert (HT : ∀ q, getExtension ("/"%char :: nameOf q) ≠ str ".ts" →
                    getExtension ("/"%char :: nameOf q) ≠ str ".js" →
                    fileAt (disk w7) q = fileAt (disk w6) q).
  { destruct fuel as [|fuel']; [lia|].
    destruct (transpile_walk E H fuel' [] w6) as [_ (_ & _ & T3 & _)];
      [done|apply Hs6|cbn; lia|].
    change (walk (S fuel') (pathBelow (str "public") []) (transpileVisit E) w6)
      with (transpileTypescript E (S fuel') w6) in T3.
    rewrite Hrun7 in T3. intros q Hts Hjs. apply (keeps_out _ _ _ _ T3).
    intros Ht. apply touched_ext in Ht as [Ht|Ht]; [done|done|apply Hs6]. }
  (* the marker and the server *)
  unfold os_Create. rewrite bind_sys. cbn [fst snd].
  change (components (str "public/.nojekyll"))
    with [str "public"; str ".nojekyll"].
  destruct (create [str "public"; str ".nojekyll"] (disk w7)) as [[no|] d8] eqn:Hcr;
    cbn [pathError fst snd].
  - rewrite bind_check_Some. split; [done|]. cbn [snd calls logged].
    intros Hin. exfalso. apply elem_of_app in Hin as [Hin|Hin]; [done|].
    apply list_elem_of_singleton in Hin. discriminate Hin.
  - rewrite bind_check_None. unfold startHTTPServer, http_ListenAndServe.
    rewrite bind_sys. cbn [fst snd]. split; [done|].
    intros _ rel Hrel Hts Hjs Hmark. cbn [snd disk logged exit].
    destruct (HM rel Hrel) as (c & Hc0 & Hc6'). exists c. split; [done|].
    apply create_spec in Hcr as (-> & _).
    assert (Hrel0 : rel ≠ []) by (by destruct rel).
    unfold fileAt. rewrite lookup_insert_ne by (intros [= Heq]; by destruct Hmark).
    fold (fileAt (disk w7) (str "public" :: rel)).
    rewrite HT; [done|by rewrite nameOf_cons..].
Qed.

(** C6, as stated, fails for scripts: the theme and the project both have
    [app.ts] in their static trees; the build gets as far as the preview
    server, and no file lies at the mirrored path [public/app.ts] (the
    transpiler pass has put the transpiled project file at [public/app.js]
    and removed the copy).  The style sheet that both trees have is the
    project's. *)
Lemma C6_counterexample :
  let r := main toyEngines 10 siteWorld in
  fileAt (disk siteWorld) (components (str "theme/static/app.ts"))
  = Some (str "theme-ts")
  ∧ fileAt (disk siteWorld) (components (str "static/app.ts"))
    = Some (str "project-ts")
  ∧ last (calls r.2) = Some serve
  ∧ fileAt (disk r.2) (components (str "public/app.ts")) = None
  ∧ fileAt (disk r.2) (components (str "public/app.js"))
    = Some (str "js:project-ts")
  ∧ fileAt (disk r.2) (components (str "public/css/x.css"))
    = Some (str "project-css").
Proof. vm_compute. done. Qed.

Lemma C6_project_static_wins_witness :
  (namesOk (disk siteWorld) ∧ closed (disk siteWorld)
   ∧ height (disk siteWorld) < 10 ∧ serve ∉ calls siteWorld)
  ∧ let r := main toyEngines 10 siteWorld in
    r.1 ≠ OutOfFuel
    ∧ (serve ∈ calls r.2 →
       ∀ rel, reachableFile (disk siteWorld) [str "static"] rel →
         getExtension ("/"%char :: nameOf rel) ≠ str ".ts" →
         getExtension ("/"%char :: nameOf rel) ≠ str ".js" →
         rel ≠ [str ".nojekyll"] →
         ∃ c, fileAt (disk siteWorld) (str "static" :: rel) = Some c
              ∧ fileAt (disk r.2) (str "public" :: rel) = Some c).
Proof.
  assert (Hwf : wellFormed 4 (disk siteWorld))
    by (apply wellFormedb_spec; vm_compute; reflexivity).
  destruct Hwf as (Hn & Hc & _).
  assert (Hh : height (disk siteWorld) < 10) by (vm_compute; lia).
  assert (Hs : serve ∉ calls siteWorld) by apply not_elem_of_nil.
  split; [done|].
  exact (C6_project_static_wins toyEngines 10 siteWorld Hn Hc Hh Hs).
Defined.

(** * Further properties of the program *)

(** ** The path utilities *)

(** X1: [removeExtension] and [getExtension] cut the path, with the white
    space around it removed, in two: the stem followed by the extension is
    the trimmed path, for every path. *)
Theorem X1_stem_and_extension (p : gostring) :
  removeExtension p ++ getExtension p = TrimSpace p.
Proof.
  destruct (removeExtension_shape p) as (d & u & v & v' & Ht & Hrm & _).
  by rewrite Hrm, Ht, <- app_assoc.
Qed.

(** X2: after [changeExtension] to an extension that starts with a dot, has
    no [/] and does not end with white space, [getExtension] returns that
    extension and [removeExtension] the stem of the original path. *)
Theorem X2_changeExtension_then_get (p x : gostring) :
  "/"%char ∉ x →
  TrimRightSpace ("."%char :: x) = "."%char :: x →
  getExtension (changeExtension p ("."%char :: x)) = "."%char :: x
  ∧ removeExtension (changeExtension p ("."%char :: x)) = removeExtension p.
Proof.
  intros Hx Htr.
  assert (Hr : spaceWidthRev (reverse ("."%char :: x)) = 0).
  { rewrite <- Htr. apply TrimRightSpace_done. }
  split.
  - by apply getExtension_changeExtension.
  - by apply removeExtension_changeExtension.
Qed.

Lemma X2_changeExtension_then_get_witness :
  getExtension (changeExtension (str "content/a.tar.md") (str ".html")) = str ".html"
  ∧ removeExtension (changeExtension (str "content/a.tar.md") (str ".html"))
    = removeExtension (str "content/a.tar.md").
Proof.
  apply (X2_changeExtension_then_get (str "content/a.tar.md") (str "html")).
  - apply (bool_decide_unpack _). vm_compute. exact I.
  - reflexivity.
Defined.

(** X3: the extension functions look at the last element of a path only:
    the extension of [dir/name] is that of [/name] whatever the directory
    (dots in it included), and [changeExtension] leaves a directory part
    that does not start with white space as it is. *)
Theorem X3_extension_of_last_element (dir n ext : gostring) :
  "/"%char ∉ n →
  getExtension (dir ++ str "/" ++ n) = getExtension (str "/" ++ n)
  ∧ (TrimLeftSpace dir = dir →
     changeExtension (dir ++ str "/" ++ n) ext
     = dir ++ changeExtension (str "/" ++ n) ext).
Proof.
  intros Hn. split.
  - by apply getExtension_name.
  - intros Hdir. apply changeExtension_name; [done|].
    rewrite <- Hdir. apply TrimLeftSpace_done.
Qed.

Lemma X3_extension_of_last_element_witness :
  getExtension (str "content/v1.2" ++ str "/" ++ str "notes.md")
  = getExtension (str "/" ++ str "notes.md")
  ∧ (TrimLeftSpace (str "content/v1.2") = str "content/v1.2" →
     changeExtension (str "content/v1.2" ++ str "/" ++ str "notes.md") (str ".html")
     = str "content/v1.2" ++ changeExtension (str "/" ++ str "notes.md") (str ".html")).
Proof.
  apply (X3_extension_of_last_element (str "content/v1.2") (str "notes.md")
           (str ".html")).
  apply (bool_decide_unpack _). vm_compute. exact I.
Defined.

(** ** Directories and copies *)

(** [os.MkdirAll] fails exactly when a regular file is in the way. *)
Lemma mkdirAll_ok pre rest d :
  (mkdirAll pre rest d).1 = None
  ↔ ∀ i c, 0 < i ≤ length rest → d !! (pre ++ take i rest) ≠ Some (File c).
Proof.
  revert pre d. induction rest as [|n rest IH]; intros pre d.
  { cbn. split; [|done]. intros _ i c Hi. lia. }
  cbn [mkdirAll]. destruct (d !! (pre ++ [n])) as [[c|b]|] eqn:Hk.
  - cbn. split; [done|]. intros H. destruct (H 1 c); [cbn; lia|done].
  - rewrite IH. split.
    + intros H [|i] c Hi; [lia|]. cbn [take]. destruct i as [|i].
      * rewrite take_0. by rewrite Hk.
      * rewrite cons_middle, app_assoc. apply H. cbn in Hi. lia.
    + intros H i c Hi. rewrite <- app_assoc. apply (H (S i) c). cbn. lia.
  - rewrite IH. split.
    + intros H [|i] c Hi; [lia|]. cbn [take]. destruct i as [|i].
      * rewrite take_0. by rewrite Hk.
      * specialize (H (S i) c). rewrite cons_middle, app_assoc.
        rewrite lookup_insert_ne in H; [apply H; cbn in Hi; lia|].
        intros Heq. apply (f_equal length) in Heq.
        rewrite !length_app, length_take in Heq. cbn [length] in Heq, Hi. lia.
    + intros H i c Hi. destruct (decide (pre ++ [n] = (pre ++ [n]) ++ take i rest))
        as [Heq|Hne].
      * rewrite <- Heq, lookup_insert_eq. done.
      * rewrite lookup_insert_ne by done. rewrite <- app_assoc.
        apply (H (S i) c). cbn. lia.
Qed.

(** X4: [createDirectoryPath] makes the directory of the path with all the
    directories above it.  It never removes or changes an entry that exists;
    what it adds are directories on that chain; it fails, with the error of
    [os.MkdirAll], exactly when a regular file lies on the chain; and when it
    succeeds every directory of the chain exists. *)
Theorem X4_createDirectoryPath_effect (path : gostring) (w : World) :
  let ks := components (filepath_Dir path) in
  let r := createDirectoryPath path w in
  (∀ q nd, disk w !! q = Some nd → disk r.2 !! q = Some nd)
  ∧ (∀ q, disk r.2 !! q ≠ disk w !! q →
       disk w !! q = None ∧ disk r.2 !! q = Some (Dir true)
       ∧ ∃ i, 0 < i ≤ length ks ∧ q = take i ks)
  ∧ (r.1 = Ok tt
     ↔ ∀ i c, 0 < i ≤ length ks → disk w !! take i ks ≠ Some (File c))
  ∧ (r.1 = Ok tt →
     ∀ i, 0 < i ≤ length ks → ∃ b, disk r.2 !! take i ks = Some (Dir b))
  ∧ (r.1 = Ok tt
     ∨ ∃ no, r.1 = Fatal (FatalError (PathError "mkdir" (filepath_Dir path) no))).
Proof.
  intros ks r. subst r. rewrite createDirectoryPath_run. fold ks. cbv zeta.
  destruct (mkdirAll_spec [] ks (disk w)) as (H1 & H2 & H3).
  pose proof (mkdirAll_ok [] ks (disk w)) as H4.
  destruct (mkdirAll [] ks (disk w)) as [[no|] d1]; cbn [fst snd disk logged] in *.
  - split; [done|]. split; [done|]. split.
    { split; [done|]. intros H. by apply H4 in H. }
    split; [done|]. right. by exists no.
  - split; [done|]. split; [done|]. split.
    { split; [|done]. intros _. by apply H4. }
    split; [|by left]. intros _. by apply H3.
Qed.

(** X5: [copyFile] from a regular file to another path whose directory
    exists and that is not a directory: the call returns normally, the
    destination holds the bytes of the source, and nothing else has changed
    (the file system is the old one with that one file set); the calls are
    [os.Open], [os.Create] and [io.Copy], in this order. *)
Theorem X5_copyFile_copies (sourcePath destinationPath c : gostring) (w : World) :
  let ks := components sourcePath in
  let kd := components destinationPath in
  stat (disk w) ks = Some (File c) →
  ks ≠ kd → kd ≠ [] →
  (∃ b, stat (disk w) (parent kd) = Some (Dir b)) →
  (∀ b, disk w !! kd ≠ Some (Dir b)) →
  copyFile sourcePath destinationPath w
  = (Ok tt, {| disk := <[kd := File c]> (disk w);
               calls := calls w ++ [ Call "os.Open" [sourcePath];
                                     Call "os.Create" [destinationPath];
                                     Call "io.Copy" [destinationPath; sourcePath] ] |}).
Proof.
  intros ks kd Hsrc Hne Hkd [b Hpar] Hnodir.
  unfold copyFile, os_Open. rewrite bind_sys. fold ks. rewrite Hsrc.
  cbn [fst snd]. rewrite bind_check_None.
  unfold os_Create. rewrite bind_sys. cbn [fst snd disk logged]. fold kd.
  assert (Hcr : create kd (disk w) = (None, <[kd := File []]> (disk w))).
  { unfold create. destruct kd as [|a kd'] eqn:Hk; [done|]. rewrite Hpar.
    destruct (disk w !! (a :: kd')) as [[c'|b']|] eqn:Hl; try done.
    by destruct (Hnodir b'). }
  rewrite Hcr. cbn [fst snd pathError]. rewrite bind_check_None.
  unfold io_Copy. rewrite bind_sys. cbn [fst snd disk logged]. fold ks kd.
  assert (Hrd : readFile ks (<[kd := File []]> (disk w)) = (c, None)).
  { unfold readFile. destruct ks as [|a ks'] eqn:Hk; [done|]. cbn [stat] in *.
    by rewrite lookup_insert_ne, Hsrc. }
  rewrite Hrd. unfold append. rewrite lookup_insert_eq.
  cbn [fst snd pathError app]. rewrite insert_insert_eq.
  unfold ret, logged. cbn [disk calls]. by rewrite <- !app_assoc.
Qed.

Lemma X5_copyFile_copies_witness :
  copyFile (str "static/css/x.css") (str "public/x.css") siteWorld
  = (Ok tt,
     {| disk := <[components (str "public/x.css") := File (str "project-css")]>
                  (disk siteWorld);
        calls := calls siteWorld
                 ++ [ Call "os.Open" [str "static/css/x.css"];
                      Call "os.Create" [str "public/x.css"];
                      Call "io.Copy" [str "public/x.css"; str "static/css/x.css"] ] |}).
Proof.
  apply (X5_copyFile_copies (str "static/css/x.css") (str "public/x.css")
           (str "project-css") siteWorld).
  - vm_compute. reflexivity.
  - vm_compute. discriminate.
  - vm_compute. discriminate.
  - exists true. vm_compute. reflexivity.
  - intros b. vm_compute. discriminate.
Defined.

(** X6: [copyFile] writes to its destination only: every other path is as
    it was, whatever the outcome.  When the source does not exist the build
    halts on [os.Open], before the destination is created: the file system
    is untouched and [os.Open] is the only call. *)
Theorem X6_copyFile_failure (sourcePath destinationPath : gostring) (w : World) :
  let ks := components sourcePath in
  let kd := components destinationPath in
  let r := copyFile sourcePath destinationPath w in
  (∀ q, q ≠ kd → disk r.2 !! q = disk w !! q)
  ∧ (stat (disk w) ks = None →
     r = (Fatal (FatalError (PathError "open" sourcePath ENOENT)),
          logged w (disk w) "os.Open" [sourcePath])).
Proof.
  intros ks kd r.
  assert (Hr : r = copyFile sourcePath destinationPath w) by done.
  clearbody r. unfold copyFile, os_Open in Hr. rewrite bind_sys in Hr.
  fold ks in Hr. destruct (stat (disk w) ks) as [nd|] eqn:Hsrc;
    cbn [fst snd] in Hr.
  2:{ rewrite bind_check_Some in Hr. by rewrite Hr. }
  split; [|done]. rewrite bind_check_None in Hr.
  unfold os_Create in Hr. rewrite bind_sys in Hr.
  cbn [fst snd disk logged] in Hr. fold kd in Hr.
  destruct (create kd (disk w)) as [e d1] eqn:Hcr. apply create_spec in Hcr.
  destruct e as [no|]; cbn [fst snd pathError] in Hr.
  { rewrite bind_check_Some in Hr. subst d1. by rewrite Hr. }
  destruct Hcr as (-> & _ & _). rewrite bind_check_None in Hr.
  unfold io_Copy in Hr. rewrite bind_sys in Hr.
  cbn [fst snd disk logged] in Hr. fold ks kd in Hr.
  destruct (readFile ks _) as [c [no|]]; cbn [fst snd] in Hr.
  { intros q Hq. rewrite Hr. destruct (check _ _) as [o w'] eqn:Hch.
    assert (w' = logged (logged (logged w (disk w) "os.Open" [sourcePath])
                           (<[kd:=File []]> (disk w)) "os.Create" [destinationPath])
                   (<[kd:=File []]> (disk w)) "io.Copy"
                   [destinationPath; sourcePath]) as ->.
    { by injection Hch as _ <-. }
    cbn. by rewrite lookup_insert_ne. }
  unfold append in Hr. rewrite lookup_insert_eq in Hr.
  cbn [fst snd pathError] in Hr. rewrite insert_insert_eq in Hr.
  intros q Hq. rewrite Hr. cbn. by rewrite lookup_insert_ne.
Qed.

(** X7: copying a regular file onto itself empties it: [os.Create]
    truncates the file before [io.Copy] reads it. *)
Theorem X7_copyFile_onto_itself (sourcePath destinationPath c : gostring)
    (w : World) :
  let k := components sourcePath in
  closed (disk w) →
  components destinationPath = k →
  stat (disk w) k = Some (File c) →
  let r := copyFile sourcePath destinationPath w in
  r.1 = Ok tt ∧ disk r.2 = <[k := File []]> (disk w).
Proof.
  intros k Hc Hkd Hsrc r. subst r.
  assert (Hk : k ≠ []) by (intros Hk; by rewrite Hk in Hsrc).
  assert (Hl : disk w !! k = Some (File c)) by (by destruct k).
  destruct (Hc k _ Hl) as [b Hpar].
  unfold copyFile, os_Open. rewrite bind_sys. fold k. rewrite Hsrc.
  cbn [fst snd]. rewrite bind_check_None.
  unfold os_Create. rewrite bind_sys. cbn [fst snd disk logged]. rewrite Hkd.
  assert (Hcr : create k (disk w) = (None, <[k := File []]> (disk w))).
  { unfold create. rewrite Hpar, Hl. by destruct k. }
  rewrite Hcr. cbn [fst snd pathError]. rewrite bind_check_None.
  unfold io_Copy. rewrite bind_sys. cbn [fst snd disk logged]. fold k.
  rewrite Hkd.
  assert (Hrd : readFile k (<[k := File []]> (disk w)) = ([], None)).
  { unfold readFile. destruct k; [done|]. cbn [stat]. by rewrite lookup_insert_eq. }
  rewrite Hrd. unfold append. rewrite lookup_insert_eq.
  cbn [fst snd pathError app]. rewrite insert_insert_eq. done.
Qed.

Lemma X7_copyFile_onto_itself_witness :
  closed (disk siteWorld)
  ∧ let r := copyFile (str "static/app.ts") (str "./static//app.ts") siteWorld in
    r.1 = Ok tt
    ∧ disk r.2 = <[components (str "static/app.ts") := File []]> (disk siteWorld).
Proof.
  assert (Hwf : wellFormed 4 (disk siteWorld))
    by (apply wellFormedb_spec; vm_compute; reflexivity).
  destruct Hwf as (_ & Hc & _). split; [done|].
  apply (X7_copyFile_onto_itself (str "static/app.ts") (str "./static//app.ts")
           (str "project-ts") siteWorld Hc); vm_compute; reflexivity.
Defined.

(** ** The transpiler of one file *)

(** X8: [transpileTypescriptFile] on a regular file that transpiles, with an
    output path whose directory exists and that is not a directory: the
    output file holds the transpiled code and nothing else has changed.  The
    source is read before the output is created, so this also holds when
    both paths are the same. *)
Theorem X8_transpileTypescriptFile_writes (E : Engines)
    (tsFilePath jsOutputPath c js : gostring) (w : World) :
  let ks := components tsFilePath in
  let kd := components jsOutputPath in
  stat (disk w) ks = Some (File c) →
  TranspileString E c = inl js →
  kd ≠ [] →
  (∃ b, stat (disk w) (parent kd) = Some (Dir b)) →
  (∀ b, disk w !! kd ≠ Some (Dir b)) →
  let r := transpileTypescriptFile E tsFilePath jsOutputPath w in
  r.1 = Ok tt
  ∧ disk r.2 = <[kd := File js]> (disk w)
  ∧ calls r.2 = calls w ++ [ Call "os.ReadFile" [tsFilePath];
                             Call "typescript.TranspileString" [c];
                             Call "os.Create" [jsOutputPath];
                             Call "File.WriteString" [jsOutputPath; js] ].
Proof.
  intros ks kd Hsrc Hts Hkd [b Hpar] Hnodir r. subst r.
  unfold transpileTypescriptFile, os_ReadFile. rewrite bind_sys. fold ks.
  unfold readFile. rewrite Hsrc. cbn [fst snd pathError]. rewrite bind_check_None.
  unfold typescript_TranspileString. rewrite bind_sys. rewrite Hts.
  cbn [fst snd]. rewrite bind_check_None.
  unfold os_Create. rewrite bind_sys. cbn [fst snd disk logged]. fold kd.
  assert (Hcr : create kd (disk w) = (None, <[kd := File []]> (disk w))).
  { unfold create. destruct kd as [|a kd'] eqn:Hk; [done|]. rewrite Hpar.
    destruct (disk w !! (a :: kd')) as [[c'|b']|] eqn:Hl; try done.
    by destruct (Hnodir b'). }
  rewrite Hcr. cbn [fst snd pathError]. rewrite bind_check_None.
  unfold File_WriteString. rewrite bind_sys. cbn [fst snd disk logged]. fold kd.
  unfold append. rewrite lookup_insert_eq.
  cbn [fst snd pathError app]. rewrite insert_insert_eq.
  unfold check, ret, logged. cbn [fst snd disk calls].
  split; [done|]. split; [done|]. by rewrite <- !app_assoc.
Qed.

Lemma X8_transpileTypescriptFile_writes_witness :
  let r := transpileTypescriptFile toyEngines (str "public/y.ts")
             (str "public/y.js") scriptWorld in
  r.1 = Ok tt
  ∧ disk r.2 = <[components (str "public/y.js") := File (str "js:let y")]>
                 (disk scriptWorld)
  ∧ calls r.2 = calls scriptWorld
                ++ [ Call "os.ReadFile" [str "public/y.ts"];
                     Call "typescript.TranspileString" [str "let y"];
                     Call "os.Create" [str "public/y.js"];
                     Call "File.WriteString" [str "public/y.js"; str "js:let y"] ].
Proof.
  apply (X8_transpileTypescriptFile_writes toyEngines (str "public/y.ts")
           (str "public/y.js") (str "let y") (str "js:let y") scriptWorld).
  - vm_compute. reflexivity.
  - reflexivity.
  - vm_compute. discriminate.
  - exists true. vm_compute. reflexivity.
  - intros b. vm_compute. discriminate.
Defined.

(** X9: when the source cannot be read or does not transpile,
    [transpileTypescriptFile] halts the build before the output is created:
    the file system is untouched, and no [os.Create] is among the calls. *)
Theorem X9_transpileTypescriptFile_failure (E : Engines)
    (tsFilePath jsOutputPath : gostring) (w : World) :
  let r := transpileTypescriptFile E tsFilePath jsOutputPath w in
  let read := readFile (components tsFilePath) (disk w) in
  (∀ no, read.2 = Some no →
     r = (Fatal (FatalError (PathError "read" tsFilePath no)),
          logged w (disk w) "os.ReadFile" [tsFilePath]))
  ∧ (∀ err, read.2 = None → TranspileString E read.1 = inr err →
       r = (Fatal (FatalError err),
            logged (logged w (disk w) "os.ReadFile" [tsFilePath])
                   (disk w) "typescript.TranspileString" [read.1])).
Proof.
  intros r read.
  assert (Hr : r = transpileTypescriptFile E tsFilePath jsOutputPath w) by done.
  clearbody r. unfold transpileTypescriptFile, os_ReadFile in Hr.
  rewrite bind_sys in Hr. fold read in Hr. cbn [fst snd] in Hr.
  split.
  - intros no Hno. rewrite Hno in Hr. cbn [pathError] in Hr.
    by rewrite bind_check_Some in Hr.
  - intros err Hok Herr. rewrite Hok in Hr. cbn [pathError] in Hr.
    rewrite bind_check_None in Hr. unfold typescript_TranspileString in Hr.
    rewrite bind_sys in Hr. rewrite Herr in Hr. cbn [fst snd] in Hr.
    by rewrite bind_check_Some in Hr.
Qed.

(** ** The templates *)

Lemma parseLayouts_spec E includes layouts :
  ∀ templates w,
    let r := parseLayouts E includes layouts templates w in
    disk r.2 = disk w
    ∧ r.1 ≠ OutOfFuel
    ∧ ((∀ l, l ∈ layouts → ∃ t, ParseFiles E (includes ++ [l]) (disk w) = inl t) →
       ∃ T, r.1 = Ok T
         ∧ (∀ l, l ∈ layouts → is_Some (T !! filepath_Base l))
         ∧ (∀ name t, T !! name = Some t →
              templates !! name = Some t
              ∨ ∃ l, l ∈ layouts ∧ filepath_Base l = name
                     ∧ ParseFiles E (includes ++ [l]) (disk w) = inl t))
    ∧ (∀ l, l ∈ layouts →
         (∀ t, ParseFiles E (includes ++ [l]) (disk w) ≠ inl t) →
         ∃ e, r.1 = Panic (MustError e)).
Proof.
  induction layouts as [|l layouts IH]; intros templates w r.
  { subst r. cbn. split; [done|]. split; [done|]. split.
    - intros _. exists templates. split; [done|]. split.
      + intros l Hl. by apply elem_of_nil in Hl.
      + intros name t Ht. by left.
    - intros l Hl. by apply elem_of_nil in Hl. }
  assert (Hr : r = parseLayouts E includes (l :: layouts) templates w) by done.
  clearbody r. cbn [parseLayouts] in Hr. unfold template_ParseFiles in Hr.
  rewrite bind_sys in Hr. cbn [fst snd] in Hr.
  destruct (ParseFiles E (includes ++ [l]) (disk w)) as [t|e] eqn:Hp;
    cbn [template_Must] in Hr.
  - rewrite bind_ret in Hr.
    set (w1 := logged w (disk w) "template.ParseFiles" (includes ++ [l])) in *.
    destruct (IH (<[filepath_Base l := t]> templates) w1)
      as (I1 & I2 & I3 & I4).
    rewrite <- Hr in I1, I2, I3, I4. cbn [disk logged w1] in I1, I3, I4.
    split; [done|]. split; [done|]. split.
    + intros Hall. destruct I3 as (T & HT & Hdom & Hval).
      { intros l' Hl'. apply Hall. by right. }
      exists T. split; [done|]. split.
      * intros l' [->|Hl']%elem_of_cons; [|by apply Hdom].
        destruct (decide (filepath_Base l ∈ filepath_Base <$> layouts)) as [Hin|Hout].
        -- apply list_elem_of_fmap in Hin as (l2 & Heq & Hl2). rewrite Heq.
           by apply Hdom.
        -- assert (Hkeep : ∀ ls Tm w',
                     filepath_Base l ∉ filepath_Base <$> ls →
                     ∀ T', (parseLayouts E includes ls Tm w').1 = Ok T' →
                           T' !! filepath_Base l = Tm !! filepath_Base l).
           { clear. induction ls as [|x ls IHls]; intros Tm w' Hnot T' HT'.
             - cbn in HT'. by injection HT' as <-.
             - rewrite fmap_cons, not_elem_of_cons in Hnot. destruct Hnot as [Hx Hnot].
               cbn [parseLayouts] in HT'. unfold template_ParseFiles in HT'.
               rewrite bind_sys in HT'. cbn [fst snd] in HT'.
               destruct (ParseFiles E (includes ++ [x]) (disk w')) as [tx|ex];
                 cbn [template_Must] in HT'; [|done].
               rewrite bind_ret in HT'. rewrite (IHls _ _ Hnot T' HT').
               by rewrite lookup_insert_ne. }
           pose proof HT as HT2. rewrite Hr in HT2.
           rewrite (Hkeep layouts _ w1 Hout T HT2).
           rewrite lookup_insert_eq. by eexists.
      * intros name t' Ht'. destruct (Hval name t' Ht') as [Hold|(l2 & Hl2 & Hb & Hp2)].
        -- destruct (decide (name = filepath_Base l)) as [->|Hne].
           ++ rewrite lookup_insert_eq in Hold. injection Hold as <-.
              right. exists l. split; [by left|done].
           ++ rewrite lookup_insert_ne in Hold by done. by left.
        -- right. exists l2. split; [by right|done].
    + intros l' [->|Hl']%elem_of_cons Hbad; [by destruct (Hbad t)|].
      by apply (I4 l').
  - rewrite Hr. cbn. split; [done|]. split; [done|]. split.
    + intros Hall. destruct (Hall l) as [t Ht]; [by left|]. congruence.
    + intros l' _ _. by exists e.
Qed.

(** X10: when both patterns are listed and every layout parses,
    [generateTemplates] returns a map with an entry for the base name of
    every layout and no other entry; the template under a name is the one
    parsed from the include files followed by a layout of that base name.
    The file system is not touched. *)
Theorem X10_generateTemplates_map (E : Engines) (directory : gostring)
    (w : World) (layouts includes : list gostring) :
  Glob E (directory ++ str "layouts/*") (disk w) = (layouts, None) →
  Glob E (directory ++ str "includes/*") (disk w) = (includes, None) →
  (∀ l, l ∈ layouts → ∃ t, ParseFiles E (includes ++ [l]) (disk w) = inl t) →
  ∃ templates w',
    generateTemplates E directory w = (Ok templates, w')
    ∧ disk w' = disk w
    ∧ (∀ l, l ∈ layouts → is_Some (templates !! filepath_Base l))
    ∧ (∀ name t, templates !! name = Some t →
         ∃ l, l ∈ layouts ∧ filepath_Base l = name
              ∧ ParseFiles E (includes ++ [l]) (disk w) = inl t).
Proof.
  intros HL HI Hall. unfold generateTemplates, filepath_Glob.
  rewrite bind_sys, HL. cbn [fst snd]. rewrite bind_check_None.
  rewrite bind_sys. cbn [fst snd disk logged]. rewrite HI.
  cbn [fst snd]. rewrite bind_check_None.
  match goal with |- context [parseLayouts E includes layouts ∅ ?w1] =>
    destruct (parseLayouts_spec E includes layouts ∅ w1) as (P1 & _ & P3 & _);
    destruct (parseLayouts E includes layouts ∅ w1) as [o w'] eqn:Hrun
  end.
  cbn [fst snd disk logged] in P1, P3.
  destruct (P3 Hall) as (T & -> & Hdom & Hval).
  exists T, w'. split; [done|]. split; [done|]. split; [done|].
  intros name t Ht. destruct (Hval name t Ht) as [Hold|Hnew]; [|done].
  by rewrite lookup_empty in Hold.
Qed.

Lemma X10_generateTemplates_map_witness :
  ∃ templates w',
    generateTemplates toyEngines (str "theme/templates/") siteWorld
    = (Ok templates, w')
    ∧ disk w' = disk siteWorld
    ∧ (∀ l, l ∈ [str "theme/templates/layouts/default.html"] →
         is_Some (templates !! filepath_Base l))
    ∧ (∀ name t, templates !! name = Some t →
         ∃ l, l ∈ [str "theme/templates/layouts/default.html"]
              ∧ filepath_Base l = name
              ∧ ParseFiles toyEngines ([] ++ [l]) (disk siteWorld) = inl t).
Proof.
  apply (X10_generateTemplates_map toyEngines (str "theme/templates/") siteWorld
           [str "theme/templates/layouts/default.html"] []).
  - vm_compute. reflexivity.
  - vm_compute. reflexivity.
  - intros l Hl. apply list_elem_of_singleton in Hl as ->.
    exists toyTemplate. vm_compute. reflexivity.
Defined.

(** X11: [generateTemplates] never touches the file system.  A pattern that
    cannot be listed halts the build with the error of [filepath.Glob]; a
    layout that does not parse makes [template.Must] panic. *)
Theorem X11_generateTemplates_failure (E : Engines) (directory : gostring)
    (w : World) :
  let r := generateTemplates E directory w in
  let L := Glob E (directory ++ str "layouts/*") (disk w) in
  let I := Glob E (directory ++ str "includes/*") (disk w) in
  disk r.2 = disk w
  ∧ r.1 ≠ OutOfFuel
  ∧ (∀ e, L.2 = Some e → r.1 = Fatal (FatalError e))
  ∧ (∀ e, L.2 = None → I.2 = Some e → r.1 = Fatal (FatalError e))
  ∧ (L.2 = None → I.2 = None →
     ∀ l, l ∈ L.1 → (∀ t, ParseFiles E (I.1 ++ [l]) (disk w) ≠ inl t) →
       ∃ e, r.1 = Panic (MustError e)).
Proof.
  intros r L I.
  assert (Hr : r = generateTemplates E directory w) by done. clearbody r.
  unfold generateTemplates, filepath_Glob in Hr.
  rewrite bind_sys in Hr. fold L in Hr. destruct L as [layouts [e|]];
    cbn [fst snd] in *.
  { rewrite bind_check_Some in Hr. rewrite Hr. cbn.
    split; [done|]. split; [done|]. split; [by intros ? [= <-]|]. by split. }
  rewrite bind_check_None, bind_sys in Hr. cbn [fst snd disk logged] in Hr.
  fold I in Hr. destruct I as [includes [e|]]; cbn [fst snd] in *.
  { rewrite bind_check_Some in Hr. rewrite Hr. cbn.
    split; [done|]. split; [done|]. split; [done|]. split; [|done].
    by intros ? _ [= <-]. }
  rewrite bind_check_None in Hr.
  match type of Hr with _ = parseLayouts _ _ _ _ ?w1 =>
    destruct (parseLayouts_spec E includes layouts ∅ w1) as (P1 & P2 & _ & P4)
  end.
  rewrite <- Hr in P1, P2, P4. cbn [disk logged] in P1, P4.
  split; [done|]. split; [done|]. split; [done|]. split; [done|].
  intros _ _. exact P4.
Qed.

(** ** The tree walker and the steps built on it *)

(** X12: [walk] on a path that is not a directory that can be listed (it
    does not exist, is a regular file, or cannot be read) returns normally
    without calling the callback, whatever the callback is: the error of
    [os.ReadDir] is dropped.  In particular a site without a [static] or
    [theme/static] directory builds. *)
Theorem X12_walk_missing_directory (fuel : nat) (dir : gostring)
    (fileFunction : gostring → M unit) (w : World) :
  stat (disk w) (components dir) ≠ Some (Dir true) →
  walk (S fuel) dir fileFunction w
  = (Ok tt, logged w (disk w) "os.ReadDir" [dir]).
Proof.
  intros Hdir. cbn [walk]. unfold os_ReadDir. rewrite bind_sys. cbn [fst snd].
  unfold readDir. by destruct (stat (disk w) (components dir)) as [[c|[|]]|].
Qed.

Lemma X12_walk_missing_directory_witness :
  walk 1 (str "assets") (mirrorVisit (str "assets")) siteWorld
  = (Ok tt, logged siteWorld (disk siteWorld) "os.ReadDir" [str "assets"]).
Proof.
  apply (X12_walk_missing_directory 0 (str "assets")
           (mirrorVisit (str "assets")) siteWorld).
  vm_compute. discriminate.
Defined.

(** X13: [copyStaticDirectory] on a directory outside the output root, with
    fuel above the depth of the tree: the step does not end for want of
    fuel; it changes nothing outside the output root and removes no
    directory; the only regular files that change are the destinations
    [public/rel] of the files [rel] the walk reaches below the directory;
    and when the step completes each of them holds the bytes of its
    source. *)
Theorem X13_copyStaticDirectory_mirrors (fuel : nat) (directoryToCopy : gostring)
    (w : World) :
  let ks := components directoryToCopy in
  (∀ rel, ¬ inPublic (ks ++ rel)) →
  namesOk (disk w) →
  height (disk w) < fuel →
  let r := copyStaticDirectory fuel directoryToCopy w in
  r.1 ≠ OutOfFuel
  ∧ (∀ q, ¬ inPublic q → disk r.2 !! q = disk w !! q)
  ∧ (∀ q b, disk w !! q = Some (Dir b) → disk r.2 !! q = Some (Dir b))
  ∧ (∀ q, fileAt (disk r.2) q = fileAt (disk w) q
          ∨ ∃ rel, reachableFile (disk w) ks rel ∧ q = str "public" :: rel)
  ∧ (r.1 = Ok tt →
     ∀ rel, reachableFile (disk w) ks rel →
       ∃ c, fileAt (disk w) (ks ++ rel) = Some c
            ∧ fileAt (disk r.2) (str "public" :: rel) = Some c).
Proof.
  intros ks Hsrc Hn Hh r. destruct fuel as [|fuel]; [lia|].
  destruct (mirror_walk directoryToCopy (disk w) fuel Hsrc Hn [] w)
    as (M1 & M2 & [M3 M3'] & M4); [done|apply unchanged_refl|lia|].
  change (walk (S fuel) (pathBelow directoryToCopy []) (mirrorVisit directoryToCopy) w)
    with r in M1, M2, M3, M3', M4.
  rewrite app_nil_r in M4. fold ks in M4.
  split; [done|]. split; [done|]. split; [done|]. split.
  - intros q. destruct (M3' q) as [Heq|(rel & Hrel & ->)]; [by left|].
    right. exists rel. rewrite app_nil_r in Hrel. done.
  - intros Hok rel Hrel. destruct (M4 Hok rel Hrel) as (c & Hc). by exists c.
Qed.

Lemma X13_copyStaticDirectory_mirrors_witness :
  ((∀ rel, ¬ inPublic (components (str "static") ++ rel))
   ∧ namesOk (disk siteWorld) ∧ height (disk siteWorld) < 5)
  ∧ let r := copyStaticDirectory 5 (str "static") siteWorld in
    r.1 ≠ OutOfFuel
    ∧ (∀ q, ¬ inPublic q → disk r.2 !! q = disk siteWorld !! q)
    ∧ (∀ q b, disk siteWorld !! q = Some (Dir b) → disk r.2 !! q = Some (Dir b))
    ∧ (∀ q, fileAt (disk r.2) q = fileAt (disk siteWorld) q
            ∨ ∃ rel, reachableFile (disk siteWorld) (components (str "static")) rel
                     ∧ q = str "public" :: rel)
    ∧ (r.1 = Ok tt →
       ∀ rel, reachableFile (disk siteWorld) (components (str "static")) rel →
         ∃ c, fileAt (disk siteWorld) (components (str "static") ++ rel) = Some c
              ∧ fileAt (disk r.2) (str "public" :: rel) = Some c).
Proof.
  assert (H1 : ∀ rel, ¬ inPublic (components (str "static") ++ rel)).
  { intros rel [t Ht]. vm_compute in Ht. discriminate Ht. }
  assert (H3 : height (disk siteWorld) < 5) by (vm_compute; lia).
  split; [split; [exact H1|split; [exact namesOk_siteWorld|exact H3]]|].
  exact (X13_copyStaticDirectory_mirrors 5 (str "static") siteWorld
           H1 namesOk_siteWorld H3).
Defined.

(** X14: rendering the content tree writes below the output root only: on a
    well-formed file system, with fuel above the depth of the tree,
    [convertContentDirectory] does not end for want of fuel and, whatever
    its outcome, leaves every path outside [public] (the content, the theme,
    the static files) as it was and the file system well formed. *)
Theorem X14_convertContentDirectory_confined (fuel : nat)
    (templates : gmap gostring Template) (markdownWriter : Markdown) (w : World) :
  namesOk (disk w) → closed (disk w) → height (disk w) < fuel →
  let r := convertContentDirectory fuel templates markdownWriter w in
  r.1 ≠ OutOfFuel
  ∧ (∀ q, ¬ inPublic q → disk r.2 !! q = disk w !! q)
  ∧ namesOk (disk r.2) ∧ closed (disk r.2)
  ∧ height (disk r.2) ≤ height (disk w).
Proof.
  intros Hn Hc Hh r.
  destruct (sound_convertContentDirectory (height (disk w)) (disk w) fuel
              templates markdownWriter Hh w) as [[Hwf Hun] Hfuel].
  { split; [by apply wellFormed_height|apply unchanged_refl]. }
  fold r in Hwf, Hun, Hfuel.
  split; [done|]. split; [done|].
  split; [apply Hwf|]. split; [apply Hwf|]. by apply wellFormed_bound.
Qed.

Lemma X14_convertContentDirectory_confined_witness :
  (namesOk (disk siteWorld) ∧ closed (disk siteWorld)
   ∧ height (disk siteWorld) < 5)
  ∧ let r := convertContentDirectory 5 {[ str "default.html" := toyTemplate ]}
               toyMarkdown siteWorld in
    r.1 ≠ OutOfFuel
    ∧ (∀ q, ¬ inPublic q → disk r.2 !! q = disk siteWorld !! q)
    ∧ namesOk (disk r.2) ∧ closed (disk r.2)
    ∧ height (disk r.2) ≤ height (disk siteWorld).
Proof.
  assert (Hwf : wellFormed 4 (disk siteWorld))
    by (apply wellFormedb_spec; vm_compute; reflexivity).
  destruct Hwf as (Hn & Hc & _).
  assert (Hh : height (disk siteWorld) < 5) by (vm_compute; lia).
  split; [done|].
  exact (X14_convertContentDirectory_confined 5 _ toyMarkdown siteWorld Hn Hc Hh).
Defined.

(** ** The transpiler pass, once more *)

(** A file that was there before, reached through directories that were
    there before, was reached before. *)
Lemma reachableFile_before d d' rel :
  closed d →
  (∀ q b, d !! q = Some (Dir b) → d' !! q = Some (Dir b)) →
  ∀ k, k ≠ [] → (∃ b, d !! k = Some (Dir b)) →
    reachableFile d' k rel →
    (∃ c, d !! (k ++ rel) = Some (File c)) →
    reachableFile d k rel.
Proof.
  intros Hc HD. induction rel as [|n rel IH]; intros k Hk [b Hb] Hrel Hfile; [done|].
  apply reachableFile_cons in Hrel as [Hstat Hrel]. apply reachableFile_cons.
  assert (Hb' : d' !! k = Some (Dir b)) by (by apply HD).
  split.
  { destruct k; [done|]. cbn [stat] in *. congruence. }
  destruct rel as [|n' rel]; [done|].
  destruct Hrel as [_ Hrel]. destruct Hfile as [c Hcc].
  assert (Hdir : ∃ b', d !! (k ++ [n]) = Some (Dir b')).
  { apply (closed_ancestors d (k ++ [n]) (n' :: rel) (File c)); try done.
    - by destruct k.
    - by rewrite <- app_assoc. }
  split; [done|]. apply IH; [by destruct k|done|done|].
  exists c. by rewrite <- app_assoc.
Qed.

(** X15: after a pass that completes, no TypeScript source can be reached
    from [public] any more, so a second pass changes no regular file and
    removes no directory. *)
Theorem X15_transpile_leaves_no_source (E : Engines) (fuel : nat) (w : World) :
  namesOk (disk w) → closed (disk w) → height (disk w) < fuel →
  let r := transpileTypescript E fuel w in
  r.1 = Ok tt →
  (∀ s, ¬ tsUnder (disk r.2) [str "public"] s)
  ∧ (let r2 := transpileTypescript E fuel r.2 in
     r2.1 ≠ OutOfFuel
     ∧ (∀ q, fileAt (disk r2.2) q = fileAt (disk r.2) q)
     ∧ (∀ q b, disk r.2 !! q = Some (Dir b) → disk r2.2 !! q = Some (Dir b))).
Proof.
  intros Hn Hc Hh r Hok.
  destruct (transpileTypescript_spec E fuel w Hn Hc Hh)
    as [Hwf (T1 & T2 & [T3 T3'] & T4)].
  fold r in Hwf, T1, T2, T3, T3', T4.
  assert (Hnone : ∀ s, ¬ tsUnder (disk r.2) [str "public"] s).
  { intros s (rel & -> & Hrel & Hts).
    pose proof (reachableFile_file _ _ _ Hrel) as [c Hcc].
    assert (Hf : fileAt (disk r.2) ([str "public"] ++ rel) = Some c)
      by (by apply fileAt_Some).
    destruct (T3' ([str "public"] ++ rel)) as [Heq|(s0 & Hs0 & Hq)].
    - rewrite Hf in Heq. symmetry in Heq. apply fileAt_Some in Heq.
      assert (Hrel0 : rel ≠ []) by (by destruct rel).
      assert (Hbefore : reachableFile (disk w) [str "public"] rel).
      { apply (reachableFile_before (disk w) (disk r.2)); try done; [|by exists c].
        by apply (closed_ancestors (disk w) [str "public"] rel (File c)). }
      destruct (T4 Hok ([str "public"] ++ rel)) as [Hgone _].
      { by exists rel. }
      congruence.
    - destruct Hq as [Heq|Heq].
      + destruct (T4 Hok s0 Hs0) as [Hgone _]. rewrite <- Heq in Hgone. congruence.
      + destruct Hs0 as (rel0 & -> & Hrel0 & _).
        apply reachableFile_file in Hrel0 as [c0 Hc0].
        pose proof (nameOf_no_sep _ _ _ Hn Hc0) as Hname.
        by destruct (isTsKey_not_jsKey _ ([str "public"] ++ rel0) Hts). }
  split; [done|]. intros r2.
  destruct fuel as [|fuel']; [lia|].
  destruct (transpile_walk E (height (disk w)) fuel' [] r.2)
    as [_ (S1 & _ & [S3 S3'] & _)]; [done|done|cbn; lia|].
  change (walk (S fuel') (pathBelow (str "public") []) (transpileVisit E) r.2)
    with r2 in S1, S3, S3'.
  split; [done|]. split; [|done].
  intros q. destruct (S3' q) as [Heq|(s & Hs & _)]; [done|]. by destruct (Hnone s).
Qed.

Lemma X15_transpile_leaves_no_source_witness :
  (namesOk (disk scriptWorld) ∧ closed (disk scriptWorld)
   ∧ height (disk scriptWorld) < 5
   ∧ (transpileTypescript toyEngines 5 scriptWorld).1 = Ok tt)
  ∧ let r := transpileTypescript toyEngines 5 scriptWorld in
    (∀ s, ¬ tsUnder (disk r.2) [str "public"] s)
    ∧ (let r2 := transpileTypescript toyEngines 5 r.2 in
       r2.1 ≠ OutOfFuel
       ∧ (∀ q, fileAt (disk r2.2) q = fileAt (disk r.2) q)
       ∧ (∀ q b, disk r.2 !! q = Some (Dir b) → disk r2.2 !! q = Some (Dir b))).
Proof.
  assert (Hwf : wellFormed 3 (disk scriptWorld))
    by (apply wellFormedb_spec; vm_compute; reflexivity).
  destruct Hwf as (Hn & Hc & _).
  assert (Hh : height (disk scriptWorld) < 5) by (vm_compute; lia).
  assert (Hok : (transpileTypescript toyEngines 5 scriptWorld).1 = Ok tt)
    by (vm_compute; reflexivity).
  split; [exact (conj Hn (conj Hc (conj Hh Hok)))|].
  exact (X15_transpile_leaves_no_source toyEngines 5 scriptWorld Hn Hc Hh Hok).
Defined.

(** ** What the build never touches *)

Lemma closed_delete_empty k d :
  closed d → children d k = [] → closed (delete k d).
Proof.
  intros Hc Hk q nd Hq.
  destruct (decide (q = k)) as [->|Hne]; [by rewrite lookup_delete_eq in Hq|].
  rewrite lookup_delete_ne in Hq by done.
  destruct (Hc q nd Hq) as [b Hb]. exists b.
  destruct (decide (parent q = k)) as [Hpk|Hpk].
  - exfalso. destruct q as [|x q' _] using rev_ind.
    + apply Hne. by rewrite <- Hpk.
    + rewrite parent_snoc in Hpk. subst q'.
      assert (Hin : {| Name := x; IsDir := isDirNode nd |} ∈ children d k).
      { apply children_spec. by exists nd. }
      rewrite Hk in Hin. by apply elem_of_nil in Hin.
  - destruct (parent q) as [|a p]; [done|]. cbn [stat] in *.
    by rewrite lookup_delete_ne.
Qed.

Lemma sound_os_Remove H d0 path :
  inPublic (components path) → safe (sound H d0) (os_Remove path).
Proof.
  intros Hpub. apply safe_sys. intros d [(Hn & Hc & Hb) Hun]. cbn [snd].
  destruct (remove (components path) d) as [[no|] d'] eqn:Hrm.
  - apply remove_spec in Hrm as ->. by split.
  - apply remove_spec in Hrm as (-> & _ & Hcase). cbn [snd]. split.
    + split; [by apply namesOk_delete|]. split; [|by apply bounded_delete].
      destruct Hcase as [[c Hk]|[_ Hk]];
        [by eapply closed_delete_file|by apply closed_delete_empty].
    + eapply unchanged_trans; [exact Hun|]. by apply unchanged_delete.
Qed.

Lemma sound_transpileVisit E H d0 rels n :
  Forall validName rels → validName n →
  length (str "public" :: rels ++ [n]) ≤ H →
  safe (sound H d0) (transpileVisit E (pathBelow (str "public") (rels ++ [n]))).
Proof.
  intros Hrels Hn Hlen. unfold transpileVisit.
  destruct (decide _) as [|_]; [apply safe_ret|]. cbv zeta.
  assert (Hsl : "/"%char ∉ n) by apply Hn.
  pose proof (jsName_valid n Hsl) as Hjsn.
  destruct (outPath_below H rels n Hrels Hn Hlen) as [Hsrc _].
  rewrite (pathBelow_snoc _ rels n), changeExtension_stem;
    [|done|apply spaceWidth_pathBelow_public].
  rewrite <- !pathBelow_snoc.
  assert (Hlen' : length (str "public" :: rels ++ [stemOf n ++ str ".js"]) ≤ H).
  { cbn [length] in Hlen |- *. rewrite length_app in Hlen |- *. done. }
  destruct (outPath_below H rels _ Hrels Hjsn Hlen') as [Hout _].
  apply safe_bind.
  { apply sound_createDirectoryPath. rewrite pathBelow_snoc, app_assoc.
    destruct (components_public_dir rels Hrels) as [Hca Hsa].
    unfold outPath. rewrite components_Dir; [|apply Hjsn|done]. rewrite Hca.
    split; [|split; [|by apply prefix_cons, prefix_nil]].
    - do 2 (constructor; [apply validName_public|]). done.
    - cbn [length] in Hlen |- *. rewrite length_app in Hlen. cbn [length] in Hlen.
      lia. }
  intros _. apply safe_bind.
  { unfold transpileTypescriptFile.
    apply safe_bind; [apply safe_os_ReadFile|]. intros [tsCode err].
    apply safe_bind; [apply safe_check|]. intros _.
    apply safe_bind.
    { apply safe_sys. intros d Hd. by destruct (TranspileString E tsCode). }
    intros [transpiled err1].
    apply safe_bind; [apply safe_check|]. intros _.
    apply (safe_bind_on _ (λ a, a.1 = pathBelow (str "public")
                                        (rels ++ [stemOf n ++ str ".js"])));
      [apply os_Create_handle|by apply sound_os_Create|].
    intros [outputFile err2] Hd. cbn in Hd. subst outputFile.
    apply safe_bind; [apply safe_check|]. intros _.
    apply safe_bind; [|intros e; apply safe_check].
    apply safe_sys. intros d Hd. cbn [snd]. apply sound_append; [apply Hout|done]. }
  intros _. apply safe_bind; [|intros e; apply safe_check].
  apply sound_os_Remove, Hsrc.
Qed.

Lemma sound_transpileTypescript E H d0 fuel :
  H < fuel → safe (sound H d0) (transpileTypescript E fuel).
Proof.
  intros Hf. destruct fuel as [|fuel]; [lia|]. unfold transpileTypescript.
  change (str "public") with (pathBelow (str "public") []) at 1.
  apply (safe_walk _ H); [apply sound_wf| |done|lia].
  intros rels n Hrels Hn Hlen. by apply sound_transpileVisit.
Qed.

Lemma sound_main E H d0 fuel :
  2 ≤ H → H < fuel → safe (sound H d0) (main E fuel).
Proof.
  intros H2 Hf. unfold main.
  apply safe_bind; [apply safe_generateTemplates|]. intros templates.
  apply safe_bind; [apply safe_sys; by intros|]. intros md.
  apply safe_bind; [apply sound_os_RemoveAll|]. intros err.
  apply safe_bind; [apply safe_check|]. intros _.
  apply safe_bind; [by apply sound_convertContentDirectory|]. intros _.
  apply safe_bind; [by apply sound_copyStaticDirectory|]. intros _.
  apply safe_bind; [by apply sound_copyStaticDirectory|]. intros _.
  apply safe_bind; [by apply sound_transpileTypescript|]. intros _.
  apply safe_bind.
  { apply sound_os_Create. split; [|split; [done|by apply prefix_cons, prefix_nil]].
    by apply (bool_decide_unpack _). }
  intros [f err']. apply safe_bind; [apply safe_check|]. intros _.
  unfold startHTTPServer. apply safe_bind; [apply safe_sys; by intros|].
  intros e. apply safe_exit.
Qed.

(** X16: a build writes below the output root only.  On a well-formed file
    system, with fuel above the depth of the tree, [main] does not end for
    want of fuel, never returns normally, and at whatever step it ends every
    path outside [public] (content, theme, static files and anything else)
    is as it was; the file system stays well formed. *)
Theorem X16_main_writes_below_public (E : Engines) (fuel : nat) (w : World) :
  namesOk (disk w) → closed (disk w) → height (disk w) < fuel → 2 < fuel →
  let r := main E fuel w in
  r.1 ≠ OutOfFuel
  ∧ stopped r.1
  ∧ (∀ q, ¬ inPublic q → disk r.2 !! q = disk w !! q)
  ∧ namesOk (disk r.2) ∧ closed (disk r.2).
Proof.
  intros Hn Hc Hh H2 r.
  set (H := height (disk w) `max` 2).
  assert (Hs0 : sound H (disk w) (disk w)).
  { split; [|apply unchanged_refl]. split; [done|]. split; [done|].
    intros q nd Hq. apply height_le in Hq. unfold H. lia. }
  destruct (sound_main E H (disk w) fuel) with (w := w) as [[Hwf Hun] Hfuel];
    [unfold H; lia|unfold H; lia|done|].
  fold r in Hwf, Hun, Hfuel.
  split; [done|]. split; [apply (main_call_order E fuel w)|].
  split; [done|]. split; apply Hwf.
Qed.

Lemma X16_main_writes_below_public_witness :
  (namesOk (disk siteWorld) ∧ closed (disk siteWorld)
   ∧ height (disk siteWorld) < 10 ∧ 2 < 10)
  ∧ let r := main toyEngines 10 siteWorld in
    r.1 ≠ OutOfFuel
    ∧ stopped r.1
    ∧ (∀ q, ¬ inPublic q → disk r.2 !! q = disk siteWorld !! q)
    ∧ namesOk (disk r.2) ∧ closed (disk r.2).
Proof.
  assert (Hwf : wellFormed 4 (disk siteWorld))
    by (apply wellFormedb_spec; vm_compute; reflexivity).
  destruct Hwf as (Hn & Hc & _).
  assert (Hh : height (disk siteWorld) < 10) by (vm_compute; lia).
  assert (H2 : 2 < 10) by lia.
  split; [exact (conj Hn (conj Hc (conj Hh H2)))|].
  exact (X16_main_writes_below_public toyEngines 10 siteWorld Hn Hc Hh H2).
Defined.

(** X17: a build that gets as far as to start the preview server has left
    the marker [public/.nojekyll] as an empty regular file, also when the
    static tree has a [.nojekyll] file with other bytes. *)
Theorem X17_main_marker_is_empty (E : Engines) (fuel : nat) (w : World) :
  namesOk (disk w) → closed (disk w) → height (disk w) < fuel → 2 < fuel →
  serve ∉ calls w →
  let r := main E fuel w in
  serve ∈ calls r.2 →
  fileAt (disk r.2) [str "public"; str ".nojekyll"] = Some [].
Proof.
  intros Hn Hc Hh H2 Hs r.
  set (H := height (disk w) `max` 2).
  assert (Hs0 : sound H (disk w) (disk w)).
  { split; [|apply unchanged_refl]. split; [done|]. split; [done|].
    intros q nd Hq. apply height_le in Hq. unfold H. lia. }
  assert (HH : H < fuel) by (unfold H; lia).
  set (d0 := disk w) in Hs0 at 1.
  cut (served (λ d, fileAt d [str "public"; str ".nojekyll"] = Some []) r).
  { by intros [_ Hserved]. }
  subst r. unfold main.
  apply (served_bind (sound H d0) loadCall);
    [apply emits_generateTemplates|apply serve_not_load|
     apply safe_generateTemplates|done|done|].
  intros templates w1 _ Hs1 Hc1.
  apply (served_bind (sound H d0) (fnIn ["goldmark.New"%string]));
    [apply emits_sys; by left|by apply serve_not_fn|
     apply safe_sys; by intros|done|done|].
  intros md w2 _ Hs2 Hc2.
  apply (served_bind (sound H d0) (fnIn ["os.RemoveAll"%string]));
    [apply emits_sys; by left|by apply serve_not_fn|
     apply sound_os_RemoveAll|done|done|].
  intros err w3 _ Hs3 Hc3.
  apply (served_bind (sound H d0) (λ _, False));
    [apply emits_check|tauto|apply safe_check|done|done|].
  intros _ w3' _ Hs3' Hc3'.
  apply (served_bind (sound H d0) renderCall);
    [apply emits_convertContentDirectory|apply serve_not_render|
     by apply sound_convertContentDirectory|done|done|].
  intros [] w4 _ Hs4 Hc4.
  apply (served_bind (sound H d0) (mirrorCall "theme/static"));
    [apply emits_copyStaticDirectory|apply serve_not_mirror|
     by apply sound_copyStaticDirectory|done|done|].
  intros [] w5 _ Hs5 Hc5.
  apply (served_bind (sound H d0) (mirrorCall "static"));
    [apply emits_copyStaticDirectory|apply serve_not_mirror|
     by apply sound_copyStaticDirectory|done|done|].
  intros [] w6 _ Hs6 Hc6.
  apply (served_bind (sound H d0) transpileCall);
    [apply emits_transpileTypescript|apply serve_not_transpile|
     by apply sound_transpileTypescript|done|done|].
  intros [] w7 _ Hs7 Hc7.
  unfold os_Create. rewrite bind_sys. cbn [fst snd].
  change (components (str "public/.nojekyll"))
    with [str "public"; str ".nojekyll"].
  destruct (create [str "public"; str ".nojekyll"] (disk w7)) as [[no|] d8] eqn:Hcr;
    cbn [pathError fst snd].
  - rewrite bind_check_Some. split; [done|]. cbn [snd calls logged].
    intros Hin. exfalso. apply elem_of_app in Hin as [Hin|Hin]; [done|].
    apply list_elem_of_singleton in Hin. discriminate Hin.
  - rewrite bind_check_None. unfold startHTTPServer, http_ListenAndServe.
    rewrite bind_sys. cbn [fst snd]. split; [done|].
    intros _. cbn [snd disk logged exit].
    apply create_spec in Hcr as (-> & _). unfold fileAt.
    by rewrite lookup_insert_eq.
Qed.

Example nojekyll_truncated :
  let w := mkWorld [ ("static", Dir true);
                     ("static/.nojekyll", File (str "keep")) ] in
  let r := main toyEngines 10 w in
  last (calls r.2) = Some serve
  ∧ fileAt (disk r.2) [str "public"; str ".nojekyll"] = Some [].
Proof. vm_compute. done. Qed.

Lemma X17_main_marker_is_empty_witness :
  let r := main toyEngines 10 siteWorld in
  (namesOk (disk siteWorld) ∧ closed (disk siteWorld)
   ∧ height (disk siteWorld) < 10 ∧ 2 < 10 ∧ (serve ∉ calls siteWorld)
   ∧ serve ∈ calls r.2)
  ∧ fileAt (disk r.2) [str "public"; str ".nojekyll"] = Some [].
Proof.
  intros r.
  assert (Hwf : wellFormed 4 (disk siteWorld))
    by (apply wellFormedb_spec; vm_compute; reflexivity).
  destruct Hwf as (Hn & Hc & _).
  assert (Hh : height (disk siteWorld) < 10) by (vm_compute; lia).
  assert (H2 : 2 < 10) by lia.
  assert (Hs : serve ∉ calls siteWorld) by apply not_elem_of_nil.
  assert (Hr : serve ∈ calls r.2).
  { assert (Hl : last (calls r.2) = Some serve) by (vm_compute; reflexivity).
    apply last_Some in Hl as [l Hl]. rewrite Hl. apply elem_of_app. right.
    by left. }
  split; [exact (conj Hn (conj Hc (conj Hh (conj H2 (conj Hs Hr)))))|].
  exact (X17_main_marker_is_empty toyEngines 10 siteWorld Hn Hc Hh H2 Hs Hr).
Defined.

(** ** A page that renders *)

Lemma create_ok k d b :
  k ≠ [] → stat d (parent k) = Some (Dir b) → (∀ b', d !! k ≠ Some (Dir b')) →
  create k d = (None, <[k := File []]> d).
Proof.
  intros Hk Hpar Hnodir. unfold create. destruct k as [|a k']; [done|].
  rewrite Hpar. destruct (d !! (a :: k')) as [[c'|b']|] eqn:Hl; try done.
  by destruct (Hnodir b').
Qed.

Lemma mkdirAll_exists pre n d b :
  d !! (pre ++ [n]) = Some (Dir b) → mkdirAll pre [n] d = (None, d).
Proof. intros Hd. cbn [mkdirAll]. by rewrite Hd. Qed.

(** X18: rendering a page that is not a draft, whose front matter has
    [Title], [Summary] and [Template] as strings and [Params] absent or a
    map, with the template [Template + ".html"] loaded, and whose output
    file can be created: the output file holds what the template writes for
    the title, the summary, the converted body and the parameters (none when
    [Params] is absent), the directories of the output path exist and
    nothing else has changed; the build goes on unless executing the
    template fails. *)
Theorem X18_generateHtmlFile_renders (templates : gmap gostring Template)
    (markdownWriter : Markdown) (sourceMd outputFile buf : gostring)
    (metaData : MetaData) (t s n : gostring) (pp : list (value * value))
    (pageTemplate : Template) (d1 d2 : FS) (w : World) :
  markdownWriter sourceMd = inl (buf, metaData) →
  isTrue (index metaData "Draft") = false →
  index metaData "Title" = VString t →
  index metaData "Summary" = VString s →
  index metaData "Template" = VString n →
  (index metaData "Params" = VNil ∧ pp = []) ∨ index metaData "Params" = VMap pp →
  templates !! (n ++ str ".html") = Some pageTemplate →
  mkdirAll [] (components (filepath_Dir outputFile)) (disk w) = (None, d1) →
  create (components outputFile) d1 = (None, d2) →
  let data := {| Title := t; Summary := s; Body := buf; PageParams := pp |} in
  let out := Execute pageTemplate (n ++ str ".html") data in
  let r := generateHtmlFile templates markdownWriter sourceMd outputFile w in
  disk r.2 = <[components outputFile := File out.1]> d1
  ∧ r.1 = match out.2 with
          | None => Ok tt
          | Some e => Fatal (FatalError e)
          end.
Proof.
  intros Hconv Hd Ht Hs Hn Hp Htpl Hmk Hcr data out r.
  assert (Hr : r = generateHtmlFile templates markdownWriter sourceMd outputFile w)
    by done.
  clearbody r. unfold generateHtmlFile in Hr.
  rewrite (bind_Ok _ _ _ _ _ (Convert_ok _ _ _ _ w Hconv)) in Hr.
  rewrite bind_check_None, Hd in Hr.
  unfold bind at 1 in Hr. rewrite createDirectoryPath_run in Hr.
  cbn [disk called] in Hr. rewrite Hmk in Hr. cbn [fst snd] in Hr.
  unfold os_Create in Hr. rewrite bind_sys in Hr.
  cbn [disk logged fst snd] in Hr. rewrite Hcr in Hr.
  cbn [pathError fst snd] in Hr. rewrite bind_check_None in Hr.
  apply create_spec in Hcr as (-> & _).
  rewrite Ht, Hs, Hn in Hr.
  assert (Hparams : (if isNil (index metaData "Params") then VMap []
                     else index metaData "Params") = VMap pp).
  { destruct Hp as [[-> ->]| ->]; done. }
  rewrite Hparams in Hr.
  cbn [assertString assertMap] in Hr. rewrite !bind_ret in Hr.
  unfold addExtension in Hr. rewrite Htpl in Hr.
  unfold Template_ExecuteTemplate in Hr. rewrite bind_sys in Hr.
  cbn [disk logged fst snd] in Hr. fold data in Hr. fold out in Hr.
  unfold append in Hr. rewrite lookup_insert_eq in Hr.
  cbn [app] in Hr. rewrite insert_insert_eq in Hr. cbn [fst snd] in Hr.
  rewrite Hr. by destruct (out.2).
Qed.

Lemma X18_generateHtmlFile_renders_witness :
  let r := generateHtmlFile {[ str "default.html" := toyTemplate ]} toyMarkdown
             (str "hello") (str "public/a.html") siteWorld in
  disk r.2 = <[components (str "public/a.html") := File (str "t:hello")]>
               (disk siteWorld)
  ∧ r.1 = Ok tt.
Proof.
  apply (X18_generateHtmlFile_renders {[ str "default.html" := toyTemplate ]}
           toyMarkdown (str "hello") (str "public/a.html") (str "hello")
           {[ str "Title" := VString (str "t");
              str "Summary" := VString (str "s");
              str "Template" := VString (str "default") ]}
           (str "t") (str "s") (str "default") [] toyTemplate
           (disk siteWorld)
           (<[components (str "public/a.html") := File []]> (disk siteWorld))
           siteWorld).
  - reflexivity.
  - reflexivity.
  - reflexivity.
  - reflexivity.
  - reflexivity.
  - left. split; reflexivity.
  - reflexivity.
  - change (components (filepath_Dir (str "public/a.html"))) with ([] ++ [str "public"]).
    apply (mkdirAll_exists [] (str "public") (disk siteWorld) true).
    vm_compute. reflexivity.
  - change (components (str "public/a.html")) with [str "public"; str "a.html"].
    apply (create_ok _ _ true); [done|vm_compute; reflexivity|].
    intros b'. vm_compute. discriminate.
Defined.

(** X19: a page whose [Template] names a template that is not loaded halts
    the build ([log.Fatalf]) after the output file has been created: the
    file is left empty. *)
Theorem X19_generateHtmlFile_missing_template (templates : gmap gostring Template)
    (markdownWriter : Markdown) (sourceMd outputFile buf : gostring)
    (metaData : MetaData) (t s n : gostring) (pp : list (value * value))
    (d1 d2 : FS) (w : World) :
  markdownWriter sourceMd = inl (buf, metaData) →
  isTrue (index metaData "Draft") = false →
  index metaData "Title" = VString t →
  index metaData "Summary" = VString s →
  index metaData "Template" = VString n →
  (index metaData "Params" = VNil ∧ pp = []) ∨ index metaData "Params" = VMap pp →
  templates !! (n ++ str ".html") = None →
  mkdirAll [] (components (filepath_Dir outputFile)) (disk w) = (None, d1) →
  create (components outputFile) d1 = (None, d2) →
  let r := generateHtmlFile templates markdownWriter sourceMd outputFile w in
  r.1 = Fatal (FatalNoTemplate (n ++ str ".html"))
  ∧ disk r.2 = <[components outputFile := File []]> d1.
Proof.
  intros Hconv Hd Ht Hs Hn Hp Htpl Hmk Hcr r.
  assert (Hr : r = generateHtmlFile templates markdownWriter sourceMd outputFile w)
    by done.
  clearbody r. unfold generateHtmlFile in Hr.
  rewrite (bind_Ok _ _ _ _ _ (Convert_ok _ _ _ _ w Hconv)) in Hr.
  rewrite bind_check_None, Hd in Hr.
  unfold bind at 1 in Hr. rewrite createDirectoryPath_run in Hr.
  cbn [disk called] in Hr. rewrite Hmk in Hr. cbn [fst snd] in Hr.
  unfold os_Create in Hr. rewrite bind_sys in Hr.
  cbn [disk logged fst snd] in Hr. rewrite Hcr in Hr.
  cbn [pathError fst snd] in Hr. rewrite bind_check_None in Hr.
  apply create_spec in Hcr as (-> & _).
  rewrite Ht, Hs, Hn in Hr.
  assert (Hparams : (if isNil (index metaData "Params") then VMap []
                     else index metaData "Params") = VMap pp).
  { destruct Hp as [[-> ->]| ->]; done. }
  rewrite Hparams in Hr.
  cbn [assertString assertMap] in Hr. rewrite !bind_ret in Hr.
  unfold addExtension in Hr. rewrite Htpl in Hr.
  by rewrite Hr.
Qed.

Lemma X19_generateHtmlFile_missing_template_witness :
  let r := generateHtmlFile ∅ toyMarkdown (str "hello") (str "public/a.html")
             siteWorld in
  r.1 = Fatal (FatalNoTemplate (str "default.html"))
  ∧ disk r.2 = <[components (str "public/a.html") := File []]> (disk siteWorld).
Proof.
  apply (X19_generateHtmlFile_missing_template ∅
           toyMarkdown (str "hello") (str "public/a.html") (str "hello")
           {[ str "Title" := VString (str "t");
              str "Summary" := VString (str "s");
              str "Template" := VString (str "default") ]}
           (str "t") (str "s") (str "default") []
           (disk siteWorld)
           (<[components (str "public/a.html") := File []]> (disk siteWorld))
           siteWorld).
  - reflexivity.
  - reflexivity.
  - reflexivity.
  - reflexivity.
  - reflexivity.
  - left. split; reflexivity.
  - reflexivity.
  - change (components (filepath_Dir (str "public/a.html"))) with ([] ++ [str "public"]).
    apply (mkdirAll_exists [] (str "public") (disk siteWorld) true).
    vm_compute. reflexivity.
  - change (components (str "public/a.html")) with [str "public"; str "a.html"].
    apply (create_ok _ _ true); [done|vm_compute; reflexivity|].
    intros b'. vm_compute. discriminate.
Defined.

(** ** The content step *)

(** Steps that write through [os.MkdirAll], [os.Create] and a file handle
    keep an invariant that these three keep. *)
Section Written.
Context (I : FS → Prop) (okDir okFile : list gostring → Prop).
Hypothesis I_mkdirAll : ∀ ks d, okDir ks → I d → I (mkdirAll [] ks d).2.
Hypothesis I_create : ∀ k d, okFile k → I d → I (create k d).2.
Hypothesis I_append : ∀ k data d, okFile k → I d → I (append k data d).2.

Lemma written_createDirectoryPath (path : gostring) :
  okDir (components (filepath_Dir path)) → safe I (createDirectoryPath path).
Proof.
  intros Hp. unfold createDirectoryPath, os_MkdirAll.
  apply safe_bind; [|intros err; apply safe_check].
  apply safe_sys. intros d Hd. cbn [snd]. by apply I_mkdirAll.
Qed.

Lemma written_os_Create (path : gostring) :
  okFile (components path) → safe I (os_Create path).
Proof. intros Hp. apply safe_sys. intros d Hd. cbn [snd]. by apply I_create. Qed.

Lemma written_copyFile (src dest : gostring) :
  okFile (components dest) → safe I (copyFile src dest).
Proof.
  intros Hp. unfold copyFile.
  apply safe_bind; [apply safe_os_Open|]. intros [source err].
  apply safe_bind; [apply safe_check|]. intros _.
  apply (safe_bind_on _ (λ a, a.1 = dest)); [apply os_Create_handle|
    by apply written_os_Create|].
  intros [destination err1] Hd. cbn in Hd. subst destination.
  apply safe_bind; [apply safe_check|]. intros _.
  apply safe_bind; [|intros e; apply safe_check].
  apply safe_sys. intros d Hd.
  destruct (readFile (components source) d) as [c [no|]];
    [exact Hd|by apply I_append].
Qed.

Lemma written_generateHtmlFile (templates : gmap gostring Template)
    (md : Markdown) (source dest : gostring) :
  okDir (components (filepath_Dir dest)) → okFile (components dest) →
  safe I (generateHtmlFile templates md source dest).
Proof.
  intros Hdir Hp. unfold generateHtmlFile.
  apply safe_bind; [apply safe_Markdown_Convert|]. intros [[buf metaData] err].
  apply safe_bind; [apply safe_check|]. intros _.
  destruct (isTrue (index metaData "Draft")); [apply safe_ret|].
  apply safe_bind; [by apply written_createDirectoryPath|]. intros _.
  apply (safe_bind_on _ (λ a, a.1 = dest)); [apply os_Create_handle|
    by apply written_os_Create|].
  intros [file err1] Hd. cbn in Hd. subst file.
  apply safe_bind; [apply safe_check|]. intros _. cbv zeta.
  apply safe_bind; [apply safe_assertString|]. intros title.
  apply safe_bind; [apply safe_assertString|]. intros summary.
  apply safe_bind; [apply safe_assertMap|]. intros pageParams.
  apply safe_bind; [apply safe_assertString|]. intros template.
  destruct (templates !! _) as [pageTemplate|]; [|apply safe_exit].
  apply safe_bind; [|intros e; apply safe_check].
  apply safe_sys. intros d Hd. cbv zeta.
  pose proof (I_append (components dest)
                (Execute pageTemplate (addExtension template (str ".html"))
                   {| Title := title; Summary := summary; Body := buf;
                      PageParams := pageParams |}).1 d Hp Hd) as Hap.
  destruct (append (components dest) _ d) as [[no|] d']; exact Hap.
Qed.

End Written.

Lemma frame_refl dA K : frame dA K dA.
Proof. split; [apply unchanged_refl|apply keeps_refl]. Qed.

Lemma frame_mkdirAll dA K ks d :
  inPublic ks → frame dA K d → frame dA K (mkdirAll [] ks d).2.
Proof.
  intros Hpub [Hu Hk]. split.
  - eapply unchanged_trans; [exact Hu|]. apply unchanged_mkdirAll.
    intros i Hi. apply inPublic_take; [done|lia].
  - eapply keeps_trans; [exact Hk|]. apply keeps_mkdirAll.
Qed.

Lemma frame_create dA (K : list gostring → Prop) k d :
  inPublic k ∧ K k → frame dA K d → frame dA K (create k d).2.
Proof.
  intros [Hpub HK] [Hu Hk]. destruct (create k d) as [[no|] d'] eqn:Hcr.
  - apply create_spec in Hcr as ->. by split.
  - apply create_spec in Hcr as (-> & _ & Hnd). cbn [snd]. split.
    + eapply unchanged_trans; [exact Hu|]. by apply unchanged_insert.
    + eapply keeps_trans; [exact Hk|].
      eapply keeps_mono; [|by apply keeps_insert_file]. by intros q ->.
Qed.

Lemma frame_append dA (K : list gostring → Prop) k data d :
  inPublic k ∧ K k → frame dA K d → frame dA K (append k data d).2.
Proof.
  intros [Hpub HK] [Hu Hk]. destruct (append k data d) as [[no|] d'] eqn:Hap.
  - apply append_spec in Hap as ->. by split.
  - apply append_spec in Hap as (c & Hc & ->). cbn [snd]. split.
    + eapply unchanged_trans; [exact Hu|]. by apply unchanged_insert.
    + eapply keeps_trans; [exact Hk|].
      eapply keeps_mono; [|apply keeps_insert_file]; [by intros q ->|].
      intros b. by rewrite Hc.
Qed.

Lemma copyFile_result src dst w :
  (copyFile src dst w).1 = Ok tt → components src ≠ components dst →
  ∃ c, stat (disk w) (components src) = Some (File c)
       ∧ fileAt (disk (copyFile src dst w).2) (components dst) = Some c.
Proof.
  set (ks := components src). set (kd := components dst).
  set (r := copyFile src dst w). intros Hok Hne.
  assert (Hr : r = copyFile src dst w) by done.
  clearbody r. unfold copyFile, os_Open in Hr. rewrite bind_sys in Hr.
  fold ks in Hr. destruct (stat (disk w) ks) as [nd|] eqn:Hsrc;
    cbn [fst snd] in Hr; [|by rewrite Hr in Hok].
  rewrite bind_check_None in Hr.
  unfold os_Create in Hr. rewrite bind_sys in Hr.
  cbn [fst snd disk logged] in Hr. fold kd in Hr.
  destruct (create kd (disk w)) as [e d1] eqn:Hcr. apply create_spec in Hcr.
  destruct e as [no|]; cbn [fst snd pathError] in Hr; [by rewrite Hr in Hok|].
  destruct Hcr as (-> & _ & _). rewrite bind_check_None in Hr.
  unfold io_Copy in Hr. rewrite bind_sys in Hr.
  cbn [fst snd disk logged] in Hr. fold ks kd in Hr.
  destruct (readFile ks _) as [c [no|]] eqn:Hrd; cbn [fst snd] in Hr;
    [by rewrite Hr in Hok|].
  apply readFile_spec in Hrd.
  assert (Hks : stat (disk w) ks = Some (File c)).
  { destruct ks; [done|]. cbn [stat] in *. by rewrite lookup_insert_ne in Hrd. }
  exists c. split; [by rewrite <- Hsrc|].
  unfold append in Hr. rewrite lookup_insert_eq in Hr.
  cbn [fst snd pathError app] in Hr. rewrite insert_insert_eq in Hr.
  rewrite Hr. cbn. unfold fileAt. by rewrite lookup_insert_eq.
Qed.

Lemma htmlKey_snoc k n : htmlKey (k ++ [n]) = k ++ [stemOf n ++ str ".html"].
Proof. unfold htmlKey. by rewrite parent_snoc, nameOf_snoc. Qed.

Lemma getExtension_html n :
  "/"%char ∉ n → getExtension ("/"%char :: stemOf n ++ str ".html") = str ".html".
Proof.
  intros Hn.
  destruct (getExtension_changeExtension ("/"%char :: n) (str "html")) as [_ H].
  - by apply (bool_decide_unpack _).
  - reflexivity.
  - unfold changeExtension, addExtension in H.
    destruct (stem_spec n Hn) as (Hrm & _). by rewrite Hrm in H.
Qed.

Lemma spaceWidth_pathBelow_content rels :
  spaceWidth (pathBelow (str "content") rels) = 0.
Proof. by rewrite pathBelow_root. Qed.

Lemma contentVisit_effect templates md rels n w :
  Forall validName rels → validName n →
  published (disk w) (.= rels ++ [n]) w
    (contentVisit templates md (pathBelow (str "content") (rels ++ [n])) w).
Proof.
  intros Hrels Hn.
  assert (Hsl : "/"%char ∉ n) by apply Hn.
  set (rel := rels ++ [n]).
  set (K := λ q : list gostring, ∃ rel0, rel0 = rel ∧ q = outKey rel0).
  assert (Hext : getExtension (pathBelow (str "content") rel)
                 = getExtension ("/"%char :: n)).
  { unfold rel. rewrite pathBelow_snoc. by apply getExtension_name. }
  assert (Hmd : isMdKey rel ↔ getExtension (pathBelow (str "content") rel) = str ".md").
  { unfold isMdKey. rewrite Hext. unfold rel. by rewrite nameOf_snoc. }
  assert (Hdest : ∀ m, validName m →
            components (pathBelow (str "public") (rels ++ [m]))
            = str "public" :: rels ++ [m]
            ∧ inPublic (components (filepath_Dir (pathBelow (str "public") (rels ++ [m]))))).
  { intros m Hm.
    destruct (outPath_below (length (str "public" :: rels ++ [m])) rels m)
      as [(_ & _ & _) (_ & _ & H2)]; [done..|].
    split; [|done]. rewrite components_pathBelow; [done|].
    apply Forall_app. split; [done|by apply Forall_singleton]. }
  assert (Hsafe : safe (frame (disk w) K)
            (contentVisit templates md (pathBelow (str "content") rel))).
  { unfold contentVisit. destruct (decide _) as [Hyes|Hno].
    - apply safe_bind; [apply safe_os_ReadFile|]. intros [fileData err].
      apply safe_bind; [apply safe_check|]. intros _.
      unfold rel. rewrite pathBelow_snoc, changeExtension_stem;
        [|done|apply spaceWidth_pathBelow_content].
      rewrite <- pathBelow_snoc, content_dest.
      destruct (Hdest (stemOf n ++ str ".html")) as [H1 H2];
        [by apply htmlName_valid|].
      apply (written_generateHtmlFile _ inPublic (λ k, inPublic k ∧ K k));
        [apply frame_mkdirAll|apply frame_create|apply frame_append|done|].
      rewrite H1. split; [by apply prefix_cons, prefix_nil|].
      exists rel. split; [done|]. unfold outKey.
      rewrite decide_True by (by apply Hmd). unfold rel. by rewrite htmlKey_snoc.
    - cbv zeta. unfold rel. rewrite content_dest.
      destruct (Hdest n Hn) as [H1 H2].
      assert (HK : inPublic (components (pathBelow (str "public") (rels ++ [n])))
                   ∧ K (components (pathBelow (str "public") (rels ++ [n])))).
      { rewrite H1. split; [by apply prefix_cons, prefix_nil|].
        exists rel. split; [done|]. unfold outKey.
        rewrite decide_False; [done|]. intros Hm. by apply Hno, Hmd. }
      apply safe_bind.
      + by apply (written_createDirectoryPath _ inPublic); [apply frame_mkdirAll|].
      + intros _. by apply (written_copyFile _ (λ k, inPublic k ∧ K k));
          [apply frame_create|apply frame_append|]. }
  destruct (Hsafe w (frame_refl _ _)) as [Hframe Hfuel].
  split; [done|]. split; [done|].
  intros Hok rel0 -> Hnomd _.
  assert (Hno : getExtension (pathBelow (str "content") rel) ≠ str ".md").
  { intros H. by apply Hnomd, Hmd. }
  unfold contentVisit in Hok |- *. rewrite decide_False in Hok |- * by done.
  cbv zeta in Hok |- *. unfold rel in Hok |- *. rewrite content_dest in Hok |- *.
  fold rel in Hok |- *.
  set (dest := pathBelow (str "public") rel) in *.
  set (src := pathBelow (str "content") rel) in *.
  unfold bind in Hok |- *. rewrite createDirectoryPath_run in Hok |- *.
  pose proof (mkdirAll_fileAt [] (components (filepath_Dir dest)) (disk w)) as Hf1.
  destruct (mkdirAll [] (components (filepath_Dir dest)) (disk w)) as [[no|] d1];
    cbn [fst snd] in Hok, Hf1 |- *; [done|].
  set (w1 := logged w d1 "os.MkdirAll" [filepath_Dir dest]) in *.
  assert (Hks : components src = str "content" :: rel).
  { unfold src. rewrite components_pathBelow; [done|].
    apply Forall_app. split; [done|by apply Forall_singleton]. }
  assert (Hkd : components dest = str "public" :: rel) by (by destruct (Hdest n Hn)).
  destruct (copyFile_result src dest w1) as (c & Hc & Hc').
  { by destruct (copyFile src dest w1) as [[[]|?|?|] ?]. }
  { rewrite Hks, Hkd. by intros [= ?]. }
  rewrite Hks in Hc. rewrite Hkd in Hc'. exists c. split; [|done].
  rewrite <- Hf1. unfold fileAt. cbn [stat w1 disk logged] in Hc. by rewrite Hc.
Qed.

Lemma frame_trans dA (K : list gostring → Prop) d1 d2 :
  frame dA K d1 → frame d1 K d2 → frame dA K d2.
Proof.
  intros [U1 K1] [U2 K2]. split; [by eapply unchanged_trans|by eapply keeps_trans].
Qed.

Lemma frame_mono dA (K K' : list gostring → Prop) d :
  (∀ q, K q → K' q) → frame dA K d → frame dA K' d.
Proof. intros HK [U1 K1]. split; [done|by eapply keeps_mono]. Qed.

Lemma outKey_other rel rel2 :
  "/"%char ∉ nameOf rel2 → rel ≠ rel2 →
  getExtension ("/"%char :: nameOf rel) ≠ str ".html" →
  str "public" :: rel ≠ outKey rel2.
Proof.
  intros Hsl Hne Hhtml. unfold outKey. destruct (decide _) as [Hmd|Hmd].
  - intros [= Heq]. apply Hhtml. rewrite Heq. unfold htmlKey.
    rewrite nameOf_snoc. by apply getExtension_html.
  - by intros [= Heq].
Qed.

Lemma published_equiv d0 (R R' : list gostring → Prop) w r :
  (∀ rel, R rel ↔ R' rel) → published d0 R w r → published d0 R' w r.
Proof.
  intros HR (H1 & H2 & H3). split; [done|]. split.
  - eapply frame_mono; [|exact H2]. intros q (rel & Hrel & ->).
    exists rel. by rewrite <- HR.
  - intros Hok rel Hrel. apply H3; [done|]. by apply HR.
Qed.

Lemma published_bind d0 (R1 R2 : list gostring → Prop) (m k : M unit) w :
  published d0 R1 w (m w) →
  (∀ w1, m w = (Ok tt, w1) → published d0 R2 w1 (k w1)) →
  (∀ rel, R1 rel → ¬ R2 rel) →
  (∀ rel, R2 rel → "/"%char ∉ nameOf rel) →
  published d0 (λ rel, R1 rel ∨ R2 rel) w (bind m (λ _, k) w).
Proof.
  intros (A1 & A2 & A3) Hk Hdis Hsl. unfold bind.
  destruct (m w) as [[[]|f|p|] w1] eqn:Hm; cbn [fst snd] in *.
  - destruct (Hk w1 eq_refl) as (B1 & B2 & B3).
    split; [done|]. split.
    + eapply frame_trans; (eapply frame_mono; [|eassumption]);
        intros q (rel & Hrel & ->); exists rel; auto.
    + intros Hok rel [Hrel|Hrel] Hnomd Hnohtml; [|by apply B3].
      destruct (A3 eq_refl rel Hrel Hnomd Hnohtml) as (c & Hc & Hc'). exists c.
      split; [done|]. rewrite <- Hc'. destruct B2 as [_ B2].
      apply (keeps_out _ _ _ _ B2).
      intros (rel2 & Hrel2 & Heq). revert Heq. apply outKey_other; [auto| |done].
      intros ->. by apply (Hdis rel2).
  - split; [done|]. split; [|done].
    eapply frame_mono; [|exact A2]. intros q (rel & Hrel & ->). exists rel. auto.
  - split; [done|]. split; [|done].
    eapply frame_mono; [|exact A2]. intros q (rel & Hrel & ->). exists rel. auto.
  - done.
Qed.

Lemma published_forEach d0 (i : nat) (Re : DirEntry → list gostring → Prop)
    (l : list DirEntry) (body : DirEntry → M unit) :
  NoDup (Name <$> l) →
  (∀ e rel, Re e rel → rel !! i = Some (Name e)) →
  (∀ e rel, e ∈ l → Re e rel → "/"%char ∉ nameOf rel) →
  (∀ e w1, e ∈ l → unchanged inPublic d0 (disk w1) →
     published d0 (Re e) w1 (body e w1)) →
  ∀ w1, unchanged inPublic d0 (disk w1) →
    published d0 (λ rel, ∃ e, e ∈ l ∧ Re e rel) w1 (forEach l body w1).
Proof.
  intros Hnd Hhead. induction l as [|e l IH]; intros Hsl Hbody w1 Hw1.
  - split; [done|]. split; [apply frame_refl|].
    intros _ rel (e & He & _). by apply elem_of_nil in He.
  - rewrite fmap_cons in Hnd. apply NoDup_cons in Hnd as [Hnotin Hnd].
    cbn [forEach].
    eapply published_equiv; [|apply (published_bind d0 (Re e)
                                      (λ rel, ∃ e', e' ∈ l ∧ Re e' rel))].
    + intros rel. split.
      * intros [H|(e' & He' & H)]; [exists e; split; [by left|done]|].
        exists e'. split; [by right|done].
      * intros (e' & [-> | He']%elem_of_cons & H); [by left|]. right. by exists e'.
    + apply Hbody; [by left|done].
    + intros w2 Hrun. apply IH; [done| | |].
      * intros e' rel He'. apply Hsl. by right.
      * intros e' w3 He'. apply Hbody. by right.
      * destruct (Hbody e w1) as (_ & [Hu _] & _); [by left|done|].
        rewrite Hrun in Hu. by eapply unchanged_trans.
    + intros rel H1 (e' & He' & H2). apply Hnotin.
      apply Hhead in H1, H2. apply list_elem_of_fmap. exists e'.
      split; [congruence|done].
    + intros rel (e' & He' & H). apply (Hsl e'); [by right|done].
Qed.

Lemma content_walk templates md d0 fuel :
  namesOk d0 →
  ∀ rels w,
    Forall validName rels →
    unchanged inPublic d0 (disk w) →
    height d0 ≤ fuel + length (str "content" :: rels) →
    published d0
      (λ rel, ∃ rel', rel = rels ++ rel'
                      ∧ reachableFile d0 (str "content" :: rels) rel') w
      (walk (S fuel) (pathBelow (str "content") rels)
            (contentVisit templates md) w).
Proof.
  intros Hok. induction fuel as [fuel IH] using lt_wf_ind.
  intros rels w Hrels Hw Hh.
  set (k := str "content" :: rels) in *.
  assert (Hk : components (pathBelow (str "content") rels) = k)
    by (by apply components_pathBelow).
  assert (HkJ : ∀ rel, ¬ inPublic (k ++ rel)).
  { intros rel [x Hx]. unfold k in Hx. by inversion Hx. }
  cbn [walk]. unfold os_ReadDir. rewrite bind_sys. cbn [fst snd]. rewrite Hk.
  set (w0 := logged w (disk w) "os.ReadDir" [pathBelow (str "content") rels]).
  set (items := (readDir k (disk w)).1).
  assert (Hitems : ∀ e, e ∈ items ↔ e ∈ (readDir k d0).1).
  { intros e. by apply (readDir_unchanged inPublic). }
  set (Re := λ (e : DirEntry) (rel : list gostring),
               ∃ rel', rel = rels ++ rel' ∧ belowEntry d0 k e rel').
  change (published d0 (λ rel, ∃ rel', rel = rels ++ rel' ∧ reachableFile d0 k rel')
            w0
            (forEach items (λ item,
               if negb (IsDir item)
               then contentVisit templates md
                      (pathBelow (str "content") rels ++ str "/" ++ Name item)
               else walk fuel (pathBelow (str "content") rels ++ str "/" ++ Name item)
                         (contentVisit templates md)) w0)).
  eapply published_equiv.
  { intros rel. instantiate (1 := λ rel, ∃ e, e ∈ items ∧ Re e rel). cbn beta.
    split.
    - intros (e & He & rel' & -> & Hrel'). exists rel'. split; [done|].
      apply (reachableFile_entries d0 k rel' items Hitems). by exists e.
    - intros (rel' & -> & Hrel').
      apply (reachableFile_entries d0 k rel' items Hitems) in Hrel'
        as (e & He & Hrel'). exists e. split; [done|]. by exists rel'. }
  apply (published_forEach d0 (length rels)); [apply readDir_NoDup| | | |done].
  { intros e rel (rel' & -> & rel'' & -> & _). by rewrite list_lookup_middle. }
  { intros e rel He (rel' & -> & Hrel').
    assert (Hreach : reachableFile d0 k rel').
    { apply (reachableFile_entries d0 k rel' items Hitems). by exists e. }
    destruct Hrel' as (rel'' & -> & _).
    apply reachableFile_file in Hreach as [c Hc].
    pose proof (nameOf_no_sep d0 _ _ Hok Hc) as Hn. unfold k in Hn.
    rewrite <- app_comm_cons in Hn. rewrite nameOf_cons in Hn; [done|].
    by destruct rels. }
  intros e w1 He Hw1. apply Hitems, readDir_spec in He as (Hstat & nd & Hnd & Hkind).
  assert (Hname : validName (Name e)).
  { specialize (Hok _ _ Hnd). apply Forall_app in Hok as [_ Hn].
    by rewrite Forall_singleton in Hn. }
  change (pathBelow (str "content") rels ++ str "/" ++ Name e)
    with (pathBelow (str "content") rels ++ "/"%char :: Name e).
  rewrite <- pathBelow_snoc.
  destruct (IsDir e) eqn:Hdir; cbn [negb].
  - pose proof (height_le _ _ _ Hnd) as Hlen. rewrite length_app in Hlen.
    cbn [length] in Hlen.
    destruct fuel as [|m]; [lia|].
    eapply published_equiv; [|apply (IH m)]; [|lia|
      apply Forall_app; split; [done|by apply Forall_singleton]|done|
      unfold k in Hlen, Hh; cbn [length] in Hlen, Hh |- *;
      rewrite length_app; cbn [length]; lia].
    intros rel. unfold Re, belowEntry. rewrite Hdir. split.
    + intros (rel' & -> & Hrel'). exists (Name e :: rel').
      split; [by rewrite <- app_assoc|]. by exists rel'.
    + intros (rel' & -> & rel'' & -> & Hrel''). exists rel''.
      split; [by rewrite <- app_assoc|done].
  - destruct (contentVisit_effect templates md rels (Name e) w1 Hrels Hname)
      as (E1 & E2 & E3).
    assert (HRe : ∀ rel, Re e rel ↔ rel = rels ++ [Name e]).
    { intros rel. unfold Re, belowEntry. rewrite Hdir. split.
      - by intros (rel' & -> & rel'' & -> & ->).
      - intros ->. exists [Name e]. split; [done|]. by exists []. }
    split; [done|]. split.
    + eapply frame_mono; [|exact E2]. intros q (rel & -> & ->).
      exists (rels ++ [Name e]). split; [by apply HRe|done].
    + intros Hrun rel Hrel Hnomd Hnohtml. apply HRe in Hrel.
      destruct (E3 Hrun rel Hrel Hnomd Hnohtml) as (c & Hc & Hc').
      exists c. split; [|done]. rewrite <- Hc. symmetry.
      apply (fileAt_unchanged inPublic); [done|].
      intros [x Hx]. by inversion Hx.
Qed.

(** X21: [convertContentDirectory] with fuel above the depth of the tree
    removes no directory; the only regular files that change are the
    outputs of the files [rel] the walk reaches below [content]:
    [public/rel] with the extension replaced by [.html] for a Markdown
    file, [public/rel] for any other; and when the step completes, every
    reached file whose extension is neither [.md] nor [.html] lies at
    [public/rel] with the bytes of its source.  (A page [a.md] and a file
    [a.html] of the same directory share one output, so files with the
    extension [.html] are left out.) *)
Theorem X21_convertContentDirectory_copies (fuel : nat)
    (templates : gmap gostring Template) (markdownWriter : Markdown) (w : World) :
  namesOk (disk w) → height (disk w) < fuel →
  let r := convertContentDirectory fuel templates markdownWriter w in
  (∀ q b, disk w !! q = Some (Dir b) → disk r.2 !! q = Some (Dir b))
  ∧ (∀ q, fileAt (disk r.2) q = fileAt (disk w) q
          ∨ ∃ rel, reachableFile (disk w) [str "content"] rel ∧ q = outKey rel)
  ∧ (r.1 = Ok tt →
     ∀ rel, reachableFile (disk w) [str "content"] rel →
       getExtension ("/"%char :: nameOf rel) ≠ str ".md" →
       getExtension ("/"%char :: nameOf rel) ≠ str ".html" →
       ∃ c, fileAt (disk w) (str "content" :: rel) = Some c
            ∧ fileAt (disk r.2) (str "public" :: rel) = Some c).
Proof.
  intros Hn Hh r. destruct fuel as [|fuel]; [lia|].
  destruct (content_walk templates markdownWriter (disk w) fuel Hn [] w)
    as (P1 & [P2 [P3 P3']] & P4); [done|apply unchanged_refl|cbn [length]; lia|].
  change (walk (S fuel) (pathBelow (str "content") [])
            (contentVisit templates markdownWriter) w) with r in P1, P2, P3, P3', P4.
  split; [done|]. split.
  - intros q. destruct (P3' q) as [Heq|(rel & (rel' & -> & Hrel) & ->)]; [by left|].
    right. by exists rel'.
  - intros Hok rel Hrel Hnomd Hnohtml. apply (P4 Hok); [|done..]. by exists rel.
Qed.

Lemma X21_convertContentDirectory_copies_witness :
  (namesOk (disk siteWorld) ∧ height (disk siteWorld) < 5)
  ∧ let r := convertContentDirectory 5 {[ str "default.html" := toyTemplate ]}
               toyMarkdown siteWorld in
    (∀ q b, disk siteWorld !! q = Some (Dir b) → disk r.2 !! q = Some (Dir b))
    ∧ (∀ q, fileAt (disk r.2) q = fileAt (disk siteWorld) q
            ∨ ∃ rel, reachableFile (disk siteWorld) [str "content"] rel
                     ∧ q = outKey rel)
    ∧ (r.1 = Ok tt →
       ∀ rel, reachableFile (disk siteWorld) [str "content"] rel →
         getExtension ("/"%char :: nameOf rel) ≠ str ".md" →
         getExtension ("/"%char :: nameOf rel) ≠ str ".html" →
         ∃ c, fileAt (disk siteWorld) (str "content" :: rel) = Some c
              ∧ fileAt (disk r.2) (str "public" :: rel) = Some c).
Proof.
  assert (H3 : height (disk siteWorld) < 5) by (vm_compute; lia).
  split; [split; [exact namesOk_siteWorld|exact H3]|].
  exact (X21_convertContentDirectory_copies 5 {[ str "default.html" := toyTemplate ]}
           toyMarkdown siteWorld namesOk_siteWorld H3).
Defined.
